(** * m3w-load-test: the load generator's pure core and the resource monitor

    A shallow embedding of the parts of the repository that compute:
    - [scripts/monitor.cjs]: [parseMemory], the sampling tick of [monitor],
      [average], [percentile] and the capacity estimate of [shutdown];
    - the runner's [main] (inline monitor and guarded capacity estimate);
    - [scripts/benchmark-upload.cjs]: the inline memory parser of
      [runUploadTest];
    - [k6/upload.js]: [createUniqueFileData] and the stage tables;
    - [k6/config.js]: [capacityStages] and [behavior];
    - [k6/capacity.js]: the phase choice of the default function.

    JavaScript numbers are IEEE-754 binary64 values: they are modelled by
    Rocq's primitive [float], whose operations are the hardware's. *)

From Stdlib Require Import ZArith Lia Bool Ascii String.
From Stdlib Require Import Floats.
From stdpp Require Import base list strings gmap pretty sorting.

Local Open Scope Z_scope.

(** ** JavaScript numbers *)

Module Num.

(** The Number nearest to an integer (round to nearest, ties to even), as
    a Number literal or a [length] is read. *)
Definition of_Z (z : Z) : float := SF2Prim (binary_normalize prec emax z 0 false).

(** [ceil_div a b] is the least integer not below [a / b], for [0 < b]. *)
Definition ceil_div (a b : Z) : Z := - ((- a) / b).

(** The signed mantissa of a finite Number. *)
Definition signed (s : bool) (m : positive) : Z := if s then Z.neg m else Z.pos m.

(** An integer as a Number, keeping the sign of a zero result:
    [Math.ceil(-0.5)] is [-0]. *)
Definition integral (s : bool) (k : Z) : float :=
  if k =? 0 then (if s then neg_zero else zero) else of_Z k.

(** [Math.ceil]: NaN, the infinities, the zeros and the Numbers with a
    non-negative exponent (all integers) are returned as they are. *)
Definition Math_ceil (x : float) : float :=
  match Prim2SF x with
  | S754_finite s m e =>
      if 0 <=? e then x else integral s (ceil_div (signed s m) (2 ^ (- e)))
  | _ => x
  end.

(** [Math.floor]. *)
Definition Math_floor (x : float) : float :=
  match Prim2SF x with
  | S754_finite s m e =>
      if 0 <=? e then x else integral s (signed s m / 2 ^ (- e))
  | _ => x
  end.

(** [Math.max] of two Numbers: NaN when either is NaN, and [+0] above [-0]. *)
Definition Math_max (a b : float) : float :=
  if is_nan a || is_nan b then nan
  else if (a <? b)%float then b
  else if (b <? a)%float then a
  else if get_sign a then b else a.

(** [Math.max(...arr)]: the fold of [Math_max] from [-Infinity], for an
    array that the engine can spread into the arguments of one call. *)
Definition Math_max_list (arr : list float) : float :=
  foldl Math_max neg_infinity arr.

(** The array index a Number denotes when used as a property key: a
    non-negative integer ([-0] reads as [0]); any other Number is an
    ordinary property name that no array element carries. *)
Definition to_index (x : float) : option nat :=
  match Prim2SF x with
  | S754_zero _ => Some 0%nat
  | S754_finite false m e =>
      if 0 <=? e then Some (Z.to_nat (Z.pos m * 2 ^ e))
      else if Z.pos m mod 2 ^ (- e) =? 0 then Some (Z.to_nat (Z.pos m / 2 ^ (- e)))
      else None
  | _ => None
  end.

(** [arr[x]]: the element, or [undefined] ([None]). *)
Definition get (arr : list float) (x : float) : option float :=
  i ← to_index x; arr !! i.

(** The canonical form of the Number of a positive integer below [2 ^ 53]. *)
Definition canon (k : Z) (sf : spec_float) : Prop :=
  exists M, sf = S754_finite false M (Zdigits2 k - 53)
            /\ Z.pos M = k * 2 ^ (53 - Zdigits2 k).

(** [arr.length] as a Number. *)
Definition length (arr : list float) : float := of_Z (Z.of_nat (List.length arr)).

End Num.

(** ** JavaScript control: a call returns a value or throws *)

Inductive Exn : Type :=
  | CommandFailed      (* [execSync]: the command exits non-zero or times out *)
  | RangeError         (* a typed-array copy from a longer source *)
  | InvalidWeights     (* named by the design notes; raised nowhere in the code *)
  | InvalidInputSize   (* named by the design notes; raised nowhere in the code *)
  | TypeError.         (* a property read on [undefined] *)

Inductive Outcome (A : Type) : Type :=
  | Normal (a : A)
  | Throw (e : Exn).
Arguments Normal {A} a.
Arguments Throw {A} e.

Global Instance Outcome_ret : MRet Outcome := fun A a => Normal a.
Global Instance Outcome_bind : MBind Outcome := fun A B k m =>
  match m with Normal a => k a | Throw e => Throw e end.

(** [try { body } catch { handler }]. *)
Definition try_catch {A} (body : Outcome A) (handler : Exn -> Outcome A) : Outcome A :=
  match body with Normal a => Normal a | Throw e => handler e end.

(** ** JavaScript strings

    Strings are sequences of 8-bit characters: the stats output and the
    patterns of the source are ASCII. *)

Module Str.
Local Open Scope string_scope.

Definition is_digit (c : ascii) : bool :=
  let n := nat_of_ascii c in (48 <=? n)%nat && (n <=? 57)%nat.
Definition is_upper (c : ascii) : bool :=
  let n := nat_of_ascii c in (65 <=? n)%nat && (n <=? 90)%nat.
Definition is_lower (c : ascii) : bool :=
  let n := nat_of_ascii c in (97 <=? n)%nat && (n <=? 122)%nat.
(** [\s] within ASCII: tab, line feed, vertical tab, form feed, carriage
    return and space. *)
Definition is_space (c : ascii) : bool :=
  let n := nat_of_ascii c in ((9 <=? n)%nat && (n <=? 13)%nat) || (n =? 32)%nat.
(** [\w]. *)
Definition is_word (c : ascii) : bool :=
  is_digit c || is_upper c || is_lower c || Ascii.eqb c "_".
(** [[\d.]]. *)
Definition is_digit_or_dot (c : ascii) : bool := is_digit c || Ascii.eqb c ".".

Definition lower_char (c : ascii) : ascii :=
  if is_upper c then ascii_of_nat (nat_of_ascii c + 32) else c.

Fixpoint toLowerCase (s : string) : string :=
  match s with
  | EmptyString => EmptyString
  | String c s' => String (lower_char c) (toLowerCase s')
  end.

Fixpoint startsWith (s pre : string) : bool :=
  match pre, s with
  | EmptyString, _ => true
  | String p pre', String c s' => Ascii.eqb c p && startsWith s' pre'
  | String _ _, EmptyString => false
  end.

Fixpoint includes (s sub : string) : bool :=
  startsWith s sub ||
  match s with
  | EmptyString => false
  | String _ s' => includes s' sub
  end.

Fixpoint drop (n : nat) (s : string) : string :=
  match n, s with
  | S n', String _ s' => drop n' s'
  | _, _ => s
  end.

Fixpoint take (n : nat) (s : string) : string :=
  match n, s with
  | S n', String c s' => String c (take n' s')
  | _, _ => EmptyString
  end.

(** [s.replace(pat, rep)] with a string pattern: the first occurrence only. *)
Fixpoint replace (s pat rep : string) : string :=
  if startsWith s pat then rep ++ drop (String.length pat) s
  else match s with
       | EmptyString => EmptyString
       | String c s' => String c (replace s' pat rep)
       end.

(** [s.split(sep)] for a one-character separator: never an empty list. *)
Fixpoint split (sep : ascii) (s : string) : list string :=
  match s with
  | EmptyString => [EmptyString]
  | String c s' =>
      if Ascii.eqb c sep then EmptyString :: split sep s'
      else match split sep s' with
           | [] => [String c EmptyString]
           | w :: ws => String c w :: ws
           end
  end.

(** [s.trim()], on ASCII strings: of the white space that JavaScript's
    [trim] removes, the characters below 128 are those of [is_space]; the
    others (U+00A0, U+FEFF, U+2028, U+2029 and the space separators) do not
    occur in an ASCII string. *)
Fixpoint trimStart (s : string) : string :=
  match s with
  | String c s' => if is_space c then trimStart s' else s
  | EmptyString => EmptyString
  end.

Fixpoint trimEnd (s : string) : string :=
  match s with
  | EmptyString => EmptyString
  | String c s' =>
      match trimEnd s' with
      | EmptyString => if is_space c then EmptyString else String c EmptyString
      | t => String c t
      end
  end.

Definition trim (s : string) : string := trimEnd (trimStart s).

(** [forallb] over the characters. *)
Fixpoint all (p : ascii -> bool) (s : string) : bool :=
  match s with
  | EmptyString => true
  | String c s' => p c && all p s'
  end.

(** The next character, if any, is outside the class [p]. *)
Definition stops (p : ascii -> bool) (s : string) : bool :=
  match s with
  | EmptyString => true
  | String c _ => negb (p c)
  end.
End Str.

(** ** Regular expressions

    The patterns of the source use character classes, the greedy quantifiers
    [+], [*] and [?] on a class, sequencing and capture groups without
    nesting. Matching is by backtracking, longest repetition first, as
    ECMAScript prescribes; [k] is the continuation of the match. *)

Module Regex.
Local Open Scope string_scope.

Inductive regex : Type :=
  | Class (p : ascii -> bool)
  | Plus (p : ascii -> bool)
  | Star (p : ascii -> bool)
  | Opt (p : ascii -> bool)
  | Seq (r1 r2 : regex)
  | Group (r : regex).

Section Match.
Context {R : Type}.

Fixpoint star (p : ascii -> bool) (s : string) (k : string -> option R) : option R :=
  match s with
  | String c s' =>
      if p c then
        match star p s' k with
        | Some r => Some r
        | None => k s
        end
      else k s
  | EmptyString => k s
  end.

Definition plus (p : ascii -> bool) (s : string) (k : string -> option R) : option R :=
  match s with
  | String c s' => if p c then star p s' k else None
  | EmptyString => None
  end.

Definition opt (p : ascii -> bool) (s : string) (k : string -> option R) : option R :=
  match s with
  | String c s' =>
      if p c then
        match k s' with
        | Some r => Some r
        | None => k s
        end
      else k s
  | EmptyString => k s
  end.

Definition class (p : ascii -> bool) (s : string) (k : string -> option R) : option R :=
  match s with
  | String c s' => if p c then k s' else None
  | EmptyString => None
  end.

(** [caps] are the groups closed so far, in order. *)
Fixpoint rmatch (r : regex) (s : string) (caps : list string)
    (k : string -> list string -> option R) : option R :=
  match r with
  | Class p => class p s (fun s' => k s' caps)
  | Plus p => plus p s (fun s' => k s' caps)
  | Star p => star p s (fun s' => k s' caps)
  | Opt p => opt p s (fun s' => k s' caps)
  | Seq r1 r2 => rmatch r1 s caps (fun s' caps' => rmatch r2 s' caps' k)
  | Group r1 =>
      rmatch r1 s caps (fun s' caps' =>
        k s' (caps' ++ [Str.take (String.length s - String.length s') s])%list)
  end.
End Match.

(** [s.match(r)] without the [g] flag: the groups of the leftmost match. *)
Fixpoint exec (r : regex) (s : string) : option (list string) :=
  match rmatch r s [] (fun _ caps => Some caps) with
  | Some caps => Some caps
  | None =>
      match s with
      | String _ s' => exec r s'
      | EmptyString => None
      end
  end.

Definition lit (c : ascii) : ascii -> bool := Ascii.eqb c.

(** [/([\d.]+)/] *)
Definition re_number : regex := Group (Plus Str.is_digit_or_dot).
(** [/([\d.]+)(\w+)/] *)
Definition re_memory : regex :=
  Seq (Group (Plus Str.is_digit_or_dot)) (Group (Plus Str.is_word)).
(** [/([\d.]+)([GMK]i?B)/] *)
Definition re_memory_strict : regex :=
  Seq (Group (Plus Str.is_digit_or_dot))
      (Group (Seq (Class (fun c => lit "G" c || lit "M" c || lit "K" c))
                  (Seq (Opt (lit "i")) (Class (lit "B"))))).
End Regex.

(** ** [parseFloat]

    The longest prefix that is a decimal literal (sign, digits, fraction,
    exponent, or [Infinity]), after leading white space; [NaN] when there is
    none. The value is the decimal rounded once to the nearest Number. *)

Module ParseFloat.
Local Open Scope string_scope.

(** Reads a run of decimal digits onto [acc]: the value, the number of
    digits read, and the rest. *)
Fixpoint read_digits (acc : Z) (s : string) : Z * nat * string :=
  match s with
  | String c s' =>
      if Str.is_digit c then
        let '(v, n, rest) := read_digits (10 * acc + (Z.of_nat (nat_of_ascii c) - 48)) s' in
        (v, S n, rest)
      else (acc, 0%nat, s)
  | EmptyString => (acc, 0%nat, s)
  end.

Definition read_sign (s : string) : bool * string :=
  match s with
  | String "-" s' => (true, s')
  | String "+" s' => (false, s')
  | _ => (false, s)
  end.

(** The exponent part [e±ddd], read only when a digit follows. *)
Definition read_exponent (s : string) : Z :=
  match s with
  | String c s' =>
      if Ascii.eqb c "e" || Ascii.eqb c "E" then
        let '(neg, s'') := read_sign s' in
        let '(v, n, _) := read_digits 0 s'' in
        if (n =? 0)%nat then 0 else if neg then - v else v
      else 0
  | EmptyString => 0
  end.

(** [m * 10 ^ e] for [0 <= m], rounded to nearest, ties to even. *)
Definition decimal (m e : Z) : float :=
  match m with
  | Z.pos p =>
      if (0 <=? e)%Z then Num.of_Z (m * 10 ^ e)
      else SF2Prim (SFdiv prec emax (S754_finite false p 0)
                                    (S754_finite false (Z.to_pos (10 ^ (- e))) 0))
  | _ => zero
  end.

Definition parseFloat (s : string) : float :=
  let '(neg, s0) := read_sign (Str.trimStart s) in
  let signed (x : float) := if neg then (- x)%float else x in
  if Str.startsWith s0 "Infinity" then signed infinity
  else
    let '(ip, ni, s1) := read_digits 0 s0 in
    let '(m, nf, s2) :=
      match s1 with
      | String "." t => read_digits ip t
      | _ => (ip, 0%nat, s1)
      end in
    if (ni + nf =? 0)%nat then nan
    else signed (decimal m (read_exponent s2 - Z.of_nat nf)).
End ParseFloat.

Definition parseFloat := ParseFloat.parseFloat.

(** ** scripts/monitor.cjs: aggregates *)

(** [average]: the sum folded from [0] over the length; [0] for no sample. *)
Definition average (arr : list float) : float :=
  if bool_decide (0 < List.length arr)%nat
  then (foldl PrimFloat.add 0%float arr / Num.length arr)%float
  else 0%float.

(** [percentile]: nearest rank on an array the caller sorted. The result is
    a Number, or [undefined] ([None]) when the index names no element. *)
Definition percentile (sortedArr : list float) (p : float) : option float :=
  if bool_decide (List.length sortedArr = 0%nat) then Some 0%float
  else
    let index := (Num.Math_ceil ((p / 100) * Num.length sortedArr) - 1)%float in
    Num.get sortedArr (Num.Math_max 0%float index).


(** ** scripts/monitor.cjs: the stats parser and the sampler *)

Section Monitor.
Local Open Scope string_scope.

(** [parseMemory(value, unit)]: megabytes. The unit is tested by substring
    on its lower-case form; an unknown unit leaves the value as it is. *)
Definition parseMemory (value : float) (unit : string) : float :=
  let unitLower := Str.toLowerCase unit in
  if Str.includes unitLower "gib" || Str.includes unitLower "gb" then (value * 1024)%float
  else if Str.includes unitLower "mib" || Str.includes unitLower "mb" then value
  else if Str.includes unitLower "kib" || Str.includes unitLower "kb" then (value / 1024)%float
  else value.

Record ContainerStats : Type := { cpu : float; memMB : float }.

Record Sample : Type := {
  timestamp : Z;
  containers : gmap string ContainerStats
}.

(** [parts[1].match(/([\d.]+)/)], then [parseFloat] or [0]. *)
Definition cpuReading (s : string) : float :=
  match Regex.exec Regex.re_number s with
  | Some (v :: _) => parseFloat v
  | _ => 0%float
  end.

(** [parts[2].match(/([\d.]+)(\w+)/)], then [parseMemory] or [0]. *)
Definition memReading (s : string) : float :=
  match Regex.exec Regex.re_memory s with
  | Some (v :: u :: _) => parseMemory (parseFloat v) u
  | _ => 0%float
  end.

(** [containers[name] = stats]: an own property, except for the key
    [__proto__], whose assignment sets the prototype instead. *)
Definition assign (name : string) (stats : ContainerStats)
    (cs : gmap string ContainerStats) : gmap string ContainerStats :=
  if String.eqb name "__proto__" then cs else <[name := stats]> cs.

(** One turn of the loop over the lines of the stats output. *)
Definition parseLine (cs : gmap string ContainerStats) (line : string)
    : gmap string ContainerStats :=
  if negb (Str.includes line "m3w-load-test") then cs
  else
    match Str.split "009" line with
    | name0 :: cpuStr :: memStr :: _ =>
        let name := Str.replace (Str.replace name0 "m3w-load-test-" "") "m3w-load-test" "m3w" in
        assign name {| cpu := cpuReading cpuStr; memMB := memReading memStr |} cs
    | _ => cs
    end.

(** What one polling tick receives from outside: the result of [execSync]
    and the clock. *)
Record TickInput : Type := {
  execSync : Outcome string;
  now : Z
}.

(** The body of the [try] block of the interval callback. *)
Definition tickBody (startTime : Z) (i : TickInput) (samples : list Sample)
    : Outcome (list Sample) :=
  output ← execSync i;
  let timestamp := now i - startTime in
  let containers := foldl parseLine ∅ (Str.split "010" (Str.trim output)) in
  if bool_decide (0 < size containers)%nat
  then mret (samples ++ [{| timestamp := timestamp; containers := containers |}])%list
  else mret samples.

(** The interval callback: [try { ... } catch (e) { }]. *)
Definition tick (startTime : Z) (i : TickInput) (samples : list Sample)
    : Outcome (list Sample) :=
  try_catch (tickBody startTime i samples) (fun _ => mret samples).

(** The sampler over the ticks of a run of a monitor that found a container
    runtime, from the empty buffer; a tick that threw would end the run. The
    progress line a tick writes to the terminal is left out. *)
Definition runTicks (startTime : Z) (ticks : list TickInput) : Outcome (list Sample) :=
  foldl (fun acc i => samples ← acc; tick startTime i samples) (mret []) ticks.

(** *** The statistics of [shutdown] and of the runner's [main] *)

(** [{ cpuSamples: [], memSamples: [] }]. *)
Record Series : Type := { cpuSamples : list float; memSamples : list float }.

(** The property names of [Object.prototype]. [stats] is created as [{}],
    so that [stats[name]] for one of these names that [stats] does not hold
    itself is a value inherited from the prototype: a function, or the
    prototype itself for [__proto__]. *)
Definition objectPrototypeNames : list string :=
  [ "constructor"; "__defineGetter__"; "__defineSetter__"; "hasOwnProperty";
    "__lookupGetter__"; "__lookupSetter__"; "isPrototypeOf"; "propertyIsEnumerable";
    "toString"; "valueOf"; "__proto__"; "toLocaleString" ].

(** One turn of the inner loop, for the entry [[name, data]]:
    [if (!stats[name]) stats[name] = { cpuSamples: [], memSamples: [] }],
    then the two [push]. An inherited [stats[name]] is true and has no
    [cpuSamples]: [push] is then read on [undefined]. *)
Definition pushStats (stats : gmap string Series) (entry : string * ContainerStats)
    : Outcome (gmap string Series) :=
  let name := fst entry in
  let data := snd entry in
  let stats1 :=
    if bool_decide (is_Some (stats !! name)) || bool_decide (name ∈ objectPrototypeNames)
    then stats
    else <[name := {| cpuSamples := []; memSamples := [] |}]> stats in
  match stats1 !! name with
  | Some series =>
      mret (<[name := {| cpuSamples := (cpuSamples series ++ [cpu data])%list;
                         memSamples := (memSamples series ++ [memMB data])%list |}]> stats1)
  | None => Throw TypeError
  end.

(** The inner loop, over [Object.entries(sample.containers)]. The names of
    one sample are distinct, so that the order of its entries decides
    nothing but which of several throws comes first. *)
Definition collectSample (stats : gmap string Series) (sample : Sample)
    : Outcome (gmap string Series) :=
  foldl (fun acc entry => st ← acc; pushStats st entry) (mret stats)
        (map_to_list (containers sample)).

(** The outer loop, from [const stats = {}]. *)
Definition collectStats (samples : list Sample) : Outcome (gmap string Series) :=
  foldl (fun acc sample => st ← acc; collectSample st sample) (mret ∅) samples.

(** The readings of a container over a run, in the order of the samples. *)
Definition statsOf (name : string) (samples : list Sample) : list ContainerStats :=
  omap (fun s => containers s !! name) samples.
Definition cpuReadings (name : string) (samples : list Sample) : list float :=
  cpu <$> statsOf name samples.
Definition memReadings (name : string) (samples : list Sample) : list float :=
  memMB <$> statsOf name samples.

(** What [stats[name]] holds of its own when the loops have completed. *)
Definition seriesOf (name : string) (samples : list Sample) : option Series :=
  match statsOf name samples with
  | [] => None
  | _ => Some {| cpuSamples := cpuReadings name samples;
                 memSamples := memReadings name samples |}
  end.

(** The capacity estimate of [shutdown], the two numbers it prints: the
    concurrency is the constant 100 and the memory limit the constant 2048.
    Without samples the process exits before; [None] also when no sample
    names the container [m3w]. [writeFileSync] is the outcome of writing the
    result file, which comes between the statistics and the estimate. *)
Definition capacityEstimate (writeFileSync : Outcome unit) (samples : list Sample)
    : Outcome (option (float * float)) :=
  match samples with
  | [] => mret None
  | _ =>
      stats ← collectStats samples;
      _ ← writeFileSync;
      match stats !! "m3w" with
      | None => mret None
      | Some data =>
          let cpuMax := Num.Math_max_list (cpuSamples data) in
          let memMax := Num.Math_max_list (memSamples data) in
          let cpuHeadroom := (100 / cpuMax)%float in
          let memLimit := 2048%float in
          let memHeadroom := (memLimit / memMax)%float in
          mret (Some (Num.Math_floor (100 * cpuHeadroom), Num.Math_floor (100 * memHeadroom)))
      end
  end.

(** ** The runner's [main]: the guarded estimate, at 500 virtual users.
    Each line is printed only when its maximum is positive. A throw leaves
    the block for the [catch] of [main], which reports a failed test. *)
Definition capacityEstimate_main (samples : list Sample)
    : Outcome (option (option float * option float)) :=
  match samples with
  | [] => mret None
  | _ =>
      stats ← collectStats samples;
      match stats !! "m3w" with
      | None => mret None
      | Some data =>
          let cpuMax := Num.Math_max_list (cpuSamples data) in
          let memMax := Num.Math_max_list (memSamples data) in
          let memLimit := 2048%float in
          mret (Some
            (if (0 <? cpuMax)%float then Some (Num.Math_floor (500 * (100 / cpuMax))) else None,
             if (0 <? memMax)%float then Some (Num.Math_floor (500 * (memLimit / memMax)))
             else None))
      end
  end.

(** ** scripts/benchmark-upload.cjs: the inline memory parser of
    [runUploadTest], [/([\d.]+)([GMK]i?B)/] and [startsWith]. *)
Definition memReading_benchmark (mem : string) : float :=
  match Regex.exec Regex.re_memory_strict mem with
  | Some (v :: unit :: _) =>
      let val := parseFloat v in
      if Str.startsWith unit "G" then (val * 1024)%float
      else if Str.startsWith unit "M" then val
      else if Str.startsWith unit "K" then (val / 1024)%float
      else 0%float
  | _ => 0%float
  end.

(** The units as the container runtimes spell them. *)
Definition exactUnits : list string := ["GiB"; "GB"; "MiB"; "MB"; "KiB"; "KB"].
End Monitor.

(** A run of two samples in which [m3w] peaks at 40% CPU and 512 MB, and a
    run in which it stays idle with no memory reading. *)
Definition peakRun : list Sample :=
  [ {| timestamp := 2000;
       containers := {[ "m3w"%string := {| cpu := 12.5; memMB := 300 |} ]} |};
    {| timestamp := 4000;
       containers := {[ "m3w"%string := {| cpu := 40; memMB := 512 |};
                        "postgres"%string := {| cpu := 3; memMB := 64 |} ]} |} ].

Definition idleRun : list Sample :=
  [ {| timestamp := 2000;
       containers := {[ "m3w"%string := {| cpu := 0; memMB := 0 |} ]} |} ].

(** ** k6/upload.js: unique payloads from one base file *)

Module Upload.

(** [ToInt32]: the operands of the bitwise operators. *)
Definition ToInt32 (z : Z) : Z := (z + 2 ^ 31) mod 2 ^ 32 - 2 ^ 31.

(** [x >> count]: the shift count is taken modulo 32. *)
Definition sar (x count : Z) : Z := Z.shiftr (ToInt32 x) (count mod 32).

(** [x & y]. *)
Definition band (x y : Z) : Z := Z.land (ToInt32 x) (ToInt32 y).

(** The store of [ArrayBuffer]s, by address; a [Uint8Array] over a whole
    buffer is the address of that buffer. *)
Abbreviation Heap := (gmap nat (list Z)).

(** Code over the store that may throw. *)
Definition M (A : Type) : Type := Heap -> Outcome (A * Heap).

Global Instance M_ret : MRet M := fun A a h => Normal (a, h).
Global Instance M_bind : MBind M := fun A B k m h =>
  match m h with
  | Normal (a, h') => k a h'
  | Throw e => Throw e
  end.

(** [new Uint8Array(buffer)]: a view, no copy. *)
Definition view (buffer : nat) : M nat := mret buffer.

(** [arr.length]. *)
Definition byteLength (arr : nat) : M nat := fun h => Normal (length (h !!! arr), h).

(** [new Uint8Array(n)]: a fresh buffer of [n] zero bytes. *)
Definition alloc (n : nat) : M nat := fun h =>
  let a := fresh (dom h) in Normal (a, <[a := replicate n 0]> h).

(** [target.set(source)]: copies [source] to the front of [target]; a
    longer source is a [RangeError]. *)
Definition set (target source : nat) : M unit := fun h =>
  let src := h !!! source in
  let tgt := h !!! target in
  if bool_decide (length src <= length tgt)%nat
  then Normal ((), <[target := src ++ drop (length src) tgt]> h)
  else Throw RangeError.

(** [arr[i] = v]: the low eight bits are stored; a write past the end of a
    typed array is ignored. *)
Definition store (arr : nat) (i : nat) (v : Z) : M unit := fun h =>
  Normal ((), <[arr := <[i := v mod 256]> (h !!! arr)]> h).

(** [createUniqueFileData(vu, iter)], over the global [baseFileData] and
    the clock [Date.now()]. It returns [uniqueData.buffer]. *)
Definition createUniqueFileData (baseFileData : nat) (now : Z) (vu iter : Z) : M nat :=
  data ← view baseFileData;
  n ← byteLength data;
  uniqueData ← alloc n;
  _ ← set uniqueData data;
  let timestamp := now in
  let offset := 100%nat in
  _ ← store uniqueData offset (band (sar vu 24) 255);
  _ ← store uniqueData (offset + 1) (band (sar vu 16) 255);
  _ ← store uniqueData (offset + 2) (band (sar vu 8) 255);
  _ ← store uniqueData (offset + 3) (band vu 255);
  _ ← store uniqueData (offset + 4) (band (sar iter 24) 255);
  _ ← store uniqueData (offset + 5) (band (sar iter 16) 255);
  _ ← store uniqueData (offset + 6) (band (sar iter 8) 255);
  _ ← store uniqueData (offset + 7) (band iter 255);
  _ ← store uniqueData (offset + 8) (band (sar timestamp 56) 255);
  _ ← store uniqueData (offset + 9) (band (sar timestamp 48) 255);
  _ ← store uniqueData (offset + 10) (band (sar timestamp 40) 255);
  _ ← store uniqueData (offset + 11) (band (sar timestamp 32) 255);
  _ ← store uniqueData (offset + 12) (band (sar timestamp 24) 255);
  _ ← store uniqueData (offset + 13) (band (sar timestamp 16) 255);
  _ ← store uniqueData (offset + 14) (band (sar timestamp 8) 255);
  _ ← store uniqueData (offset + 15) (band timestamp 255);
  mret uniqueData.

(** The sixteen values assigned, in the order of their offsets. *)
Definition stampValues (now vu iter : Z) : list Z :=
  [ band (sar vu 24) 255; band (sar vu 16) 255; band (sar vu 8) 255; band vu 255;
    band (sar iter 24) 255; band (sar iter 16) 255; band (sar iter 8) 255; band iter 255;
    band (sar now 56) 255; band (sar now 48) 255; band (sar now 40) 255; band (sar now 32) 255;
    band (sar now 24) 255; band (sar now 16) 255; band (sar now 8) 255; band now 255 ].

(** Consecutive typed-array assignments from offset [i]. *)
Fixpoint writeFrom (i : nat) (vs : list Z) (b : list Z) : list Z :=
  match vs with
  | [] => b
  | v :: vs' => writeFrom (S i) vs' (<[i := v mod 256]> b)
  end.

(** The bytes of the buffer that [createUniqueFileData] returns. *)
Definition uniqueBytes (base : list Z) (now vu iter : Z) : list Z :=
  writeFrom 100 (stampValues now vu iter) base.

(** The big-endian bytes of the low [8 * n] bits of [z]. *)
Fixpoint bigEndian (n : nat) (z : Z) : list Z :=
  match n with
  | O => []
  | S n' => Z.shiftr z (8 * Z.of_nat n') mod 256 :: bigEndian n' z
  end.

(** The window the documentation describes: [vu] and [iter] on four bytes
    each and the millisecond clock on eight. *)
Definition bigEndianStamp (now vu iter : Z) : list Z :=
  bigEndian 4 vu ++ bigEndian 4 iter ++ bigEndian 8 now.

(** The declared size of the default base file, [FILE_SIZE_BYTES]. *)
Definition fileSizeBytes : Z := 5242880.

(** A base file of that size which already carries, at offsets 100 to 115,
    what worker 1 writes in iteration 1 at clock 0. *)
Definition stampedBase : list Z :=
  replicate 100 0 ++ [0; 0; 0; 1; 0; 0; 0; 1; 0; 0; 0; 0; 0; 0; 0; 0]
  ++ replicate (N.to_nat 5242764) 0.

End Upload.

(** ** k6/config.js and k6/upload.js: the stage tables

    A k6 stage is [{ duration, target }]; durations are written here in
    milliseconds (['30s'] is 30000, ['1m'] is 60000). *)

Record Stage : Type := { durationMs : Z; targetConcurrency : Z }.

Definition capacityStages : list Stage :=
  [ {| durationMs := 60000;  targetConcurrency := 1 |};     (* '1m' warm-up *)
    {| durationMs := 180000; targetConcurrency := 10 |};    (* '3m' baseline *)
    {| durationMs := 180000; targetConcurrency := 25 |};    (* '3m' load *)
    {| durationMs := 180000; targetConcurrency := 50 |};    (* '3m' stress *)
    {| durationMs := 180000; targetConcurrency := 100 |};   (* '3m' peak *)
    {| durationMs := 120000; targetConcurrency := 0 |} ].   (* '2m' cool-down *)

Definition defaultStages : list Stage :=
  [ {| durationMs := 30000;  targetConcurrency := 1 |};
    {| durationMs := 60000;  targetConcurrency := 5 |};
    {| durationMs := 120000; targetConcurrency := 10 |};
    {| durationMs := 120000; targetConcurrency := 20 |};
    {| durationMs := 60000;  targetConcurrency := 0 |} ].

Definition benchmarkStages (maxVUs : Z) : list Stage :=
  [ {| durationMs := 30000;  targetConcurrency := maxVUs |};
    {| durationMs := 120000; targetConcurrency := maxVUs |};
    {| durationMs := 30000;  targetConcurrency := 0 |} ].

Definition uploadStages (benchmarkMode : bool) (maxVUs : Z) : list Stage :=
  if benchmarkMode then benchmarkStages maxVUs else defaultStages.

(** The durations of a load profile are not negative. *)
Definition nonnegDurations (profile : list Stage) : Prop :=
  Forall (fun s => 0 <= durationMs s) profile.

(** ** The stage scheduler *)

Module Scheduler.

(** Modelled from the spec: [concurrencyAt], the stage scheduler, which is
    not in the repository (the stage tables are handed to the k6 runtime).
    Spec 4.2: the target of the stage whose cumulative interval, from its
    start up to its end, contains the elapsed time; past the total
    duration the last stage's target, or [0] for an empty profile.
    [start] is the cumulative start of the first stage of [stages] and
    [hold] the target of the stage before it. *)
Fixpoint concurrencyFrom (start hold : Z) (stages : list Stage) (elapsedMs : Z) : Z :=
  match stages with
  | [] => hold
  | s :: rest =>
      let stop := start + durationMs s in
      if (start <=? elapsedMs) && (elapsedMs <? stop) then targetConcurrency s
      else concurrencyFrom stop (targetConcurrency s) rest elapsedMs
  end.

(** Modelled from the spec: [concurrencyAt(elapsedMs)] of spec 4.2, the
    scan above from time 0 with 0 to hold for the empty profile. *)
Definition concurrencyAt (profile : list Stage) (elapsedMs : Z) : Z :=
  concurrencyFrom 0 0 profile elapsedMs.

(** Modelled from the spec: the cumulative start of stage [i], the sum of
    the durations before it (spec 3: stages are played back to back). *)
Definition startOf (profile : list Stage) (i : nat) : Z :=
  foldr Z.add 0 (durationMs <$> take i profile).

(** Modelled from the spec: the total duration of a profile, the sum of its
    stage durations (spec 3). *)
Definition totalDuration (profile : list Stage) : Z :=
  foldr Z.add 0 (durationMs <$> profile).

End Scheduler.

(** ** k6/config.js and k6/capacity.js: the behaviour weights and the phase
    of an iteration *)

Set Warnings "-inexact-float".

Record Behavior : Type := { startup : float; listening : float; managing : float }.

Definition behavior : Behavior :=
  {| startup := 0.05; listening := 0.85; managing := 0.10 |}.

Inductive Phase : Type := Startup | Listening | Managing.

(** What the default function of an iteration does with its draw: the
    phase body it calls, or the early return of the listening branch. *)
Inductive Iteration : Type :=
  | RunsStartup                      (* [startupPhase()] *)
  | RunsListening (songId : string)  (* [listeningPhase(testSongId)] *)
  | SkipsListening                   (* [console.warn(...); sleep(1); return] *)
  | RunsManaging.                    (* [managingPhase()] *)

Module Capacity.

(** The default function of k6/capacity.js, on the draw [rand] of
    [Math.random()] and [config.testSongId], a string that is empty when
    [TEST_SONG_ID] is not set. The result names the call the function makes
    and stops there: what the phase bodies do, HTTP requests through k6, and
    whether they return or throw, is not part of it. *)
Definition default (b : Behavior) (testSongId : string) (rand : float) : Iteration :=
  if (rand <? startup b)%float then RunsStartup
  else if (rand <? startup b + listening b)%float then
    if String.eqb testSongId "" then SkipsListening
    else RunsListening testSongId
  else RunsManaging.

End Capacity.

(** The weight table in the order of the [if] chain. *)
Definition weightTable (b : Behavior) : list (Phase * float) :=
  [ (Startup, startup b); (Listening, listening b); (Managing, managing b) ].

(** The selection as the spec words it: the first phase whose cumulative
    upper bound exceeds the draw; [acc] is the bound of the phases before. *)
Fixpoint firstExceeding (acc : option float) (table : list (Phase * float)) (draw : float)
    : option Phase :=
  match table with
  | [] => None
  | (ph, w) :: rest =>
      let bound := match acc with None => w | Some a => (a + w)%float end in
      if (draw <? bound)%float then Some ph
      else firstExceeding (Some bound) rest draw
  end.

(** ** scripts/generate-upload-files.cjs: the fixture generator *)

Module Generator.

(** The bytes of a string ([Buffer.from(text, 'utf8')] on a string given by
    its UTF-8 bytes, and [Buffer.from(id, 'ascii')] on an ASCII literal). *)
Fixpoint bytesOf (s : string) : list Z :=
  match s with
  | EmptyString => []
  | String c s' => Z.of_nat (nat_of_ascii c) :: bytesOf s'
  end.

(** [Buffer.from([...])]: each entry is reduced to eight bits. *)
Definition bufferFrom (vs : list Z) : list Z := (fun v => v mod 256) <$> vs.

(** [createId3Frame(frameId, text)]: the frame id, the size of what follows
    the frame header on four bytes, two flag bytes, the encoding byte, the
    text. *)
Definition createId3Frame (frameId text : string) : list Z :=
  let textBuffer := bytesOf text in
  let size := Z.of_nat (length textBuffer) + 1 in
  bytesOf frameId
  ++ bufferFrom [ Upload.band (Upload.sar size 24) 255;
                  Upload.band (Upload.sar size 16) 255;
                  Upload.band (Upload.sar size 8) 255;
                  Upload.band size 255;
                  0; 0;
                  0 ]
  ++ textBuffer.

(** The title of a fixture, [`Test ${SEED}-${sizeMB}MB-v${variant}`], for
    sizes and variants that are integers of magnitude at most [2 ^ 53]: the
    Numbers that are these integers one for one, and that the template
    literal prints in full decimal. The script passes the sizes 5 to 100 and
    a loop counter from 0. *)
Definition titleOf (SEED : string) (sizeMB variant : Z) : string :=
  ("Test " +:+ SEED +:+ "-" +:+ pretty sizeMB +:+ "MB-v" +:+ pretty variant)%string.

(** [createMinimalId3Tag(sizeMB, variant)], over the global [SEED]: the ten
    bytes of the ID3v2.3 header, the size as four groups of seven bits, then
    the title and artist frames. *)
Definition createMinimalId3Tag (SEED : string) (sizeMB variant : Z) : list Z :=
  let title := titleOf SEED sizeMB variant in
  let artist := "M3W Load Test"%string in
  let frames := [createId3Frame "TIT2" title; createId3Frame "TPE1" artist] in
  let framesBuffer := concat frames in
  let size := Z.of_nat (length framesBuffer) in
  let header := bufferFrom [ 73; 68; 51;
                             3; 0;
                             0;
                             Upload.band (Upload.sar size 21) 127;
                             Upload.band (Upload.sar size 14) 127;
                             Upload.band (Upload.sar size 7) 127;
                             Upload.band size 127 ] in
  header ++ framesBuffer.

(** [Math.ceil(a / b)] for integer Numbers [a] and [b], as a count: the
    binary64 quotient, then its ceiling; [0] when that is no natural
    number. *)
Definition ceilQuotient (a b : Z) : Z :=
  match Num.to_index (Num.Math_ceil (Num.of_Z a / Num.of_Z b)) with
  | Some n => Z.of_nat n
  | None => 0
  end.

Definition frameHeader : list Z := bufferFrom [255; 251; 144; 0].
Definition frameSize : nat := 417.
Definition batchSize : Z := 10000.

Section Frames.
(** [crypto.createHash('md5').update(text).digest()], the bytes of the
    digest. *)
Variable md5 : string -> list Z.
Variable SEED : string.

(** The text hashed for frame [i] of batch [batch]. *)
Definition hashText (sizeMB variant : Z) (batch i : nat) : string :=
  (SEED +:+ "-" +:+ pretty sizeMB +:+ "-" +:+ pretty variant
   +:+ "-" +:+ pretty batch +:+ "-" +:+ pretty i)%string.

(** The inner loop: [batchBuffer[offset + j] = hash[j % hash.length]] for
    [j] from 4 to 416. *)
Definition fillPayload (hash : list Z) (offset : nat) (batchBuffer : list Z) : list Z :=
  foldl (fun buf j => <[(offset + j)%nat := (hash !!! (j mod length hash)%nat) mod 256]> buf)
        batchBuffer (seq 4 (frameSize - 4)).

(** One turn of the loop over the frames of a batch: the header is copied
    to [offset = i * frameSize], then the payload is filled. *)
Definition fillFrame (sizeMB variant : Z) (batch : nat) (batchBuffer : list Z) (i : nat)
    : list Z :=
  let offset := (i * frameSize)%nat in
  let copied := Upload.writeFrom offset frameHeader batchBuffer in
  fillPayload (md5 (hashText sizeMB variant batch i)) offset copied.

(** The frames of batch [batch]: [Math.min(batchSize, numFrames - batch *
    batchSize)] of them. *)
Definition framesInBatch (numFrames : Z) (batch : nat) : nat :=
  Z.to_nat (Z.min batchSize (numFrames - Z.of_nat batch * batchSize)).

(** One turn of the loop over the batches: a zeroed buffer, filled frame by
    frame. *)
Definition batchBuffer (sizeMB variant : Z) (numFrames : Z) (batch : nat) : list Z :=
  foldl (fillFrame sizeMB variant batch)
        (replicate (framesInBatch numFrames batch * frameSize) 0)
        (seq 0 (framesInBatch numFrames batch)).

(** [generateMp3File(sizeMB, variant)]: the tag, then the batches. *)
Definition generateMp3File (sizeMB variant : Z) : list Z :=
  let targetBytes := sizeMB * 1024 * 1024 in
  let numFrames := ceilQuotient targetBytes (Z.of_nat frameSize) in
  let chunks :=
    createMinimalId3Tag SEED sizeMB variant
    :: (batchBuffer sizeMB variant numFrames
          <$> seq 0 (Z.to_nat (ceilQuotient numFrames batchSize))) in
  concat chunks.

(** A frame as it reads when the loops are done: the header, then the
    digest repeated from its fifth byte. *)
Definition frameOf (hash : list Z) : list Z :=
  frameHeader
  ++ ((fun j => (hash !!! (j mod length hash)%nat) mod 256) <$> seq 4 (frameSize - 4)).

(** Frame [k] of a file, counted through the batches. *)
Definition frameAt (sizeMB variant : Z) (k : nat) : list Z :=
  frameOf (md5 (hashText sizeMB variant (k / Z.to_nat batchSize) (k mod Z.to_nat batchSize))).

End Frames.

(** The sizes the script generates, [FILE_SIZES]. *)
Definition FILE_SIZES : list Z := [5; 20; 50; 100].

(** The four groups of seven bits of a tag size. *)
Definition septets (size : Z) : list Z :=
  [ Z.shiftr size 21 mod 128; Z.shiftr size 14 mod 128; Z.shiftr size 7 mod 128; size mod 128 ].

(** Reading back a big-endian field, and an ID3 size of seven-bit groups. *)
Definition beDecode (bs : list Z) : Z := foldl (fun acc b => acc * 256 + b) 0 bs.
Definition syncsafeDecode (bs : list Z) : Z := foldl (fun acc b => acc * 128 + b) 0 bs.

End Generator.

(** ** The [.env.test] file: scripts/seed.cjs writes it, the runners and the
    cleanup script read it back

    The file is ASCII: names, URLs, identifiers and a token. *)

Module Env.
Local Open Scope string_scope.

(** [parts.join(sep)]. *)
Fixpoint join (sep : string) (parts : list string) : string :=
  match parts with
  | [] => ""
  | p :: ps =>
      match ps with
      | [] => p
      | _ :: _ => p ++ sep ++ join sep ps
      end
  end.

(** The line feed, as a string. *)
Definition LF : string := String "010" EmptyString.

(** A string as a condition: the empty string is false. *)
Definition truthy (s : string) : bool := negb (String.eqb s "").

(** [writeEnvFile(config)], on the entries of [config] in their order: one
    [key=value] line each, joined by line feeds, and a final line feed. *)
Definition writeEnvFile (config : list (string * string)) : string :=
  join LF ((fun kv => fst kv ++ "=" ++ snd kv) <$> config) ++ LF.

(** One turn of the loop of the runners over the lines of the file
    ([scripts/run-upload-test.cjs] and the capacity runner): the assignment
    [process.env[key.trim()] = valueParts.join('=').trim()] it performs, if
    any. *)
Definition runnerAssignment (line : string) : option (string * string) :=
  match Str.split "=" line with
  | key :: valueParts =>
      if truthy key && bool_decide (0 < length valueParts)%nat
      then Some (Str.trim key, Str.trim (join "=" valueParts))
      else None
  | [] => None
  end.

(** The assignments of the whole loop, in order. *)
Definition runnerAssignments (envContent : string) : list (string * string) :=
  omap runnerAssignment (Str.split "010" envContent).

(** The same loop in [scripts/benchmark-upload.cjs], which tests the key
    only. *)
Definition benchmarkAssignment (line : string) : option (string * string) :=
  match Str.split "=" line with
  | key :: valueParts =>
      if truthy key then Some (Str.trim key, Str.trim (join "=" valueParts)) else None
  | [] => None
  end.

Definition benchmarkAssignments (envContent : string) : list (string * string) :=
  omap benchmarkAssignment (Str.split "010" envContent).



(** A string without the character [c]. *)
Definition lacks (c : ascii) (s : string) : bool := Str.all (fun d => negb (Ascii.eqb d c)) s.

(** A string of ASCII characters only. *)
Definition isAscii (s : string) : bool := Str.all (fun d => (nat_of_ascii d <? 128)%nat) s.


(** Entries that the file format can hold: a non-empty key without [=],
    no line feed in the key or the value. *)
Definition plain (kv : string * string) : Prop :=
  fst kv <> "" /\ lacks "=" (fst kv) = true
  /\ lacks "010" (fst kv) = true /\ lacks "010" (snd kv) = true.


End Env.

(** ** scripts/benchmark-upload.cjs: the sampler inside [runUploadTest] *)

Module Benchmark.
Local Open Scope string_scope.

(** What the body of the interval callback can throw: the failure of
    [execSync], or the [TypeError] of [mem.match] when [mem] is
    [undefined]. *)
Inductive TickExn : Type :=
  | ExecFailed (e : Exn)
  | TypeError.

Inductive Result (A : Type) : Type :=
  | Ok (a : A)
  | Thrown (e : TickExn).
Arguments Ok {A} a.
Arguments Thrown {A} e.

(** [parseFloat(cpu) || 0]: [parseFloat(undefined)] is [NaN], and [NaN]
    and both zeros are false. *)
Definition cpuVal (cpu : option string) : float :=
  let v := match cpu with Some s => parseFloat s | None => nan end in
  if PrimFloat.is_nan v || (v =? 0)%float then 0%float else v.

(** One turn of the loop over the lines:
    [const [name, cpu, mem] = line.split('\t')] leaves [cpu] and [mem]
    undefined on a shorter line. The statistics are the record of the
    monitor; its field [memMB] holds what the benchmark calls [mem]. *)
Definition parseLine (cs : gmap string ContainerStats) (line : string)
    : Result (gmap string ContainerStats) :=
  if negb (Str.includes line "m3w-load-test") then Ok cs
  else
    let parts := Str.split "009" line in
    let name := default "" (parts !! 0%nat) in
    let cpu := parts !! 1%nat in
    let mem := parts !! 2%nat in
    let shortName := Str.replace (Str.replace name "m3w-load-test-" "") "m3w-load-test" "m3w" in
    match mem with
    | None => Thrown TypeError
    | Some mem =>
        Ok (assign shortName {| cpu := cpuVal cpu; memMB := memReading_benchmark mem |} cs)
    end.

(** The loop over the lines stops at the first throw. *)
Definition parseLines (lines : list string) : Result (gmap string ContainerStats) :=
  foldl (fun acc line => match acc with Ok cs => parseLine cs line | Thrown e => Thrown e end)
        (Ok ∅) lines.

(** The body of the [try] block: the sample is pushed whatever the
    containers are. *)
Definition tickBody (monitorStart : Z) (i : TickInput) (samples : list Sample)
    : Result (list Sample) :=
  match execSync i with
  | Throw e => Thrown (ExecFailed e)
  | Normal output =>
      let timestamp := now i - monitorStart in
      match parseLines (Str.split "010" (Str.trim output)) with
      | Ok containers =>
          Ok (samples ++ [{| timestamp := timestamp; containers := containers |}])%list
      | Thrown e => Thrown e
      end
  end.

(** The interval callback: [try { ... } catch {}]. *)
Definition tick (monitorStart : Z) (i : TickInput) (samples : list Sample) : list Sample :=
  match tickBody monitorStart i samples with
  | Ok samples' => samples'
  | Thrown _ => samples
  end.

End Benchmark.

(** ** scripts/run-upload-test.cjs and the capacity runner: [waitForHealth] *)

Module Health.

(** What one [await fetch(url)] gives: a response that is [ok], a response
    that is not, or a throw. *)
Inductive Probe : Type :=
  | Healthy
  | Unhealthy
  | Unreachable.

(** What the function does to the outside: the calls of [fetch] made and
    the milliseconds asked of [setTimeout], in total. *)
Record World : Type := {
  fetched : nat;
  slept : Z
}.

(** The turns of the [for] loop that are left; [probe n] is what the call
    of [fetch] gives after [n] earlier calls. The result is [true] for
    [return true] and [false] for the [throw] after the loop. The dots
    written to the terminal are left out. *)
Fixpoint attempts (probe : nat -> Probe) (interval : Z) (remaining : nat) (w : World)
    : bool * World :=
  match remaining with
  | O => (false, w)
  | S remaining' =>
      let w1 := {| fetched := S (fetched w); slept := slept w |} in
      match probe (fetched w) with
      | Healthy => (true, w1)
      | Unhealthy | Unreachable =>
          attempts probe interval remaining'
                   {| fetched := fetched w1; slept := slept w1 + interval |}
      end
  end.

(** [waitForHealth(url, maxAttempts, interval)], for a count of turns
    [maxAttempts]. *)
Definition waitForHealth (probe : nat -> Probe) (maxAttempts : nat) (interval : Z)
    : bool * World :=
  attempts probe interval maxAttempts {| fetched := 0; slept := 0 |}.

End Health.

(** * Proofs *)

(** ** Binary64 arithmetic on integers

    The specification of the primitive operations ([FloatAxioms]) is in terms
    of [SpecFloat]; the lemmas below derive what the aggregates need from it:
    integers below [2 ^ 53] are Numbers, subtracting one from them is exact,
    and a product is rounded to the quotient of its mantissa or the next
    integer. *)

Section Binary64.

Lemma digits2_bounds p :
  2 ^ (Z.pos (digits2_pos p) - 1) <= Z.pos p < 2 ^ Z.pos (digits2_pos p).
Proof.
  induction p as [p IH|p IH|]; cbn [digits2_pos].
  - rewrite Pos2Z.inj_succ, Z.pow_succ_r by lia.
    replace (Z.succ (Z.pos (digits2_pos p)) - 1) with (Z.succ (Z.pos (digits2_pos p) - 1)) by lia.
    rewrite Z.pow_succ_r by lia. lia.
  - rewrite Pos2Z.inj_succ, Z.pow_succ_r by lia.
    replace (Z.succ (Z.pos (digits2_pos p)) - 1) with (Z.succ (Z.pos (digits2_pos p) - 1)) by lia.
    rewrite Z.pow_succ_r by lia. lia.
  - simpl. lia.
Qed.

Lemma digits2_unique p d :
  2 ^ (d - 1) <= Z.pos p < 2 ^ d -> Z.pos (digits2_pos p) = d.
Proof.
  intros [Hl Hu]. pose proof (digits2_bounds p) as [Hl' Hu'].
  assert (0 < d).
  { destruct (Z.lt_trichotomy d 0) as [Hn|[->|?]]; [|simpl in Hu; lia|done].
    rewrite Z.pow_neg_r in Hu by lia. lia. }
  destruct (Z.lt_trichotomy (Z.pos (digits2_pos p)) d) as [Hlt|[Heq|Hgt]]; [|done|].
  - assert (2 ^ Z.pos (digits2_pos p) <= 2 ^ (d - 1)) by (apply Z.pow_le_mono_r; lia). lia.
  - assert (2 ^ d <= 2 ^ (Z.pos (digits2_pos p) - 1)) by (apply Z.pow_le_mono_r; lia). lia.
Qed.

Lemma iter_pos_nat {A} (f : A -> A) p x :
  SpecFloat.iter_pos f p x = Nat.iter (Pos.to_nat p) f x.
Proof.
  revert x. induction p as [p IH|p IH|]; intros x; cbn [SpecFloat.iter_pos].
  - rewrite !IH, Pos2Nat.inj_xI.
    replace (S (2 * Pos.to_nat p))%nat with (Pos.to_nat p + (Pos.to_nat p + 1))%nat by lia.
    rewrite !Nat.iter_add. reflexivity.
  - rewrite !IH, Pos2Nat.inj_xO.
    replace (2 * Pos.to_nat p)%nat with (Pos.to_nat p + Pos.to_nat p)%nat by lia.
    rewrite Nat.iter_add. reflexivity.
  - reflexivity.
Qed.

Lemma shr_1_nonneg m r s :
  0 <= m ->
  shr_1 {| shr_m := m; shr_r := r; shr_s := s |}
  = {| shr_m := m / 2; shr_r := Z.odd m; shr_s := r || s |}.
Proof.
  intros Hm. destruct m as [|[p|p|]|]; try lia; cbn [shr_1].
  - reflexivity.
  - replace (Z.pos p~1 / 2) with (Z.pos p); [reflexivity|].
    rewrite Pos2Z.inj_xI. apply Z.div_unique with (r := 1); lia.
  - replace (Z.pos p~0 / 2) with (Z.pos p); [reflexivity|].
    rewrite Pos2Z.inj_xO. apply Z.div_unique with (r := 0); lia.
  - reflexivity.
Qed.

Lemma shr_iter m n :
  0 <= m ->
  let mrs := Nat.iter n shr_1 {| shr_m := m; shr_r := false; shr_s := false |} in
  shr_m mrs = m / 2 ^ Z.of_nat n
  /\ (shr_r mrs || shr_s mrs = false <-> m mod 2 ^ Z.of_nat n = 0).
Proof.
  intros Hm. induction n as [|n IH]; cbn zeta.
  - simpl. rewrite Z.div_1_r, Z.mod_1_r. tauto.
  - cbn zeta in IH. rewrite Nat.iter_succ.
    destruct (Nat.iter n shr_1 _) as [q r s]. cbn [shr_m shr_r shr_s] in IH.
    destruct IH as [Hq Hrs].
    assert (0 <= q) by (subst q; apply Z.div_pos; lia).
    rewrite shr_1_nonneg by done. cbn [shr_m shr_r shr_s].
    rewrite Nat2Z.inj_succ, Z.pow_succ_r by lia.
    assert (Hpow : 0 < 2 ^ Z.of_nat n) by (apply Z.pow_pos_nonneg; lia).
    split.
    + subst q. rewrite (Z.mul_comm 2), Z.div_div by lia. reflexivity.
    + rewrite (Z.mul_comm 2), Z.rem_mul_r by lia. rewrite <- Hq.
      rewrite orb_false_iff, Hrs.
      pose proof (Z.mod_pos_bound m (2 ^ Z.of_nat n) Hpow).
      pose proof (Z.mod_pos_bound q 2 ltac:(lia)).
      rewrite <- Z.negb_even, negb_false_iff, Z.even_spec.
      split.
      * intros [[k Hk] Hm0].
        assert (Hq0 : q mod 2 = 0) by (rewrite Hk, Z.mul_comm, Z.mod_mul; lia).
        rewrite Hq0, Hm0. lia.
      * intros Hz. assert (Hq0 : q mod 2 = 0) by nia.
        split; [|nia]. exists (q / 2). pose proof (Z.div_mod q 2). lia.
Qed.

Lemma round_nearest_even_cases q mrs :
  shr_m mrs = q ->
  let M := round_nearest_even q (loc_of_shr_record mrs) in
  (M = q \/ M = q + 1) /\ (shr_r mrs || shr_s mrs = false -> M = q).
Proof.
  intros _. destruct mrs as [m [|] [|]]; cbn; try destruct (Z.even q); auto; split; auto; discriminate.
Qed.

Lemma shr_exact_start m e n :
  0 <= m -> 0 <= n ->
  exists mrs,
    shr {| shr_m := m; shr_r := false; shr_s := false |} e n = (mrs, e + n)
    /\ shr_m mrs = m / 2 ^ n
    /\ (shr_r mrs || shr_s mrs = false <-> m mod 2 ^ n = 0).
Proof.
  intros Hm Hn. destruct n as [|p|p]; [| |lia].
  - eexists. cbn [shr]. rewrite Z.add_0_r. split; [reflexivity|].
    cbn [shr_m shr_r shr_s]. rewrite Z.pow_0_r, Z.div_1_r, Z.mod_1_r. tauto.
  - cbn [shr]. rewrite iter_pos_nat.
    pose proof (shr_iter m (Pos.to_nat p) Hm) as H. cbn zeta in H.
    rewrite positive_nat_Z in H. eexists. split; [reflexivity|exact H].
Qed.

Lemma fexp64_normal d : -1074 <= d - 53 -> fexp prec emax d = d - 53.
Proof. intros H. unfold fexp, SpecFloat.emin, prec, emax. lia. Qed.

Lemma shr_fexp_exact_start m e :
  0 < m -> 0 <= Zdigits2 m - 53 -> -1074 <= e + (Zdigits2 m - 53) ->
  exists mrs,
    shr_fexp prec emax m e loc_Exact = (mrs, e + (Zdigits2 m - 53))
    /\ shr_m mrs = m / 2 ^ (Zdigits2 m - 53)
    /\ (shr_r mrs || shr_s mrs = false <-> m mod 2 ^ (Zdigits2 m - 53) = 0).
Proof.
  intros Hm Hn He. unfold shr_fexp. cbn [shr_record_of_loc].
  rewrite fexp64_normal by lia.
  replace (Zdigits2 m + e - 53 - e) with (Zdigits2 m - 53) by lia.
  apply shr_exact_start; lia.
Qed.

(** Rounding a positive mantissa of at least 53 digits, in the normal range:
    the result is the quotient by [2 ^ n] or its successor, and the quotient
    itself when the division is exact. *)
Lemma round_aux_spec (mx : positive) (ex : Z) :
  let n := Z.pos (digits2_pos mx) - 53 in
  0 <= n -> -1074 <= ex + n -> ex + n < 971 ->
  exists M e' M0,
    binary_round_aux prec emax false (Z.pos mx) ex loc_Exact = S754_finite false M e'
    /\ Z.pos (digits2_pos M) = 53
    /\ Z.pos mx / 2 ^ n <= M0 <= Z.pos mx / 2 ^ n + 1
    /\ (Z.pos mx mod 2 ^ n = 0 -> M0 = Z.pos mx / 2 ^ n)
    /\ ex + n <= e' <= ex + n + 1
    /\ Z.pos M * 2 ^ (e' - (ex + n)) = M0.
Proof.
  intros n Hn Hlo Hhi.
  destruct (shr_fexp_exact_start (Z.pos mx) ex) as (mrs & Hshr & Hq & Hex);
    cbn [Zdigits2]; try lia.
  cbn [Zdigits2] in Hshr, Hq, Hex. fold n in Hshr, Hq, Hex.
  unfold binary_round_aux. rewrite Hshr.
  pose proof (round_nearest_even_cases _ mrs eq_refl) as [HM Hexact]. cbn zeta in HM, Hexact.
  set (M0 := round_nearest_even (shr_m mrs) (loc_of_shr_record mrs)) in *.
  rewrite Hq in HM.
  pose proof (digits2_bounds mx) as [Hdl Hdu].
  assert (Hpn : 0 < 2 ^ n) by (apply Z.pow_pos_nonneg; lia).
  assert (Hq52 : 2 ^ 52 <= Z.pos mx / 2 ^ n < 2 ^ 53).
  { replace (Z.pos (digits2_pos mx) - 1) with (52 + n) in Hdl by lia.
    replace (Z.pos (digits2_pos mx)) with (53 + n) in Hdu by lia.
    rewrite Z.pow_add_r in Hdl, Hdu by lia. split.
    - apply Z.div_le_lower_bound; lia.
    - apply Z.div_lt_upper_bound; lia. }
  assert (HM0pos : 0 < M0) by lia.
  destruct M0 as [|M0p|] eqn:EM0; try lia.
  destruct (Z_lt_le_dec (Z.pos M0p) (2 ^ 53)) as [Hlt|Hge].
  - (* no carry *)
    assert (Hd : Z.pos (digits2_pos M0p) = 53) by (apply digits2_unique; lia).
    destruct (shr_fexp_exact_start (Z.pos M0p) (ex + n)) as (mrs2 & Hshr2 & Hq2 & _);
      cbn [Zdigits2]; try lia.
    cbn [Zdigits2] in Hshr2, Hq2. rewrite Hd in Hshr2, Hq2.
    change (53 - 53) with 0 in Hshr2, Hq2. rewrite Z.pow_0_r, Z.div_1_r in Hq2.
    rewrite Hshr2, Hq2.
    replace (ex + n + 0 <=? emax - prec) with true
      by (symmetry; apply Z.leb_le; unfold emax, prec; lia).
    exists M0p, (ex + n + 0), (Z.pos M0p).
    split; [reflexivity|]. split; [exact Hd|]. split; [lia|].
    split; [intros Hz; apply Hex, Hexact in Hz; lia|]. split; [lia|].
    replace (ex + n + 0 - (ex + n)) with 0 by lia. lia.
  - (* the mantissa rounded up to 2 ^ 53 *)
    assert (HM53 : Z.pos M0p = 2 ^ 53) by lia.
    assert (Hd : Z.pos (digits2_pos M0p) = 54) by (apply digits2_unique; rewrite HM53; simpl; lia).
    destruct (shr_fexp_exact_start (Z.pos M0p) (ex + n)) as (mrs2 & Hshr2 & Hq2 & _);
      cbn [Zdigits2]; try lia.
    cbn [Zdigits2] in Hshr2, Hq2. rewrite Hd in Hshr2, Hq2.
    change (54 - 53) with 1 in Hshr2, Hq2. rewrite HM53 in Hq2.
    change (2 ^ 53 / 2 ^ 1) with (Z.pos (2 ^ 52)%positive) in Hq2.
    rewrite Hshr2, Hq2.
    replace (ex + n + 1 <=? emax - prec) with true
      by (symmetry; apply Z.leb_le; unfold emax, prec; lia).
    exists (2 ^ 52)%positive, (ex + n + 1), (Z.pos M0p).
    split; [reflexivity|]. split; [reflexivity|]. split; [lia|].
    split; [intros Hz; apply Hex, Hexact in Hz; lia|]. split; [lia|].
    replace (ex + n + 1 - (ex + n)) with 1 by lia. rewrite HM53. reflexivity.
Qed.

Lemma round_aux_exact (mx : positive) (ex : Z) :
  let n := Z.pos (digits2_pos mx) - 53 in
  0 <= n -> -1074 <= ex + n -> ex + n < 971 ->
  Z.pos mx mod 2 ^ n = 0 ->
  exists M,
    binary_round_aux prec emax false (Z.pos mx) ex loc_Exact = S754_finite false M (ex + n)
    /\ Z.pos M = Z.pos mx / 2 ^ n.
Proof.
  intros n Hn Hlo Hhi Hmod.
  destruct (round_aux_spec mx ex Hn Hlo Hhi) as (M & e' & M0 & Hr & Hd & _ & Hex & He' & HM).
  fold n in Hr, Hex, He', HM. specialize (Hex Hmod). subst M0.
  pose proof (digits2_bounds M) as [HMl HMu]. rewrite Hd in HMl, HMu.
  pose proof (digits2_bounds mx) as [_ Hdu].
  replace (Z.pos (digits2_pos mx)) with (53 + n) in Hdu by lia.
  assert (Hpn : 0 < 2 ^ n) by (apply Z.pow_pos_nonneg; lia).
  rewrite Z.pow_add_r in Hdu by lia.
  assert (Z.pos mx / 2 ^ n < 2 ^ 53) by (apply Z.div_lt_upper_bound; lia).
  assert (e' = ex + n) as ->.
  { destruct (Z.eq_dec e' (ex + n)) as [|Hne]; [done|].
    replace (e' - (ex + n)) with 1 in HM by lia. simpl (2 ^ 1) in HM. simpl in *. lia. }
  exists M. split; [done|]. rewrite Z.sub_diag, Z.pow_0_r in HM. lia.
Qed.

Lemma Pos_iter_xO p k : Z.pos (Pos.iter xO p k) = Z.pos p * 2 ^ Z.pos k.
Proof.
  induction k as [|k IH] using Pos.peano_ind.
  - simpl. lia.
  - rewrite Pos.iter_succ, Pos2Z.inj_xO, IH, Pos2Z.inj_succ, Z.pow_succ_r by lia. lia.
Qed.

(** Rounding an integer [a * 2 ^ j] that fits the mantissa is exact, and
    yields the canonical mantissa and exponent of [a]. *)
Lemma binary_round_exact (mx a : positive) (j : Z) :
  let d := Z.pos (digits2_pos a) in
  d <= 53 -> 0 <= j <= 900 -> Z.pos mx = Z.pos a * 2 ^ j ->
  exists M,
    binary_round prec emax false mx (- j) = S754_finite false M (d - 53)
    /\ Z.pos M = Z.pos a * 2 ^ (53 - d).
Proof.
  intros d Hd Hj Hmx.
  pose proof (digits2_bounds a) as [Hal Hau]. fold d in Hal, Hau.
  assert (Hpj : 0 < 2 ^ j) by (apply Z.pow_pos_nonneg; lia).
  assert (Hdmx : Z.pos (digits2_pos mx) = d + j).
  { apply digits2_unique. rewrite Hmx.
    replace (d + j - 1) with (d - 1 + j) by lia.
    rewrite !Z.pow_add_r by lia. nia. }
  unfold binary_round. rewrite Hdmx.
  replace (d + j + - j) with d by lia. rewrite fexp64_normal by lia.
  unfold shl_align.
  destruct (d - 53 - - j) as [|t|t] eqn:Et.
  - (* already canonical *)
    destruct (round_aux_exact mx (- j)) as (M & HM & HMv); try lia.
    { replace (Z.pos (digits2_pos mx) - 53) with 0 by lia. apply Z.mod_1_r. }
    replace (Z.pos (digits2_pos mx) - 53) with 0 in HM, HMv by lia.
    rewrite Z.pow_0_r, Z.div_1_r in HMv.
    exists M. replace (d - 53) with (- j + 0) by lia. split; [done|].
    rewrite HMv, Hmx. f_equal. f_equal. lia.
  - (* too many digits: the low [t] bits are zero *)
    assert (Ht : Z.pos mx = Z.pos a * 2 ^ (53 - d) * 2 ^ Z.pos t).
    { rewrite Hmx, <- Z.mul_assoc, <- Z.pow_add_r by lia. f_equal. f_equal. lia. }
    destruct (round_aux_exact mx (- j)) as (M & HM & HMv); try lia.
    { replace (Z.pos (digits2_pos mx) - 53) with (Z.pos t) by lia.
      rewrite Ht. apply Z.mod_mul. lia. }
    replace (Z.pos (digits2_pos mx) - 53) with (Z.pos t) in HM, HMv by lia.
    exists M. replace (d - 53) with (- j + Z.pos t) by lia. split; [done|].
    rewrite HMv, Ht. apply Z.div_mul. lia.
  - (* too few digits: shift left first *)
    assert (Hmz : Z.pos (Pos.iter xO mx t) = Z.pos a * 2 ^ (53 - d)).
    { rewrite Pos_iter_xO, Hmx, <- Z.mul_assoc, <- Z.pow_add_r by lia. f_equal. f_equal. lia. }
    assert (Hdz : Z.pos (digits2_pos (Pos.iter xO mx t)) = 53).
    { apply digits2_unique. rewrite Hmz.
      assert (0 < 2 ^ (53 - d)) by (apply Z.pow_pos_nonneg; lia).
      assert (E1 : 2 ^ (53 - 1) = 2 ^ (d - 1) * 2 ^ (53 - d))
        by (rewrite <- Z.pow_add_r by lia; f_equal; lia).
      assert (E2 : 2 ^ 53 = 2 ^ d * 2 ^ (53 - d))
        by (rewrite <- Z.pow_add_r by lia; f_equal; lia).
      rewrite E1, E2. nia. }
    destruct (round_aux_exact (Pos.iter xO mx t) (d - 53)) as (M & HM & HMv); try lia.
    { rewrite Hdz. apply Z.mod_1_r. }
    rewrite Hdz in HM, HMv. change (53 - 53) with 0 in HM, HMv.
    rewrite Z.pow_0_r, Z.div_1_r in HMv. rewrite Z.add_0_r in HM.
    exists M. split; [done|]. lia.
Qed.


Lemma canon_inj k sf1 sf2 : Num.canon k sf1 -> Num.canon k sf2 -> sf1 = sf2.
Proof.
  intros (M1 & -> & H1) (M2 & -> & H2). f_equal. apply Pos2Z.inj. congruence.
Qed.

Lemma Zdigits2_le_53 k : 0 < k < 2 ^ 53 -> 1 <= Zdigits2 k <= 53.
Proof.
  intros Hk. destruct k as [|p|p]; try lia. cbn [Zdigits2].
  pose proof (digits2_bounds p) as [Hl _]. split; [lia|].
  destruct (Z_le_gt_dec (Z.pos (digits2_pos p)) 53) as [|Hgt]; [done|].
  assert (2 ^ 53 <= 2 ^ (Z.pos (digits2_pos p) - 1)) by (apply Z.pow_le_mono_r; lia). lia.
Qed.

Lemma canon_valid k sf : 0 < k < 2 ^ 53 -> Num.canon k sf -> valid_binary sf = true.
Proof.
  intros Hk (M & -> & HM). pose proof (Zdigits2_le_53 k Hk) as Hd.
  assert (Z.pos (digits2_pos M) = 53).
  { destruct k as [|p|p]; try lia. cbn [Zdigits2] in *.
    pose proof (digits2_bounds p) as [Hl Hu]. apply digits2_unique. rewrite HM.
    set (d := Z.pos (digits2_pos p)) in *.
    assert (0 < 2 ^ (53 - d)) by (apply Z.pow_pos_nonneg; lia).
    assert (E1 : 2 ^ (53 - 1) = 2 ^ (d - 1) * 2 ^ (53 - d))
      by (rewrite <- Z.pow_add_r by lia; f_equal; lia).
    assert (E2 : 2 ^ 53 = 2 ^ d * 2 ^ (53 - d))
      by (rewrite <- Z.pow_add_r by lia; f_equal; lia).
    rewrite E1, E2. nia. }
  cbn [valid_binary]. unfold bounded, canonical_mantissa.
  rewrite H, fexp64_normal by lia. apply andb_true_iff. split.
  - apply Z.eqb_eq. lia.
  - apply Z.leb_le. unfold emax, prec. lia.
Qed.

Lemma binary_normalize_canon k :
  0 < k < 2 ^ 53 -> Num.canon k (binary_normalize prec emax k 0 false).
Proof.
  intros Hk. pose proof (Zdigits2_le_53 k Hk) as Hd.
  destruct k as [|p|p]; try lia. cbn [binary_normalize Zdigits2] in *.
  destruct (binary_round_exact p p 0) as (M & HM & HMv); try lia.
  exists M. split; [exact HM|exact HMv].
Qed.

Lemma Prim2SF_of_Z k : 0 < k < 2 ^ 53 -> Num.canon k (Prim2SF (Num.of_Z k)).
Proof.
  intros Hk. unfold Num.of_Z.
  rewrite Prim2SF_SF2Prim; [by apply binary_normalize_canon|].
  eapply canon_valid; [exact Hk|by apply binary_normalize_canon].
Qed.

(** Subtracting one from the Number of a positive integer is exact. *)
Lemma of_Z_pred k : 0 < k < 2 ^ 53 -> (Num.of_Z k - 1)%float = Num.of_Z (k - 1).
Proof.
  intros Hk. apply Prim2SF_inj. rewrite sub_spec.
  destruct (Prim2SF_of_Z k Hk) as (M & -> & HM).
  pose proof (Zdigits2_le_53 k Hk) as Hd.
  change (Prim2SF 1) with (S754_finite false (2 ^ 52)%positive (-52)).
  unfold SF64sub, SFsub. rewrite Z.min_r by lia.
  cbn [cond_Zopp].
  assert (HA : Z.pos (fst (shl_align M (Zdigits2 k - 53) (-52))) = k * 2 ^ 52).
  { unfold shl_align. destruct (-52 - (Zdigits2 k - 53)) as [|t|t] eqn:Et; cbn [fst]; try lia.
    - rewrite HM. f_equal. f_equal. lia.
    - rewrite Pos_iter_xO, HM, <- Z.mul_assoc, <- Z.pow_add_r by lia. f_equal. f_equal. lia. }
  rewrite HA. change (Z.pos (fst (shl_align (2 ^ 52) (-52) (-52)))) with (2 ^ 52).
  destruct (Z.eq_dec k 1) as [->|Hk1]; [reflexivity|].
  replace (k * 2 ^ 52 - 2 ^ 52) with ((k - 1) * 2 ^ 52) by lia.
  assert (Hk' : 0 < k - 1 < 2 ^ 53) by lia.
  pose proof (Zdigits2_le_53 _ Hk') as Hd'.
  eapply (canon_inj (k - 1)); [|by apply Prim2SF_of_Z].
  destruct (k - 1) as [|p|p] eqn:Ep; try lia.
  destruct ((Z.pos p * 2 ^ 52)) as [|mx|mx] eqn:Emx; try lia.
  cbn [binary_normalize Zdigits2] in *.
  destruct (binary_round_exact mx p 52) as (M' & HM' & HMv'); try lia.
  exists M'. split; [exact HM'|exact HMv'].
Qed.

Lemma to_index_of_Z k : 0 <= k < 2 ^ 53 -> Num.to_index (Num.of_Z k) = Some (Z.to_nat k).
Proof.
  intros Hk. destruct (Z.eq_dec k 0) as [->|Hk0]; [reflexivity|].
  unfold Num.to_index. destruct (Prim2SF_of_Z k ltac:(lia)) as (M & -> & HM).
  pose proof (Zdigits2_le_53 k ltac:(lia)) as Hd.
  destruct (Z.leb_spec 0 (Zdigits2 k - 53)).
  - rewrite HM. replace (53 - Zdigits2 k) with 0 by lia.
    replace (Zdigits2 k - 53) with 0 by lia. do 2 f_equal. lia.
  - replace (- (Zdigits2 k - 53)) with (53 - Zdigits2 k) by lia.
    assert (0 < 2 ^ (53 - Zdigits2 k)) by (apply Z.pow_pos_nonneg; lia).
    rewrite HM, Z.mod_mul, Z.div_mul by lia. reflexivity.
Qed.

Lemma is_nan_finite x s m e : Prim2SF x = S754_finite s m e -> is_nan x = false.
Proof.
  intros H. unfold is_nan. rewrite FloatAxioms.eqb_spec, H. unfold SFeqb, SFcompare.
  rewrite Z.compare_refl, Pos.compare_cont_refl. by destruct s.
Qed.

Lemma Math_max_0_of_Z k : 0 <= k < 2 ^ 53 -> Num.Math_max 0 (Num.of_Z k) = Num.of_Z k.
Proof.
  intros Hk. destruct (Z.eq_dec k 0) as [->|Hk0]; [reflexivity|].
  destruct (Prim2SF_of_Z k ltac:(lia)) as (M & HM & _).
  unfold Num.Math_max. rewrite (is_nan_finite _ _ _ _ HM).
  change (is_nan 0) with false. cbn [orb].
  rewrite FloatAxioms.ltb_spec, HM. reflexivity.
Qed.

Lemma ceil_div_unique a b k : 0 < b -> (k - 1) * b < a <= k * b -> Num.ceil_div a b = k.
Proof.
  intros Hb [Hl Hu]. unfold Num.ceil_div.
  assert (- a / b = - k); [|lia].
  symmetry. apply Z.div_unique with (r := k * b - a); lia.
Qed.

(** The rank computed in binary64 is the exact nearest rank: the product
    [0.95 * n] is rounded, yet its ceiling is that of [95 n / 100]. *)
Lemma ceil_rank n :
  1 <= n < 2 ^ 32 ->
  Num.Math_ceil ((95 / 100) * Num.of_Z n)%float = Num.of_Z (Num.ceil_div (95 * n) 100).
Proof.
  intros Hn. unfold Num.Math_ceil. rewrite mul_spec.
  change (Prim2SF (95 / 100)) with (S754_finite false 8556839292003942 (-53)).
  destruct (Prim2SF_of_Z n ltac:(lia)) as (N & -> & HN).
  assert (Hdn : 1 <= Zdigits2 n <= 32).
  { destruct n as [|p|p]; try lia. cbn [Zdigits2].
    pose proof (digits2_bounds p) as [Hl _]. split; [lia|].
    destruct (Z_le_gt_dec (Z.pos (digits2_pos p)) 32) as [|Hgt]; [done|].
    assert (2 ^ 32 <= 2 ^ (Z.pos (digits2_pos p) - 1)) by (apply Z.pow_le_mono_r; lia). lia. }
  set (dn := Zdigits2 n) in *.
  set (A := 2 ^ (53 - dn)) in *.
  assert (HA : 2 ^ 21 <= A) by (apply Z.pow_le_mono_r; lia).
  assert (HNd : Z.pos (digits2_pos N) = 53).
  { assert (Hv : valid_binary (S754_finite false N (dn - 53)) = true).
    { eapply (canon_valid n); [lia|]. exists N. done. }
    cbn [valid_binary] in Hv. unfold bounded, canonical_mantissa in Hv.
    apply andb_true_iff in Hv as [Hv _]. apply Z.eqb_eq in Hv.
    unfold fexp, SpecFloat.emin, prec, emax in Hv. lia. }
  pose proof (digits2_bounds N) as [HNl HNu]. rewrite HNd in HNl, HNu.
  unfold SF64mul, SFmul. cbn [xorb].
  set (P := (8556839292003942 * N)%positive).
  assert (HP : Z.pos P = 8556839292003942 * n * A) by (unfold P; lia).
  assert (Hdp : 105 <= Z.pos (digits2_pos P) <= 106).
  { pose proof (digits2_bounds P) as [Hl Hu].
    assert (2 ^ 104 <= Z.pos P < 2 ^ 106).
    { unfold P. rewrite Pos2Z.inj_mul. change (2 ^ 104) with (2 ^ 52 * 2 ^ 52).
      change (2 ^ 106) with (2 ^ 53 * 2 ^ 53). change (2 ^ (53 - 1)) with (2 ^ 52) in HNl. nia. }
    split.
    - destruct (Z_le_gt_dec 105 (Z.pos (digits2_pos P))) as [|Hgt]; [done|].
      assert (2 ^ Z.pos (digits2_pos P) <= 2 ^ 104) by (apply Z.pow_le_mono_r; lia). lia.
    - destruct (Z_le_gt_dec (Z.pos (digits2_pos P)) 106) as [|Hgt]; [done|].
      assert (2 ^ 106 <= 2 ^ (Z.pos (digits2_pos P) - 1)) by (apply Z.pow_le_mono_r; lia). lia. }
  destruct (round_aux_spec P (-53 + (dn - 53))) as (M & e' & M0 & -> & _ & HM0 & Hex & He' & HM);
    try lia.
  set (s := Z.pos (digits2_pos P) - 53) in *.
  set (e0 := -53 + (dn - 53) + s) in *.
  destruct (Z.leb_spec 0 e') as [|_]; [lia|].
  unfold Num.integral.
  set (K := Num.ceil_div (95 * n) 100).
  assert (HK : 100 * (K - 1) < 95 * n <= 100 * K).
  { unfold K, Num.ceil_div.
    pose proof (Z.div_mod (- (95 * n)) 100 ltac:(lia)).
    pose proof (Z.mod_pos_bound (- (95 * n)) 100 ltac:(lia)). lia. }
  (* the scale [2 ^ T] of the rounded mantissa [M0] *)
  set (T := - e0).
  assert (HT : 0 <= T) by lia.
  assert (Hs : 0 < 2 ^ s) by (apply Z.pow_pos_nonneg; lia).
  assert (HTp : 0 < 2 ^ T) by (apply Z.pow_pos_nonneg; lia).
  assert (HTs : 2 ^ T * 2 ^ s = 2 ^ 53 * A).
  { unfold A. rewrite <- !Z.pow_add_r by lia. f_equal. lia. }
  assert (Hs53 : 2 ^ s <= 2 ^ 53) by (apply Z.pow_le_mono_r; lia).
  pose proof (Z.div_mod (Z.pos P) (2 ^ s) ltac:(lia)) as Hdm.
  pose proof (Z.mod_pos_bound (Z.pos P) (2 ^ s) Hs) as Hr.
  set (q := Z.pos P / 2 ^ s) in *. set (r := Z.pos P mod 2 ^ s) in *.
  assert (Hup : M0 <= K * 2 ^ T).
  { assert (Z.pos P <= K * 2 ^ T * 2 ^ s).
    { rewrite <- Z.mul_assoc, HTs, HP. change (2 ^ 53) with 9007199254740992. nia. }
    destruct (Z.eq_dec r 0) as [Hr0|Hr0]; [rewrite (Hex Hr0)|]; nia. }
  assert (Hlow : (K - 1) * 2 ^ T < M0).
  { assert (((K - 1) * 2 ^ T + 1) * 2 ^ s <= Z.pos P); [|nia].
    rewrite Z.mul_add_distr_r, <- Z.mul_assoc, HTs, HP.
    change (2 ^ 53) with 9007199254740992 in *. change (2 ^ 21) with 2097152 in HA.
    change (2 ^ 32) with 4294967296 in Hn. nia. }
  assert (HKc : Num.ceil_div (Z.pos M) (2 ^ (- e')) = K).
  { apply ceil_div_unique; [apply Z.pow_pos_nonneg; lia|].
    destruct (Z.eq_dec e' e0) as [->|Hne].
    - fold T. rewrite Z.sub_diag, Z.pow_0_r in HM. lia.
    - replace (e' - e0) with 1 in HM by lia. change (2 ^ 1) with 2 in HM.
      assert (E : 2 ^ T = 2 * 2 ^ (- e')).
      { replace T with (1 + - e') by lia. rewrite Z.pow_add_r by lia. reflexivity. }
      lia. }
  cbn [Num.signed]. rewrite HKc.
  destruct (Z.eqb_spec K 0); [lia|reflexivity].
Qed.

End Binary64.

(** ** The aggregates of scripts/monitor.cjs *)

Section Aggregates.

Lemma ceil_div_rank_bounds n :
  1 <= n -> 1 <= Num.ceil_div (95 * n) 100 <= n.
Proof.
  intros Hn. unfold Num.ceil_div.
  pose proof (Z.div_mod (- (95 * n)) 100 ltac:(lia)).
  pose proof (Z.mod_pos_bound (- (95 * n)) 100 ltac:(lia)). lia.
Qed.

(** The index [percentile] reads for [p = 95], on an array of JavaScript
    size: the binary64 computation [Math.max(0, Math.ceil((95 / 100) *
    length) - 1)] denotes the exact nearest rank. *)
Lemma percentile_95_index (sortedArr : list float) :
  sortedArr <> [] ->
  Z.of_nat (length sortedArr) < 2 ^ 32 ->
  percentile sortedArr 95
  = sortedArr !! Z.to_nat (Num.ceil_div (95 * Z.of_nat (length sortedArr)) 100 - 1).
Proof.
  intros Hne Hlen. unfold percentile.
  rewrite bool_decide_false by (destruct sortedArr; [done|simpl; lia]).
  unfold Num.length. set (n := Z.of_nat (length sortedArr)) in *.
  assert (Hn : 1 <= n) by (destruct sortedArr; [done|subst n; simpl; lia]).
  pose proof (ceil_div_rank_bounds n Hn) as HK.
  rewrite ceil_rank by lia.
  rewrite of_Z_pred by (change (2 ^ 53) with 9007199254740992; change (2 ^ 32) with 4294967296 in Hlen; lia).
  rewrite Math_max_0_of_Z by (change (2 ^ 53) with 9007199254740992; change (2 ^ 32) with 4294967296 in Hlen; lia).
  unfold Num.get.
  rewrite to_index_of_Z by (change (2 ^ 53) with 9007199254740992; change (2 ^ 32) with 4294967296 in Hlen; lia).
  reflexivity.
Qed.

End Aggregates.

(** C1. [percentile], applied to a non-empty array (sorted by its caller, of
    at most [2 ^ 32 - 1] elements as every JavaScript array) and [p = 95],
    returns the element at index [ceil (0.95 * count) - 1], clamped to be at
    least 0, and that index names an element; for [[10; 20; 30; 40; 100]] it
    returns 100 and for [[1; 2; 3; 4]] it returns 4. *)
Theorem percentile_nearest_rank :
  (forall sortedArr : list float,
      sortedArr <> [] ->
      Z.of_nat (length sortedArr) < 2 ^ 32 ->
      let index := Z.max 0 (Num.ceil_div (95 * Z.of_nat (length sortedArr)) 100 - 1) in
      percentile sortedArr 95 = sortedArr !! Z.to_nat index
      /\ is_Some (sortedArr !! Z.to_nat index))
  /\ percentile [10; 20; 30; 40; 100]%float 95 = Some 100%float
  /\ percentile [1; 2; 3; 4]%float 95 = Some 4%float.
Proof.
  split; [|split; vm_compute; reflexivity].
  intros sortedArr Hne Hlen index.
  assert (Hn : 1 <= Z.of_nat (length sortedArr)) by (destruct sortedArr; [done|simpl; lia]).
  pose proof (ceil_div_rank_bounds _ Hn) as HK.
  assert (Hi : index = Num.ceil_div (95 * Z.of_nat (length sortedArr)) 100 - 1)
    by (unfold index; lia).
  rewrite Hi. split.
  - by apply percentile_95_index.
  - apply lookup_lt_is_Some. lia.
Qed.

Lemma percentile_nearest_rank_witness :
  percentile [10; 20; 30; 40; 100]%float 95
  = [10; 20; 30; 40; 100]%float !! Z.to_nat (Z.max 0 (Num.ceil_div (95 * 5) 100 - 1)).
Proof.
  refine (proj1 (proj1 percentile_nearest_rank [10; 20; 30; 40; 100]%float _ _)).
  - discriminate.
  - vm_compute. reflexivity.
Defined.

(** C10. On an empty sample list both aggregates are total and return 0:
    [average []] is 0 and [percentile [] p] is 0 for every [p]. *)
Theorem aggregates_of_empty :
  average [] = 0%float /\ forall p : float, percentile [] p = Some 0%float.
Proof. split; [reflexivity|intros p; reflexivity]. Qed.

(** ** k6/upload.js: what [createUniqueFileData] writes *)

Section UploadFacts.
Import Upload.

Lemma writeFrom_length i vs b : length (writeFrom i vs b) = length b.
Proof.
  revert i b. induction vs as [|v vs IH]; intros i b; cbn [writeFrom]; [done|].
  by rewrite IH, length_insert.
Qed.

(** Reading back: inside the window and the buffer the assigned value,
    reduced to eight bits; anywhere else the byte that was there. *)
Lemma writeFrom_lookup i vs b j :
  writeFrom i vs b !! j
  = if decide (i <= j < i + length vs /\ j < length b)%nat
    then (fun v => v mod 256) <$> vs !! (j - i)%nat
    else b !! j.
Proof.
  revert i b. induction vs as [|v vs IH]; intros i b; cbn [writeFrom].
  - case_decide; [simpl in *; lia|done].
  - rewrite IH, length_insert. cbn [length].
    destruct (decide (j = i)) as [->|Hne].
    + rewrite decide_False by lia.
      destruct (decide (i < length b)%nat).
      * rewrite list_lookup_insert_eq by done. rewrite decide_True by lia.
        by rewrite Nat.sub_diag.
      * rewrite list_insert_ge by lia. by rewrite decide_False by lia.
    + rewrite list_lookup_insert_ne by done.
      repeat case_decide; try lia; try done.
      replace (j - i)%nat with (S (j - S i)) by lia. done.
Qed.

Lemma writeFrom_outside i vs b j :
  (j < i \/ i + length vs <= j)%nat -> writeFrom i vs b !! j = b !! j.
Proof. intros H. rewrite writeFrom_lookup. by rewrite decide_False by lia. Qed.

Lemma uniqueBytes_length base now vu iter :
  length (uniqueBytes base now vu iter) = length base.
Proof. apply writeFrom_length. Qed.

Lemma uniqueBytes_outside base now vu iter j :
  (j < 100 \/ 116 <= j)%nat -> uniqueBytes base now vu iter !! j = base !! j.
Proof. intros H. apply writeFrom_outside. simpl. lia. Qed.

Lemma uniqueBytes_inside base now vu iter j :
  (j < 16)%nat -> (100 + j < length base)%nat ->
  uniqueBytes base now vu iter !! (100 + j)%nat
  = (fun v => v mod 256) <$> stampValues now vu iter !! j.
Proof.
  intros Hj Hlen. unfold uniqueBytes. rewrite writeFrom_lookup.
  rewrite decide_True by (simpl; lia). by replace (100 + j - 100)%nat with j by lia.
Qed.

(** An output is the base again exactly when the base already carries the
    stamp in its window. *)
Lemma uniqueBytes_fixpoint base now vu iter :
  (116 <= length base)%nat ->
  uniqueBytes base now vu iter = base
  <-> forall j v, stampValues now vu iter !! j = Some v ->
                  base !! (100 + j)%nat = Some (v mod 256).
Proof.
  intros Hlen. split.
  - intros Heq j v Hv.
    assert (Hj : (j < 16)%nat) by (apply lookup_lt_Some in Hv; simpl in Hv; lia).
    rewrite <- Heq at 1. rewrite uniqueBytes_inside by lia. by rewrite Hv.
  - intros Hall. apply list_eq. intros j.
    destruct (decide (j < 100 \/ 116 <= j)%nat) as [Hout|Hin].
    + by apply uniqueBytes_outside.
    + replace j with (100 + (j - 100))%nat by lia.
      rewrite uniqueBytes_inside by lia.
      destruct (stampValues now vu iter !! (j - 100)%nat) as [v|] eqn:Hv.
      * by rewrite (Hall _ _ Hv).
      * apply lookup_ge_None in Hv. simpl in Hv. lia.
Qed.

Lemma M_bind_run {A B} (m : M A) (k : A -> M B) (h h' : Heap) a :
  m h = Normal (a, h') -> (m ≫= k) h = k a h'.
Proof. intros H. unfold mbind, M_bind. by rewrite H. Qed.

Lemma set_run (h : Heap) target source src n :
  target <> source -> h !! source = Some src -> length src = n ->
  set target source (<[target := replicate n 0]> h) = Normal ((), <[target := src]> h).
Proof.
  intros Hne Hsrc Hn. unfold set.
  rewrite lookup_total_insert_ne, lookup_total_insert_eq by done.
  rewrite (lookup_total_correct _ _ _ Hsrc).
  rewrite bool_decide_true by (rewrite length_replicate; lia).
  rewrite drop_ge, app_nil_r by (rewrite length_replicate; lia).
  by rewrite insert_insert_eq.
Qed.

Lemma store_run (h : Heap) arr b i v :
  store arr i v (<[arr := b]> h) = Normal ((), <[arr := <[i := v mod 256]> b]> h).
Proof. unfold store. by rewrite lookup_total_insert_eq, insert_insert_eq. Qed.

(** Running [createUniqueFileData] on a store that holds the base file:
    it does not throw, allocates one buffer, fills it with [uniqueBytes] of
    the base, and changes no other buffer. *)
Lemma createUniqueFileData_run (h : Heap) baseFileData base now vu iter :
  h !! baseFileData = Some base ->
  createUniqueFileData baseFileData now vu iter h
  = Normal (fresh (dom h), <[fresh (dom h) := uniqueBytes base now vu iter]> h).
Proof.
  intros Hbase. set (u := fresh (dom h)).
  assert (Hu : u <> baseFileData).
  { intros Heq. apply (is_fresh (dom h)). fold u. rewrite Heq. apply elem_of_dom. eauto. }
  unfold createUniqueFileData.
  rewrite (M_bind_run (view baseFileData) _ h h baseFileData eq_refl).
  rewrite (M_bind_run (byteLength baseFileData) _ h h (length base))
    by (unfold byteLength; by rewrite (lookup_total_correct _ _ _ Hbase)).
  rewrite (M_bind_run (alloc (length base)) _ h (<[u := replicate (length base) 0]> h) u eq_refl).
  rewrite (M_bind_run _ _ _ _ _ (set_run h u baseFileData base _ Hu Hbase eq_refl)).
  do 16 (erewrite M_bind_run by apply store_run).
  reflexivity.
Qed.

Lemma createUniqueFileData_result (h : Heap) baseFileData base now vu iter :
  h !! baseFileData = Some base ->
  exists u h',
    createUniqueFileData baseFileData now vu iter h = Normal (u, h')
    /\ u <> baseFileData
    /\ h' !! u = Some (uniqueBytes base now vu iter)
    /\ forall a, a <> u -> h' !! a = h !! a.
Proof.
  intros Hbase. exists (fresh (dom h)), (<[fresh (dom h) := uniqueBytes base now vu iter]> h).
  split; [by apply createUniqueFileData_run|]. split.
  - intros Heq. apply (is_fresh (dom h)). rewrite Heq. apply elem_of_dom. eauto.
  - split; [apply lookup_insert_eq|]. intros a Ha. by apply lookup_insert_ne.
Qed.

(** The shift count of [>>] is taken modulo 32: the four high bytes written
    for the clock are its four low bytes again. *)
Lemma sar_count_wraps x : sar x 56 = sar x 24 /\ sar x 48 = sar x 16
                          /\ sar x 40 = sar x 8 /\ sar x 32 = ToInt32 x.
Proof. unfold sar. repeat split. Qed.

Lemma ToInt32_mod256 y : ToInt32 y mod 256 = y mod 256.
Proof.
  unfold ToInt32. change (2 ^ 31) with 2147483648. change (2 ^ 32) with 4294967296.
  Z.to_euclidean_division_equations. lia.
Qed.

Lemma band_255 y : band y 255 = y mod 256.
Proof.
  unfold band. change (ToInt32 255) with (Z.ones 8).
  rewrite Z.land_ones by lia. apply ToInt32_mod256.
Qed.

Lemma sar_byte x k :
  k = 8 \/ k = 16 \/ k = 24 ->
  sar x k mod 256 = Z.shiftr x k mod 256.
Proof.
  intros Hk. unfold sar, ToInt32.
  change (2 ^ 31) with 2147483648. change (2 ^ 32) with 4294967296.
  destruct Hk as [-> | [-> | ->]].
  - change (8 mod 32) with 8. rewrite !Z.shiftr_div_pow2 by lia.
    change (2 ^ 8) with 256. Z.to_euclidean_division_equations. lia.
  - change (16 mod 32) with 16. rewrite !Z.shiftr_div_pow2 by lia.
    change (2 ^ 16) with 65536. Z.to_euclidean_division_equations. lia.
  - change (24 mod 32) with 24. rewrite !Z.shiftr_div_pow2 by lia.
    change (2 ^ 24) with 16777216. Z.to_euclidean_division_equations. lia.
Qed.

(** The window as written: the low 32 bits of the worker id, of the
    iteration and, twice, of the clock, each big-endian. *)
Lemma stampValues_words now vu iter :
  (fun v => v mod 256) <$> stampValues now vu iter
  = bigEndian 4 vu ++ bigEndian 4 iter ++ bigEndian 4 now ++ bigEndian 4 now.
Proof.
  destruct (sar_count_wraps now) as (E1 & E2 & E3 & E4).
  unfold stampValues. rewrite E1, E2, E3, E4.
  cbn [fmap list_fmap bigEndian app]. rewrite !band_255, !Z.mod_mod by lia.
  rewrite !sar_byte by tauto. rewrite ToInt32_mod256.
  change (8 * Z.of_nat 3) with 24. change (8 * Z.of_nat 2) with 16.
  change (8 * Z.of_nat 1) with 8. change (8 * Z.of_nat 0) with 0.
  rewrite !Z.shiftr_0_r. reflexivity.
Qed.

Lemma uniqueBytes_window base now vu iter :
  (116 <= length base)%nat ->
  take 16 (drop 100 (uniqueBytes base now vu iter))
  = (fun v => v mod 256) <$> stampValues now vu iter.
Proof.
  intros Hlen. apply list_eq. intros j.
  destruct (decide (j < 16)%nat) as [Hj|Hj].
  - rewrite lookup_take_lt, lookup_drop by done.
    rewrite uniqueBytes_inside by lia. by rewrite list_lookup_fmap.
  - rewrite lookup_take_ge by lia. symmetry. apply lookup_ge_None.
    rewrite length_fmap. simpl. lia.
Qed.

End UploadFacts.

(** C4 (as amended). For a base buffer of 5,242,880 bytes and any clock
    value, the outputs for (worker 1, iteration 1) and (worker 1, iteration
    2) both have 5,242,880 bytes and differ from each other at offset 107;
    an output equals the base exactly when the base already carries that
    stamp at offsets 100 to 115, so at most one of the two can. *)
Theorem unique_payloads_differ (h : Upload.Heap) (baseFileData : nat) (base : list Z) (now : Z) :
  h !! baseFileData = Some base ->
  Z.of_nat (length base) = Upload.fileSizeBytes ->
  exists u1 h1 b1 u2 h2 b2,
    Upload.createUniqueFileData baseFileData now 1 1 h = Normal (u1, h1)
    /\ h1 !! u1 = Some b1
    /\ Upload.createUniqueFileData baseFileData now 1 2 h = Normal (u2, h2)
    /\ h2 !! u2 = Some b2
    /\ Z.of_nat (length b1) = Upload.fileSizeBytes
    /\ Z.of_nat (length b2) = Upload.fileSizeBytes
    /\ b1 !! 107%nat = Some 1 /\ b2 !! 107%nat = Some 2
    /\ b1 <> b2
    /\ ~ (b1 = base /\ b2 = base)
    /\ (b1 = base <-> forall j v, Upload.stampValues now 1 1 !! j = Some v ->
                                  base !! (100 + j)%nat = Some (v mod 256))
    /\ (b2 = base <-> forall j v, Upload.stampValues now 1 2 !! j = Some v ->
                                  base !! (100 + j)%nat = Some (v mod 256)).
Proof.
  intros Hbase Hlen. unfold Upload.fileSizeBytes in *.
  destruct (createUniqueFileData_result h baseFileData base now 1 1 Hbase)
    as (u1 & h1 & Hrun1 & _ & Hb1 & _).
  destruct (createUniqueFileData_result h baseFileData base now 1 2 Hbase)
    as (u2 & h2 & Hrun2 & _ & Hb2 & _).
  exists u1, h1, (Upload.uniqueBytes base now 1 1), u2, h2, (Upload.uniqueBytes base now 1 2).
  assert (H1 : Upload.uniqueBytes base now 1 1 !! 107%nat = Some 1).
  { change 107%nat with (100 + 7)%nat. rewrite uniqueBytes_inside by lia. reflexivity. }
  assert (H2 : Upload.uniqueBytes base now 1 2 !! 107%nat = Some 2).
  { change 107%nat with (100 + 7)%nat. rewrite uniqueBytes_inside by lia. reflexivity. }
  assert (Hne : Upload.uniqueBytes base now 1 1 <> Upload.uniqueBytes base now 1 2).
  { intros Heq. rewrite Heq in H1. congruence. }
  rewrite !uniqueBytes_length.
  repeat split; try done; try (apply uniqueBytes_fixpoint; lia).
  intros [E1 E2]. congruence.
Qed.

Lemma unique_payloads_differ_witness :
  exists u1 h1 b1 u2 h2 b2,
    Upload.createUniqueFileData 0 0 1 1 {[ 0%nat := replicate (N.to_nat 5242880) 0 ]} = Normal (u1, h1)
    /\ h1 !! u1 = Some b1
    /\ Upload.createUniqueFileData 0 0 1 2 {[ 0%nat := replicate (N.to_nat 5242880) 0 ]} = Normal (u2, h2)
    /\ h2 !! u2 = Some b2
    /\ Z.of_nat (length b1) = Upload.fileSizeBytes
    /\ Z.of_nat (length b2) = Upload.fileSizeBytes
    /\ b1 !! 107%nat = Some 1 /\ b2 !! 107%nat = Some 2
    /\ b1 <> b2
    /\ ~ (b1 = replicate (N.to_nat 5242880) 0 /\ b2 = replicate (N.to_nat 5242880) 0)
    /\ (b1 = replicate (N.to_nat 5242880) 0
        <-> forall j v, Upload.stampValues 0 1 1 !! j = Some v ->
                        replicate (N.to_nat 5242880) 0 !! (100 + j)%nat = Some (v mod 256))
    /\ (b2 = replicate (N.to_nat 5242880) 0
        <-> forall j v, Upload.stampValues 0 1 2 !! j = Some v ->
                        replicate (N.to_nat 5242880) 0 !! (100 + j)%nat = Some (v mod 256)).
Proof.
  apply (unique_payloads_differ {[ 0%nat := replicate (N.to_nat 5242880) 0 ]} 0
           (replicate (N.to_nat 5242880) 0) 0).
  - apply lookup_singleton_eq.
  - rewrite length_replicate. unfold Upload.fileSizeBytes. lia.
Defined.

(** C4, the claim as stated fails: on a base of 5,242,880 bytes that already
    carries the stamp, the output for (1, 1) is the base again. *)
Lemma stamped_base_is_reproduced :
  Z.of_nat (length Upload.stampedBase) = Upload.fileSizeBytes
  /\ exists u h',
       Upload.createUniqueFileData 0 0 1 1 {[ 0%nat := Upload.stampedBase ]} = Normal (u, h')
       /\ h' !! u = Some Upload.stampedBase.
Proof.
  assert (Hlen : Z.of_nat (length Upload.stampedBase) = Upload.fileSizeBytes).
  { unfold Upload.stampedBase, Upload.fileSizeBytes.
    rewrite !length_app, !length_replicate. cbn [length]. lia. }
  split; [exact Hlen|].
  destruct (createUniqueFileData_result {[ 0%nat := Upload.stampedBase ]} 0
              Upload.stampedBase 0 1 1 (lookup_singleton_eq _ _))
    as (u & h' & Hrun & _ & Hb & _).
  exists u, h'. split; [exact Hrun|]. rewrite Hb.
  cut (Upload.uniqueBytes Upload.stampedBase 0 1 1 = Upload.stampedBase);
    [by intros ->|].
  apply uniqueBytes_fixpoint; [unfold Upload.fileSizeBytes in Hlen; lia|].
  intros j v Hv. unfold Upload.stampedBase.
  rewrite lookup_app_r by (rewrite length_replicate; lia).
  rewrite length_replicate. replace (100 + j - 100)%nat with j by lia.
  assert (Hj : (j < 16)%nat) by (apply lookup_lt_Some in Hv; simpl in Hv; lia).
  rewrite lookup_app_l by (simpl; lia).
  do 16 (destruct j as [|j]; [injection Hv as <-; reflexivity|]).
  lia.
Qed.

(** C5, the clock part fails on the code. The window written is the low 32
    bits of the worker id, of the iteration and, twice, of the clock, each
    big-endian: the eight bytes of the clock are its low word repeated (the
    shift count of [>>] is taken modulo 32), not its big-endian encoding. At
    the clock 1700000000000 the window ends in CF E5 68 00 CF E5 68 00,
    while the big-endian encoding ends in 00 00 01 8B CF E5 68 00. *)
Theorem clock_stamp_repeats_low_word :
  (forall (h : Upload.Heap) (baseFileData : nat) (base : list Z) (now vu iter : Z),
      h !! baseFileData = Some base ->
      (116 <= length base)%nat ->
      exists u h' b,
        Upload.createUniqueFileData baseFileData now vu iter h = Normal (u, h')
        /\ h' !! u = Some b
        /\ take 16 (drop 100 b)
           = Upload.bigEndian 4 vu ++ Upload.bigEndian 4 iter
             ++ Upload.bigEndian 4 now ++ Upload.bigEndian 4 now)
  /\ (exists u h' b,
        Upload.createUniqueFileData 0 1700000000000 1 1 {[ 0%nat := replicate 116 0 ]}
        = Normal (u, h')
        /\ h' !! u = Some b
        /\ drop 100 b = [0; 0; 0; 1; 0; 0; 0; 1; 207; 229; 104; 0; 207; 229; 104; 0])
  /\ Upload.bigEndianStamp 1700000000000 1 1
     = [0; 0; 0; 1; 0; 0; 0; 1; 0; 0; 1; 139; 207; 229; 104; 0].
Proof.
  split; [|split].
  - intros h baseFileData base now vu iter Hbase Hlen.
    destruct (createUniqueFileData_result h baseFileData base now vu iter Hbase)
      as (u & h' & Hrun & _ & Hb & _).
    exists u, h', (Upload.uniqueBytes base now vu iter).
    split; [exact Hrun|]. split; [exact Hb|].
    rewrite uniqueBytes_window by done. apply stampValues_words.
  - destruct (createUniqueFileData_result {[ 0%nat := replicate 116 0 ]} 0
                (replicate 116 0) 1700000000000 1 1 (lookup_singleton_eq _ _))
      as (u & h' & Hrun & _ & Hb & _).
    exists u, h', (Upload.uniqueBytes (replicate 116 0) 1700000000000 1 1).
    split; [exact Hrun|]. split; [exact Hb|]. vm_compute. reflexivity.
  - vm_compute. reflexivity.
Qed.

Lemma clock_stamp_repeats_low_word_witness :
  exists u h' b,
    Upload.createUniqueFileData 0 1700000000000 1 1 {[ 0%nat := replicate 116 0 ]}
    = Normal (u, h')
    /\ h' !! u = Some b
    /\ take 16 (drop 100 b)
       = Upload.bigEndian 4 1 ++ Upload.bigEndian 4 1
         ++ Upload.bigEndian 4 1700000000000 ++ Upload.bigEndian 4 1700000000000.
Proof.
  apply (proj1 clock_stamp_repeats_low_word {[ 0%nat := replicate 116 0 ]} 0%nat (replicate 116 0)).
  - apply lookup_singleton_eq.
  - simpl. lia.
Defined.

(** C6 (as amended). For a base buffer shorter than 116 bytes the
    synthesizer does not fail: it returns a buffer of the same length, equal
    to the base below offset 100 and stamped from offset 100 up to the end of
    the buffer, the rest of the stamp being dropped; a base of at most 100
    bytes is returned unchanged. *)
Theorem short_base_is_stamped_in_place
    (h : Upload.Heap) (baseFileData : nat) (base : list Z) (now vu iter : Z) :
  h !! baseFileData = Some base ->
  (length base < 116)%nat ->
  exists u h' b,
    Upload.createUniqueFileData baseFileData now vu iter h = Normal (u, h')
    /\ h' !! u = Some b
    /\ length b = length base
    /\ (forall j, (j < 100)%nat -> b !! j = base !! j)
    /\ (forall j, (100 + j < length base)%nat ->
                  b !! (100 + j)%nat
                  = (fun v => v mod 256) <$> Upload.stampValues now vu iter !! j)
    /\ ((length base <= 100)%nat -> b = base).
Proof.
  intros Hbase Hshort.
  destruct (createUniqueFileData_result h baseFileData base now vu iter Hbase)
    as (u & h' & Hrun & _ & Hb & _).
  exists u, h', (Upload.uniqueBytes base now vu iter).
  split; [exact Hrun|]. split; [exact Hb|]. split; [apply uniqueBytes_length|].
  split; [|split].
  - intros j Hj. apply uniqueBytes_outside. lia.
  - intros j Hj. apply uniqueBytes_inside; lia.
  - intros Hle. apply list_eq. intros j.
    unfold Upload.uniqueBytes. rewrite writeFrom_lookup. by rewrite decide_False by lia.
Qed.

Lemma short_base_is_stamped_in_place_witness :
  exists u h' b,
    Upload.createUniqueFileData 0 0 1 1 {[ 0%nat := [1; 2; 3] ]} = Normal (u, h')
    /\ h' !! u = Some b
    /\ length b = length [1; 2; 3]
    /\ (forall j, (j < 100)%nat -> b !! j = [1; 2; 3] !! j)
    /\ (forall j, (100 + j < length [1; 2; 3])%nat ->
                  b !! (100 + j)%nat
                  = (fun v => v mod 256) <$> Upload.stampValues 0 1 1 !! j)
    /\ ((length [1; 2; 3] <= 100)%nat -> b = [1; 2; 3]).
Proof.
  apply (short_base_is_stamped_in_place {[ 0%nat := [1; 2; 3] ]} 0 [1; 2; 3] 0 1 1).
  - apply lookup_singleton_eq.
  - simpl. lia.
Defined.

(** C6, the claim as stated fails: a base of three bytes is not rejected
    with [InvalidInputSize]; the call returns a buffer, those three bytes. *)
Lemma short_base_is_not_rejected :
  Upload.createUniqueFileData 0 0 1 1 {[ 0%nat := [1; 2; 3] ]}
  <> Throw InvalidInputSize
  /\ exists u h',
       Upload.createUniqueFileData 0 0 1 1 {[ 0%nat := [1; 2; 3] ]} = Normal (u, h')
       /\ h' !! u = Some [1; 2; 3].
Proof.
  destruct (createUniqueFileData_result {[ 0%nat := [1; 2; 3] ]} 0 [1; 2; 3] 0 1 1
              (lookup_singleton_eq _ _)) as (u & h' & Hrun & _ & Hb & _).
  split; [rewrite Hrun; discriminate|]. exists u, h'. split; [exact Hrun|exact Hb].
Qed.

(** X1. The frame of [createUniqueFileData], for every base buffer: the call
    returns a new buffer of the length of the base, equal to the base
    outside offsets 100 to 115, and leaves the base buffer and every other
    buffer of the store as they were. *)
Theorem createUniqueFileData_frame
    (h : Upload.Heap) (baseFileData : nat) (base : list Z) (now vu iter : Z) :
  h !! baseFileData = Some base ->
  exists u h' b,
    Upload.createUniqueFileData baseFileData now vu iter h = Normal (u, h')
    /\ h !! u = None
    /\ h' !! u = Some b
    /\ length b = length base
    /\ (forall j, (j < 100 \/ 116 <= j)%nat -> b !! j = base !! j)
    /\ h' !! baseFileData = Some base
    /\ (forall a, a <> u -> h' !! a = h !! a).
Proof.
  intros Hbase.
  exists (fresh (dom h)), (<[fresh (dom h) := Upload.uniqueBytes base now vu iter]> h),
    (Upload.uniqueBytes base now vu iter).
  assert (Hfresh : h !! fresh (dom h) = None)
    by (apply not_elem_of_dom, is_fresh).
  split; [by apply createUniqueFileData_run|]. split; [exact Hfresh|].
  split; [apply lookup_insert_eq|]. split; [apply uniqueBytes_length|].
  split; [intros j Hj; by apply uniqueBytes_outside|]. split.
  - rewrite lookup_insert_ne; [done|]. intros Heq. rewrite Heq in Hfresh. congruence.
  - intros a Ha. by apply lookup_insert_ne.
Qed.

Lemma createUniqueFileData_frame_witness :
  exists u h' b,
    Upload.createUniqueFileData 0 0 1 1 {[ 0%nat := replicate 200 7 ]} = Normal (u, h')
    /\ ({[ 0%nat := replicate 200 7 ]} : Upload.Heap) !! u = None
    /\ h' !! u = Some b
    /\ length b = length (replicate 200 7)
    /\ (forall j, (j < 100 \/ 116 <= j)%nat -> b !! j = replicate 200 7 !! j)
    /\ h' !! 0%nat = Some (replicate 200 7)
    /\ (forall a, a <> u -> h' !! a = ({[ 0%nat := replicate 200 7 ]} : Upload.Heap) !! a).
Proof.
  apply (createUniqueFileData_frame {[ 0%nat := replicate 200 7 ]} 0 (replicate 200 7) 0 1 1).
  apply lookup_singleton_eq.
Defined.

(** ** The stage scheduler *)

Section SchedulerFacts.
Import Scheduler.


Lemma startOf_cons s rest i :
  startOf (s :: rest) (S i) = durationMs s + startOf rest i.
Proof. reflexivity. Qed.

Lemma startOf_nonneg profile i : nonnegDurations profile -> 0 <= startOf profile i.
Proof.
  intros Hnn. revert i. induction Hnn as [|s rest Hs _ IH]; intros [|i]; try (cbn; lia).
  rewrite startOf_cons. specialize (IH i). lia.
Qed.

Lemma totalDuration_nonneg profile : nonnegDurations profile -> 0 <= totalDuration profile.
Proof.
  unfold totalDuration. induction 1 as [|s rest Hs _ IH]; [cbn; lia|].
  rewrite fmap_cons. cbn [foldr]. lia.
Qed.

(** Inside the interval of stage [i], counted from [start]. *)
Lemma concurrencyFrom_inside start hold stages i s t :
  nonnegDurations stages ->
  stages !! i = Some s ->
  start + startOf stages i <= t < start + startOf stages i + durationMs s ->
  concurrencyFrom start hold stages t = targetConcurrency s.
Proof.
  intros Hnn. revert start hold i.
  induction Hnn as [|s0 rest Hs0 Hrest IH]; intros start hold i Hi Ht; [done|].
  cbn [concurrencyFrom]. destruct i as [|i].
  - injection Hi as ->. cbn in Ht.
    replace (start <=? t) with true by (symmetry; apply Z.leb_le; lia).
    replace (t <? start + durationMs s) with true by (symmetry; apply Z.ltb_lt; lia).
    reflexivity.
  - rewrite startOf_cons in Ht. pose proof (startOf_nonneg rest i Hrest).
    replace (t <? start + durationMs s0) with false by (symmetry; apply Z.ltb_ge; lia).
    rewrite andb_false_r. apply (IH _ _ i); [exact Hi|lia].
Qed.

(** At or past the end of the last stage, counted from [start]. *)
Lemma concurrencyFrom_beyond start hold stages t :
  nonnegDurations stages ->
  start + totalDuration stages <= t ->
  concurrencyFrom start hold stages t = default hold (targetConcurrency <$> last stages).
Proof.
  intros Hnn. revert start hold.
  induction Hnn as [|s0 rest Hs0 Hrest IH]; intros start hold Ht; [done|].
  cbn [concurrencyFrom]. cbn in Ht. pose proof (totalDuration_nonneg rest Hrest).
  unfold totalDuration in *.
  replace (t <? start + durationMs s0) with false by (symmetry; apply Z.ltb_ge; lia).
  rewrite andb_false_r, IH by lia.
  destruct rest as [|s1 rest']; [done|]. rewrite last_cons_cons.
  destruct (last (s1 :: rest')) eqn:E; [done|]. by apply last_None in E.
Qed.

End SchedulerFacts.

(** C3. For every load profile with non-negative durations, [concurrencyAt]
    is a step function: at every time inside the cumulative interval of a
    stage it is that stage's target, so two times inside one stage's interval
    give equal values; at or past the total duration it is the last stage's
    target, and 0 for the empty profile. *)
Theorem concurrencyAt_step_function (profile : list Stage) :
  nonnegDurations profile ->
  (forall i s t,
      profile !! i = Some s ->
      Scheduler.startOf profile i <= t < Scheduler.startOf profile i + durationMs s ->
      Scheduler.concurrencyAt profile t = targetConcurrency s)
  /\ (forall i s t1 t2,
      profile !! i = Some s ->
      Scheduler.startOf profile i <= t1 < Scheduler.startOf profile i + durationMs s ->
      Scheduler.startOf profile i <= t2 < Scheduler.startOf profile i + durationMs s ->
      Scheduler.concurrencyAt profile t1 = Scheduler.concurrencyAt profile t2)
  /\ (forall t,
      Scheduler.totalDuration profile <= t ->
      Scheduler.concurrencyAt profile t
      = match last profile with Some s => targetConcurrency s | None => 0 end).
Proof.
  intros Hnn.
  assert (Hin : forall i s t,
             profile !! i = Some s ->
             Scheduler.startOf profile i <= t < Scheduler.startOf profile i + durationMs s ->
             Scheduler.concurrencyAt profile t = targetConcurrency s).
  { intros i s t Hi Ht. apply (concurrencyFrom_inside 0 0 profile i); [done|done|lia]. }
  split; [exact Hin|]. split.
  - intros i s t1 t2 Hi H1 H2. by rewrite (Hin i s t1), (Hin i s t2).
  - intros t Ht. unfold Scheduler.concurrencyAt.
    rewrite concurrencyFrom_beyond by (done || lia). by destruct (last profile).
Qed.

Lemma concurrencyAt_step_function_witness :
  (forall i s t,
      capacityStages !! i = Some s ->
      Scheduler.startOf capacityStages i <= t < Scheduler.startOf capacityStages i + durationMs s ->
      Scheduler.concurrencyAt capacityStages t = targetConcurrency s)
  /\ (forall i s t1 t2,
      capacityStages !! i = Some s ->
      Scheduler.startOf capacityStages i <= t1 < Scheduler.startOf capacityStages i + durationMs s ->
      Scheduler.startOf capacityStages i <= t2 < Scheduler.startOf capacityStages i + durationMs s ->
      Scheduler.concurrencyAt capacityStages t1 = Scheduler.concurrencyAt capacityStages t2)
  /\ (forall t,
      Scheduler.totalDuration capacityStages <= t ->
      Scheduler.concurrencyAt capacityStages t
      = match last capacityStages with Some s => targetConcurrency s | None => 0 end).
Proof.
  apply (concurrencyAt_step_function capacityStages).
  unfold nonnegDurations, capacityStages. repeat constructor; simpl; lia.
Defined.

(** The end-to-end scenario of the spec, and the capacity profile at the
    middle of its peak stage and after its end. *)
Example concurrencyAt_scenario :
  let profile := [ {| durationMs := 1000; targetConcurrency := 1 |};
                   {| durationMs := 1000; targetConcurrency := 0 |} ] in
  Scheduler.concurrencyAt profile 500 = 1
  /\ Scheduler.concurrencyAt profile 1500 = 0
  /\ Scheduler.concurrencyAt capacityStages 700000 = 100
  /\ Scheduler.concurrencyAt capacityStages 900000 = 0
  /\ Scheduler.concurrencyAt [] 5 = 0.
Proof. repeat split. Qed.

(** ** The phase of an iteration *)

(** C7 (as amended). The code validates no weights and has no
    [InvalidWeights] error. For every weight table, whatever its sum or the
    sign of its weights, and every draw, the default function takes the
    branch of the first of startup and listening whose cumulative upper
    bound exceeds the draw, and the managing branch in every other case,
    also when no bound exceeds the draw. The startup and managing branches
    call their phase; the listening branch calls its phase when a test song
    is configured and otherwise returns early without running a phase. With
    the configured weights every draw below 1 takes the branch of the first
    phase whose cumulative upper bound exceeds it. *)
Theorem phase_selection_validates_no_weights :
  (forall (b : Behavior) (testSongId : string) (rand : float),
      match firstExceeding None (weightTable b) rand with
      | Some Startup => Capacity.default b testSongId rand = RunsStartup
      | Some Listening =>
          Capacity.default b testSongId rand
          = if String.eqb testSongId "" then SkipsListening else RunsListening testSongId
      | Some Managing | None => Capacity.default b testSongId rand = RunsManaging
      end)
  /\ (forall (testSongId : string) (rand : float),
      (rand <? 1)%float = true ->
      exists p, firstExceeding None (weightTable behavior) rand = Some p
                /\ Capacity.default behavior testSongId rand
                   = match p with
                     | Startup => RunsStartup
                     | Listening =>
                         if String.eqb testSongId "" then SkipsListening
                         else RunsListening testSongId
                     | Managing => RunsManaging
                     end).
Proof.
  split.
  - intros b testSongId rand. unfold Capacity.default. cbn [weightTable firstExceeding].
    destruct (rand <? startup b)%float; [done|].
    destruct (rand <? startup b + listening b)%float; [done|].
    by destruct (rand <? startup b + listening b + managing b)%float.
  - intros testSongId rand Hlt. unfold Capacity.default. cbn [weightTable firstExceeding].
    destruct (rand <? startup behavior)%float; [eauto|].
    destruct (rand <? startup behavior + listening behavior)%float; [eauto|].
    change (startup behavior + listening behavior + managing behavior)%float with 1%float.
    rewrite Hlt. eauto.
Qed.

Lemma phase_selection_validates_no_weights_witness :
  exists p, firstExceeding None (weightTable behavior) 0.5%float = Some p
            /\ Capacity.default behavior "" 0.5%float
               = match p with
                 | Startup => RunsStartup
                 | Listening => if String.eqb "" "" then SkipsListening else RunsListening ""
                 | Managing => RunsManaging
                 end.
Proof.
  apply (proj2 phase_selection_validates_no_weights ""%string 0.5%float).
  vm_compute. reflexivity.
Defined.

(** C7, the claim as stated fails: weights that sum to 1.5, and a table with
    a zero and a negative weight, are accepted and a branch is taken, where
    the claim has [InvalidWeights]. *)
Lemma invalid_weights_are_accepted :
  Capacity.default {| startup := 0.5; listening := 0.5; managing := 0.5 |} "song-1" 0.75%float
  = RunsListening "song-1"
  /\ Capacity.default {| startup := -1; listening := 0; managing := 2 |} "song-1" 0.25%float
     = RunsManaging.
Proof. split; vm_compute; reflexivity. Qed.

(** ** The sampler *)

Section SamplerFacts.

Lemma tick_failed startTime i samples e :
  execSync i = Throw e -> tick startTime i samples = Normal samples.
Proof. intros H. unfold tick, tickBody. rewrite H. reflexivity. Qed.

Lemma tick_never_throws startTime i samples :
  exists samples', tick startTime i samples = Normal samples'.
Proof.
  unfold tick, tickBody. destruct (execSync i) as [output|e]; cbn; [|eauto].
  case_bool_decide; cbn; eauto.
Qed.

Lemma runTicks_from startTime ticks samples :
  exists samples',
    foldl (fun acc i => samples ← acc; tick startTime i samples) (Normal samples) ticks
    = Normal samples'.
Proof.
  revert samples. induction ticks as [|i ticks IH]; intros samples; cbn [foldl]; [eauto|].
  destruct (tick_never_throws startTime i samples) as [s' Hs'].
  cbn. rewrite Hs'. apply IH.
Qed.

Lemma runTicks_all_failed startTime ticks samples :
  Forall (fun i => exists e, execSync i = Throw e) ticks ->
  foldl (fun acc i => samples ← acc; tick startTime i samples) (Normal samples) ticks
  = Normal samples.
Proof.
  induction 1 as [|i ticks [e He] _ IH]; cbn [foldl]; [done|].
  cbn. by rewrite (tick_failed _ _ _ e He).
Qed.

End SamplerFacts.

(** C8. When the stats command fails on every polling tick of a run, the
    sampler records no sample and does not throw; a single failed tick adds
    no sample and leaves the buffered samples as they were; and no run,
    whatever its ticks, throws. *)
Theorem sampler_survives_failed_ticks :
  (forall (startTime : Z) (ticks : list TickInput),
      Forall (fun i => exists e, execSync i = Throw e) ticks ->
      runTicks startTime ticks = Normal [])
  /\ (forall (startTime : Z) (i : TickInput) (samples : list Sample) (e : Exn),
      execSync i = Throw e -> tick startTime i samples = Normal samples)
  /\ (forall (startTime : Z) (ticks : list TickInput),
      exists samples, runTicks startTime ticks = Normal samples).
Proof.
  split; [|split].
  - intros startTime ticks Hall. by apply runTicks_all_failed.
  - apply tick_failed.
  - intros startTime ticks. apply runTicks_from.
Qed.

(** X2. Whatever the stats command returns, a tick does not throw: it keeps
    the buffered samples and appends at most one, stamped with the time
    since the start and naming at least one container. *)
Theorem tick_appends_at_most_one (startTime : Z) (i : TickInput) (samples : list Sample) :
  exists samples',
    tick startTime i samples = Normal samples'
    /\ (samples' = samples
        \/ exists s, samples' = samples ++ [s]
                     /\ timestamp s = now i - startTime
                     /\ containers s <> ∅).
Proof.
  unfold tick, tickBody. destruct (execSync i) as [output|e]; cbn; [|eauto].
  case_bool_decide as Hsize; cbn; [|eauto].
  eexists. split; [reflexivity|]. right. eexists. split; [reflexivity|].
  split; [reflexivity|]. cbn. intros Hempty. rewrite Hempty, map_size_empty in Hsize. lia.
Qed.

Lemma sampler_survives_failed_ticks_witness :
  runTicks 0 [ {| execSync := Throw CommandFailed; now := 2000 |};
               {| execSync := Throw CommandFailed; now := 4000 |};
               {| execSync := Throw CommandFailed; now := 6000 |} ] = Normal [].
Proof.
  apply (proj1 sampler_survives_failed_ticks).
  repeat constructor; simpl; eauto.
Defined.

(** ** The stats parser *)

Section ParserFacts.
Local Open Scope string_scope.

Lemma length_app_string (a b : string) :
  String.length (a ++ b) = (String.length a + String.length b)%nat.
Proof. induction a as [|c a IH]; simpl; [done|]. by rewrite IH. Qed.

Lemma take_app_string (a b : string) : Str.take (String.length a) (a ++ b) = a.
Proof. induction a as [|c a IH]; simpl; [by destruct b|]. by rewrite IH. Qed.

Lemma captured (a b : string) :
  Str.take (String.length (a ++ b) - String.length b) (a ++ b) = a.
Proof.
  rewrite length_app_string.
  replace (String.length a + String.length b - String.length b)%nat
    with (String.length a) by lia.
  apply take_app_string.
Qed.

(** A greedy repetition over [a ++ b], where [a] is in the class and [b]
    does not start in it, hands [b] to a continuation that accepts it. *)
Lemma star_run {R} (p : ascii -> bool) (a b : string) (k : string -> option R) :
  Str.all p a = true -> Str.stops p b = true -> is_Some (k b) ->
  Regex.star p (a ++ b) k = k b.
Proof.
  intros Ha Hb [r Hr]. induction a as [|c a IH]; simpl.
  - destruct b as [|c b]; [done|]. simpl in *. apply negb_true_iff in Hb. by rewrite Hb.
  - simpl in Ha. apply andb_true_iff in Ha as [Hc Ha]. rewrite Hc, (IH Ha), Hr. done.
Qed.

Lemma plus_run {R} (p : ascii -> bool) (a b : string) (k : string -> option R) :
  a <> "" -> Str.all p a = true -> Str.stops p b = true -> is_Some (k b) ->
  Regex.plus p (a ++ b) k = k b.
Proof.
  intros Hne Ha Hb Hk. destruct a as [|c a]; [done|]. simpl.
  simpl in Ha. apply andb_true_iff in Ha as [Hc Ha]. rewrite Hc. by apply star_run.
Qed.

Lemma exec_found (r : Regex.regex) (s : string) caps :
  Regex.rmatch r s [] (fun _ caps => Some caps) = Some caps ->
  Regex.exec r s = Some caps.
Proof. intros H. destruct s; cbn; by rewrite H. Qed.

(** [/([\d.]+)(\w+)/] on a number, a unit and a rest that starts outside
    [\w]: the groups are the number and the unit. *)
Lemma exec_re_memory (num unit rest : string) :
  num <> "" -> Str.all Str.is_digit_or_dot num = true ->
  unit <> "" -> Str.all Str.is_word unit = true ->
  Str.stops Str.is_digit_or_dot unit = true ->
  Str.stops Str.is_word rest = true ->
  Regex.exec Regex.re_memory (num ++ unit ++ rest) = Some [num; unit].
Proof.
  intros Hn Hnum Hu Hunit Hstop Hrest. apply exec_found.
  unfold Regex.re_memory. cbn [Regex.rmatch].
  assert (Hstop' : Str.stops Str.is_digit_or_dot (unit ++ rest) = true)
    by (destruct unit; [done|exact Hstop]).
  assert (Hinner : forall caps,
             Regex.plus Str.is_word (unit ++ rest)
               (fun s' => Some (caps ++ [Str.take (String.length (unit ++ rest) - String.length s')
                                           (unit ++ rest)])%list)
             = Some (caps ++ [unit])%list).
  { intros caps. rewrite plus_run by (done || eauto). by rewrite captured. }
  rewrite plus_run; [|done|done|done|].
  - rewrite Hinner, captured. reflexivity.
  - rewrite Hinner. eauto.
Qed.

Lemma lower_char_letter c :
  Str.is_lower (Str.lower_char c) = true ->
  Str.is_word c = true /\ Str.is_digit_or_dot c = false.
Proof.
  destruct c as [[] [] [] [] [] [] [] []]; vm_compute; intros H; (done || by split).
Qed.

(** A unit whose lower-case form is made of letters is a non-empty word
    that does not start with a digit or a dot. *)
Lemma unit_is_word (unit key : string) :
  Str.toLowerCase unit = key -> key <> "" -> Str.all Str.is_lower key = true ->
  unit <> "" /\ Str.all Str.is_word unit = true
  /\ Str.stops Str.is_digit_or_dot unit = true.
Proof.
  intros <- Hne Hall. split; [by destruct unit|].
  split.
  - induction unit as [|c unit IH]; [done|]. cbn in Hall |- *.
    apply andb_true_iff in Hall as [Hc Hall].
    apply lower_char_letter in Hc as [-> _]. cbn.
    destruct unit; [done|]. apply IH; [done|exact Hall].
  - destruct unit as [|c unit]; [done|]. cbn in Hall |- *.
    apply andb_true_iff in Hall as [Hc _].
    apply lower_char_letter in Hc as [_ ->]. done.
Qed.

Lemma memReading_unit (num unit rest key : string) :
  num <> "" -> Str.all Str.is_digit_or_dot num = true ->
  Str.stops Str.is_word rest = true ->
  Str.toLowerCase unit = key -> key <> "" -> Str.all Str.is_lower key = true ->
  memReading (num ++ unit ++ rest) = parseMemory (parseFloat num) unit.
Proof.
  intros Hn Hnum Hrest Hkey Hne Hlow.
  destruct (unit_is_word unit key Hkey Hne Hlow) as (Hu & Hw & Hs).
  unfold memReading. by rewrite exec_re_memory.
Qed.



(** [/([\d.]+)([GMK]i?B)/] on a number followed by a unit in its exact
    spelling, whatever follows. *)
Lemma exec_re_memory_strict (num unit rest : string) :
  num <> "" -> Str.all Str.is_digit_or_dot num = true ->
  unit ∈ exactUnits ->
  Regex.exec Regex.re_memory_strict (num ++ unit ++ rest) = Some [num; unit].
Proof.
  intros Hn Hnum Hunit. apply exec_found.
  unfold Regex.re_memory_strict. cbn [Regex.rmatch].
  unfold exactUnits in Hunit. rewrite !elem_of_cons, elem_of_nil in Hunit.
  destruct Hunit as [->|[->|[->|[->|[->|[->|[]]]]]]].
  all: rewrite plus_run; [|done|done|done|].
  all: rewrite ?captured; simpl.
  all: repeat match goal with
         | |- context [(S (S (S ?n)) - ?n)%nat] =>
             replace (S (S (S n)) - n)%nat with 3%nat by lia
         | |- context [(S (S ?n) - ?n)%nat] =>
             replace (S (S n) - n)%nat with 2%nat by lia
         end.
  all: try reflexivity; eauto.
Qed.

End ParserFacts.

(** C9. For a memory string made of a number (digits and dots), a unit and
    a rest that does not continue the unit, such as [" / limit"], the parser
    of scripts/monitor.cjs does what the claim says: it converts the number
    to megabytes whatever the casing of the unit (GiB and GB multiply by
    1024, MiB and MB are taken as they are, KiB and KB divide by 1024) and
    reads only the used value. The inline parser of
    scripts/benchmark-upload.cjs does so for the exact spellings GiB, GB,
    MiB, MB, KiB and KB; on any other casing it misses the claim, as
    [benchmark_reading_is_case_sensitive] shows. *)
Theorem memory_reading_units (num unit rest : string) :
  num <> ""%string ->
  Str.all Str.is_digit_or_dot num = true ->
  (Str.stops Str.is_word rest = true ->
     (Str.toLowerCase unit ∈ ["gib"; "gb"]%string ->
        memReading (num ++ unit ++ rest) = (parseFloat num * 1024)%float)
     /\ (Str.toLowerCase unit ∈ ["mib"; "mb"]%string ->
        memReading (num ++ unit ++ rest) = parseFloat num)
     /\ (Str.toLowerCase unit ∈ ["kib"; "kb"]%string ->
        memReading (num ++ unit ++ rest) = (parseFloat num / 1024)%float))
  /\ (unit ∈ ["GiB"; "GB"]%string ->
        memReading_benchmark (num ++ unit ++ rest) = (parseFloat num * 1024)%float)
  /\ (unit ∈ ["MiB"; "MB"]%string ->
        memReading_benchmark (num ++ unit ++ rest) = parseFloat num)
  /\ (unit ∈ ["KiB"; "KB"]%string ->
        memReading_benchmark (num ++ unit ++ rest) = (parseFloat num / 1024)%float).
Proof.
  intros Hn Hnum. split; [intros Hrest; split; [|split]|split; [|split]].
  - rewrite !elem_of_cons, elem_of_nil. intros [H|[H|[]]];
      rewrite (memReading_unit num unit rest _ Hn Hnum Hrest H) by done;
      unfold parseMemory; rewrite H; reflexivity.
  - rewrite !elem_of_cons, elem_of_nil. intros [H|[H|[]]];
      rewrite (memReading_unit num unit rest _ Hn Hnum Hrest H) by done;
      unfold parseMemory; rewrite H; reflexivity.
  - rewrite !elem_of_cons, elem_of_nil. intros [H|[H|[]]];
      rewrite (memReading_unit num unit rest _ Hn Hnum Hrest H) by done;
      unfold parseMemory; rewrite H; reflexivity.
  - rewrite !elem_of_cons, elem_of_nil. intros [->|[->|[]]];
      unfold memReading_benchmark;
      (rewrite exec_re_memory_strict by (done || (unfold exactUnits; set_solver)));
      reflexivity.
  - rewrite !elem_of_cons, elem_of_nil. intros [->|[->|[]]];
      unfold memReading_benchmark;
      (rewrite exec_re_memory_strict by (done || (unfold exactUnits; set_solver)));
      reflexivity.
  - rewrite !elem_of_cons, elem_of_nil. intros [->|[->|[]]];
      unfold memReading_benchmark;
      (rewrite exec_re_memory_strict by (done || (unfold exactUnits; set_solver)));
      reflexivity.
Qed.

Lemma memory_reading_units_witness :
  memReading ("1.5" ++ "gIb" ++ " / 2GiB") = (parseFloat "1.5" * 1024)%float.
Proof.
  refine (proj1 (proj1 (memory_reading_units "1.5" "gIb" " / 2GiB" _ _) _) _).
  - discriminate.
  - reflexivity.
  - reflexivity.
  - vm_compute. set_solver.
Defined.

(** C9, where scripts/benchmark-upload.cjs misses the claim: with the unit
    of the used value in another casing than the expected one, the used
    value is skipped and the reading is the limit, or 0 when the limit is
    skipped too, where scripts/monitor.cjs reads the used value: 256 MB for
    [256mib], and half a megabyte for the [512kB] that podman prints. *)
Lemma benchmark_reading_is_case_sensitive :
  memReading_benchmark "256mib / 2GiB" = 2048%float
  /\ memReading_benchmark "256mib / 2gib" = 0%float
  /\ memReading "256mib / 2GiB" = 256%float
  /\ memReading_benchmark "512kB / 2GB" = 2048%float
  /\ memReading "512kB / 2GB" = 0.5%float.
Proof. repeat split; vm_compute; reflexivity. Qed.

(** ** The capacity estimate *)

Section FloatOrder.

Ltac signs := repeat match goal with s : bool |- _ => destruct s end.

Lemma SFcompare_refl sf : sf <> S754_nan -> SFcompare sf sf = Some Eq.
Proof.
  destruct sf as [s|s| |s m e]; intros H; cbn; try done.
  - by destruct s.
  - rewrite Z.compare_refl, Pos.compare_cont_refl. by destruct s.
Qed.

Lemma SFcompare_swap a b : SFcompare b a = CompOpp <$> SFcompare a b.
Proof.
  destruct a as [sa|sa| |sa ma ea], b as [sb|sb| |sb mb eb]; signs; cbn; try done;
    rewrite (Z.compare_antisym ea eb); destruct (ea ?= eb); cbn; try done;
    fold (Pos.compare mb ma); fold (Pos.compare ma mb);
    rewrite (Pos.compare_antisym ma mb); by rewrite ?CompOpp_involutive.
Qed.

Lemma SFleb_trans a b c : SFleb a b = true -> SFleb b c = true -> SFleb a c = true.
Proof.
  unfold SFleb.
  destruct a as [sa|sa| |sa ma ea], b as [sb|sb| |sb mb eb], c as [sc|sc| |sc mc ec];
    signs; cbn; try done;
    destruct (Z.compare_spec ea eb), (Z.compare_spec eb ec), (Z.compare_spec ea ec);
    cbn; try done; try lia; subst;
    fold (Pos.compare ma mb); fold (Pos.compare mb mc); fold (Pos.compare ma mc);
    destruct (Pos.compare_spec ma mb), (Pos.compare_spec mb mc), (Pos.compare_spec ma mc);
    cbn; try done; lia.
Qed.

Lemma is_nan_false x : is_nan x = false <-> Prim2SF x <> S754_nan.
Proof.
  unfold is_nan. rewrite FloatAxioms.eqb_spec. unfold SFeqb. split.
  - intros H E. rewrite E in H. done.
  - intros H. by rewrite SFcompare_refl.
Qed.

Lemma leb_refl x : is_nan x = false -> (x <=? x)%float = true.
Proof.
  intros H%is_nan_false. rewrite FloatAxioms.leb_spec. unfold SFleb. by rewrite SFcompare_refl.
Qed.

Lemma leb_trans x y z :
  (x <=? y)%float = true -> (y <=? z)%float = true -> (x <=? z)%float = true.
Proof. rewrite !FloatAxioms.leb_spec. apply SFleb_trans. Qed.

Lemma ltb_leb x y : (x <? y)%float = true -> (x <=? y)%float = true.
Proof.
  rewrite FloatAxioms.ltb_spec, FloatAxioms.leb_spec. unfold SFltb, SFleb.
  by destruct (SFcompare (Prim2SF x) (Prim2SF y)) as [[]|].
Qed.

(** Of two Numbers that are not NaN and of which the first is not below
    the second, the second is at most the first. *)
Lemma not_ltb_leb x y :
  is_nan x = false -> is_nan y = false ->
  (x <? y)%float = false -> (y <=? x)%float = true.
Proof.
  intros Hx%is_nan_false Hy%is_nan_false.
  rewrite FloatAxioms.ltb_spec, FloatAxioms.leb_spec. unfold SFltb, SFleb.
  rewrite (SFcompare_swap (Prim2SF x) (Prim2SF y)).
  destruct (SFcompare (Prim2SF x) (Prim2SF y)) as [[]|] eqn:E; cbn; try done.
  intros _. destruct (Prim2SF x) as [sa|sa| |sa ma ea], (Prim2SF y) as [sb|sb| |sb mb eb];
    try done; cbn in E; signs; done.
Qed.

(** [Math.max] of two Numbers that are not NaN is one of them and is not
    below either. *)
Lemma Math_max_spec a b :
  is_nan a = false -> is_nan b = false ->
  (Num.Math_max a b = a \/ Num.Math_max a b = b)
  /\ (a <=? Num.Math_max a b)%float = true
  /\ (b <=? Num.Math_max a b)%float = true.
Proof.
  intros Ha Hb. unfold Num.Math_max. rewrite Ha, Hb. cbn [orb].
  destruct (a <? b)%float eqn:Hab.
  { split; [by right|]. split; [by apply ltb_leb|by apply leb_refl]. }
  destruct (b <? a)%float eqn:Hba.
  { split; [by left|]. split; [by apply leb_refl|by apply ltb_leb]. }
  destruct (get_sign a).
  - split; [by right|]. split; [by apply not_ltb_leb|by apply leb_refl].
  - split; [by left|]. split; [by apply leb_refl|by apply not_ltb_leb].
Qed.

Lemma Math_max_neg_infinity b : is_nan b = false -> Num.Math_max neg_infinity b = b.
Proof.
  intros Hb. unfold Num.Math_max. rewrite Hb. change (is_nan neg_infinity) with false. cbn [orb].
  destruct (neg_infinity <? b)%float eqn:E1; [done|].
  destruct (b <? neg_infinity)%float eqn:E2; [|done].
  exfalso. revert E2. rewrite FloatAxioms.ltb_spec.
  change (Prim2SF neg_infinity) with (S754_infinity true).
  unfold SFltb. by destruct (Prim2SF b) as [s|[]| |[] m e].
Qed.

Lemma foldl_Math_max acc (l : list float) :
  is_nan acc = false -> Forall (fun x => is_nan x = false) l ->
  let r := foldl Num.Math_max acc l in
  is_nan r = false /\ (r = acc \/ r ∈ l)
  /\ (acc <=? r)%float = true /\ Forall (fun x => (x <=? r)%float = true) l.
Proof.
  intros Hacc Hl. revert acc Hacc. induction Hl as [|x l Hx _ IH]; intros acc Hacc; cbn.
  - split; [done|]. split; [by left|]. split; [by apply leb_refl|constructor].
  - destruct (Math_max_spec acc x Hacc Hx) as (Hin & Hle1 & Hle2).
    assert (Hm : is_nan (Num.Math_max acc x) = false) by (destruct Hin as [-> | ->]; done).
    destruct (IH _ Hm) as (Hn & Hr & Hle & Hall).
    split; [done|]. split; [|split].
    + destruct Hr as [->|Hr]; [|right; by right].
      destruct Hin as [->| ->]; [by left|right; by left].
    + by eapply leb_trans.
    + constructor; [by eapply leb_trans|done].
Qed.

(** [Math.max(...arr)] on a non-empty array without NaN: an element of the
    array that no element exceeds. *)
Lemma Math_max_list_spec (arr : list float) :
  arr <> [] -> Forall (fun x => is_nan x = false) arr ->
  Num.Math_max_list arr ∈ arr
  /\ Forall (fun x => (x <=? Num.Math_max_list arr)%float = true) arr.
Proof.
  intros Hne Harr. destruct arr as [|x arr]; [done|].
  apply Forall_cons_1 in Harr as [Hx Harr].
  unfold Num.Math_max_list. cbn [foldl]. rewrite Math_max_neg_infinity by done.
  destruct (foldl_Math_max x arr Hx Harr) as (_ & Hr & Hle & Hall).
  split; [|by constructor].
  destruct Hr as [->|Hr]; [by left|by right].
Qed.

End FloatOrder.

Section StatsFacts.

(** The inner loop on entries with distinct names none of which is
    inherited: each entry is pushed onto the series of its name. *)
Lemma pushStats_entries (l : list (string * ContainerStats)) (stats : gmap string Series) :
  NoDup l.*1 ->
  Forall (fun entry => fst entry ∉ objectPrototypeNames) l ->
  exists stats',
    foldl (fun acc entry => st ← acc; pushStats st entry) (Normal stats) l = Normal stats'
    /\ forall name,
         stats' !! name
         = match (list_to_map l : gmap string ContainerStats) !! name with
           | Some data =>
               Some {| cpuSamples := default [] (cpuSamples <$> stats !! name) ++ [cpu data];
                       memSamples := default [] (memSamples <$> stats !! name) ++ [memMB data] |}
           | None => stats !! name
           end.
Proof.
  intros Hnd Hok. revert stats.
  induction l as [|[n0 d0] l IH]; intros stats; cbn [foldl].
  - exists stats. split; [done|]. intros name. by rewrite list_to_map_nil, lookup_empty.
  - rewrite fmap_cons in Hnd. apply NoDup_cons in Hnd as [Hn0 Hnd].
    apply Forall_cons_1 in Hok as [Hok0 Hok]. cbn [fst] in Hok0, Hn0.
    change (Normal stats ≫= _) with (pushStats stats (n0, d0)).
    unfold pushStats. cbn [fst snd].
    rewrite (bool_decide_false (n0 ∈ objectPrototypeNames)) by done. rewrite orb_false_r.
    set (pushed := {| cpuSamples := default [] (cpuSamples <$> stats !! n0) ++ [cpu d0];
                      memSamples := default [] (memSamples <$> stats !! n0) ++ [memMB d0] |}).
    assert (Hstep : forall stats1,
              (if bool_decide (is_Some (stats !! n0)) then stats
               else <[n0 := {| cpuSamples := []; memSamples := [] |}]> stats) = stats1 ->
              match stats1 !! n0 with
              | Some series =>
                  mret (<[n0 := {| cpuSamples := cpuSamples series ++ [cpu d0];
                                   memSamples := memSamples series ++ [memMB d0] |}]> stats1)
              | None => Throw TypeError
              end = Normal (<[n0 := pushed]> stats)).
    { intros stats1 <-. unfold pushed. case_bool_decide as Hown.
      - destruct Hown as [series Hs]. by rewrite Hs.
      - apply eq_None_not_Some in Hown. rewrite Hown, lookup_insert_eq. cbn.
        by rewrite insert_insert_eq. }
    rewrite (Hstep _ eq_refl). clear Hstep.
    destruct (IH Hnd Hok (<[n0 := pushed]> stats)) as (stats' & Hrun & Hlook).
    exists stats'. split; [exact Hrun|]. intros name. rewrite Hlook.
    rewrite list_to_map_cons.
    destruct (decide (name = n0)) as [->|Hne].
    + rewrite lookup_insert_eq. rewrite (not_elem_of_list_to_map_1 _ _ Hn0). by rewrite lookup_insert_eq.
    + rewrite !lookup_insert_ne by done. done.
Qed.

Lemma statsOf_snoc name pre (s : Sample) :
  statsOf name (pre ++ [s])
  = statsOf name pre ++ match containers s !! name with Some data => [data] | None => [] end.
Proof.
  unfold statsOf. rewrite omap_app. apply (f_equal (app _)). reflexivity.
Qed.

(** One sample more, none of whose names is inherited. *)
Lemma collectSample_spec (stats : gmap string Series) (pre : list Sample) (s : Sample) :
  map_Forall (fun name _ => name ∉ objectPrototypeNames) (containers s) ->
  (forall name, stats !! name = seriesOf name pre) ->
  exists stats',
    collectSample stats s = Normal stats'
    /\ forall name, stats' !! name = seriesOf name (pre ++ [s]).
Proof.
  intros Hok Hstats.
  destruct (pushStats_entries (map_to_list (containers s)) stats) as (stats' & Hrun & Hlook).
  { apply NoDup_fst_map_to_list. }
  { apply Forall_forall. intros [name data] Hin%elem_of_map_to_list. by apply (Hok name data). }
  exists stats'. split; [exact Hrun|]. intros name.
  rewrite Hlook, list_to_map_to_list, Hstats.
  unfold seriesOf, cpuReadings, memReadings. rewrite statsOf_snoc.
  destruct (containers s !! name) as [data|]; [|by rewrite app_nil_r].
  destruct (statsOf name pre) as [|d0 l]; [done|].
  rewrite !fmap_app. reflexivity.
Qed.

(** The statistics of a run in which no container is named after a
    property of [Object.prototype]: the loops complete, and [stats] holds
    for each name its readings in order. *)
Lemma collectStats_spec (samples : list Sample) :
  Forall (fun s => map_Forall (fun name _ => name ∉ objectPrototypeNames) (containers s))
         samples ->
  exists stats,
    collectStats samples = Normal stats
    /\ forall name, stats !! name = seriesOf name samples.
Proof.
  induction samples as [|s samples IH] using rev_ind; intros Hok.
  - exists ∅. split; [done|]. intros name. by rewrite lookup_empty.
  - apply Forall_app in Hok as [Hok Hs]. rewrite Forall_singleton in Hs.
    destruct (IH Hok) as (stats & Hrun & Hlook).
    destruct (collectSample_spec stats samples s Hs Hlook) as (stats' & Hrun' & Hlook').
    exists stats'. split; [|exact Hlook'].
    unfold collectStats in *. rewrite foldl_app, Hrun. exact Hrun'.
Qed.

Lemma fold_thrown {A B} (f : A -> B -> Outcome A) (e : Exn) (l : list B) :
  foldl (fun acc x => a ← acc; f a x) (Throw e) l = Throw e.
Proof. induction l as [|x l IH]; [done|]. exact IH. Qed.

(** The inner loop never gives [stats] an inherited name of its own, and
    throws on the first it meets. *)
Lemma pushStats_inherited (l : list (string * ContainerStats)) (stats : gmap string Series) :
  map_Forall (fun name _ => name ∉ objectPrototypeNames) stats ->
  match foldl (fun acc entry => st ← acc; pushStats st entry) (Normal stats) l with
  | Normal stats' =>
      map_Forall (fun name _ => name ∉ objectPrototypeNames) stats'
      /\ Forall (fun entry => fst entry ∉ objectPrototypeNames) l
  | Throw e =>
      e = TypeError /\ Exists (fun entry => fst entry ∈ objectPrototypeNames) l
  end.
Proof.
  revert stats. induction l as [|[n0 d0] l IH]; intros stats Hinv; cbn [foldl].
  - split; [done|constructor].
  - change (Normal stats ≫= _) with (pushStats stats (n0, d0)).
    unfold pushStats. cbn [fst snd].
    destruct (decide (n0 ∈ objectPrototypeNames)) as [Hin|Hout].
    + rewrite (bool_decide_true (n0 ∈ objectPrototypeNames)) by done. rewrite orb_true_r.
      assert (Hnone : stats !! n0 = None).
      { destruct (stats !! n0) as [series|] eqn:E; [|done]. by destruct (Hinv n0 series E). }
      rewrite Hnone, fold_thrown. split; [done|]. by left.
    + rewrite (bool_decide_false (n0 ∈ objectPrototypeNames)) by done. rewrite orb_false_r.
      set (stats1 := if bool_decide (is_Some (stats !! n0)) then stats else _).
      assert (H1 : map_Forall (fun name _ => name ∉ objectPrototypeNames) stats1).
      { unfold stats1. case_bool_decide; [done|]. by apply map_Forall_insert_2. }
      assert (H2 : is_Some (stats1 !! n0)).
      { unfold stats1. case_bool_decide; [done|]. rewrite lookup_insert_eq. eauto. }
      destruct H2 as [series Hs]. rewrite Hs.
      change (mret ?x) with (Normal x).
      match goal with |- context [foldl _ (Normal ?st) l] => specialize (IH st) end.
      destruct (foldl _ _ l) as [stats'|e].
      * destruct IH as [Hinv' Hl]; [by apply map_Forall_insert_2|].
        split; [done|]. by constructor.
      * destruct IH as [-> Hl]; [by apply map_Forall_insert_2|].
        split; [done|]. by right.
Qed.

(** The statistics loop throws exactly when some sample names a container
    after a property of [Object.prototype], and then a [TypeError]. *)
Lemma collectStats_throws (samples : list Sample) :
  match collectStats samples with
  | Normal stats =>
      map_Forall (fun name _ => name ∉ objectPrototypeNames) stats
      /\ Forall (fun s => map_Forall (fun name _ => name ∉ objectPrototypeNames) (containers s))
                samples
  | Throw e =>
      e = TypeError
      /\ Exists (fun s => exists name, is_Some (containers s !! name)
                                       /\ name ∈ objectPrototypeNames) samples
  end.
Proof.
  induction samples as [|s samples IH] using rev_ind.
  - split; [apply map_Forall_empty|constructor].
  - unfold collectStats in *. rewrite foldl_app. cbn [foldl].
    destruct (foldl _ _ samples) as [stats|e].
    + destruct IH as [Hinv Hok].
      change (Normal stats ≫= _) with (collectSample stats s). unfold collectSample.
      pose proof (pushStats_inherited (map_to_list (containers s)) stats Hinv) as H.
      destruct (foldl _ _ (map_to_list (containers s))) as [stats'|e].
      * destruct H as [Hinv' Hl]. split; [done|].
        apply Forall_app. split; [done|]. apply Forall_singleton.
        intros name data Hlook. apply elem_of_map_to_list in Hlook.
        by apply (proj1 (Forall_forall _ _) Hl (name, data)).
      * destruct H as [-> Hex]. split; [done|].
        apply Exists_app. right. apply Exists_cons_hd.
        apply Exists_exists in Hex as ([name data] & Hin & Hbad).
        apply elem_of_map_to_list in Hin. exists name. split; [eauto|done].
    + destruct IH as [-> Hex]. split; [done|]. apply Exists_app. by left.
Qed.

End StatsFacts.

(** C2 (as amended). The capacity estimate takes no observed concurrency.
    For a run whose samples name the container [m3w], and no container
    after a property of [Object.prototype], [shutdown] of scripts/monitor.cjs
    computes [floor (100 * (100 / cpuMax))] and [floor (100 * (2048 /
    memMax))] in binary64 once the result file is written, the concurrency
    100 and the memory limit 2048 being constants; [cpuMax] and [memMax] are
    [Math.max] over the CPU and memory readings of [m3w], which for readings
    without NaN is the greatest reading. So for [cpuMax = 40] the CPU-bound
    estimate is 250. When a maximum is zero the division does not throw:
    [shutdown] reports [Infinity], and the runner's [main] prints each of
    its two estimates only when its maximum is positive. *)
Theorem capacity_estimate_fixed_concurrency (samples : list Sample) :
  Forall (fun s => map_Forall (fun name _ => name ∉ objectPrototypeNames) (containers s))
         samples ->
  statsOf "m3w" samples <> [] ->
  let cpuMax := Num.Math_max_list (cpuReadings "m3w" samples) in
  let memMax := Num.Math_max_list (memReadings "m3w" samples) in
  capacityEstimate (Normal ()) samples
  = Normal (Some (Num.Math_floor (100 * (100 / cpuMax)),
                  Num.Math_floor (100 * (2048 / memMax))))
  /\ (exists cpuLine memLine,
        capacityEstimate_main samples = Normal (Some (cpuLine, memLine))
        /\ (is_Some cpuLine <-> (0 <? cpuMax)%float = true)
        /\ (is_Some memLine <-> (0 <? memMax)%float = true))
  /\ (Forall (fun x => is_nan x = false) (cpuReadings "m3w" samples) ->
        cpuMax ∈ cpuReadings "m3w" samples
        /\ Forall (fun x => (x <=? cpuMax)%float = true) (cpuReadings "m3w" samples))
  /\ (Forall (fun x => is_nan x = false) (memReadings "m3w" samples) ->
        memMax ∈ memReadings "m3w" samples
        /\ Forall (fun x => (x <=? memMax)%float = true) (memReadings "m3w" samples))
  /\ (cpuMax = 40%float ->
        exists m, capacityEstimate (Normal ()) samples = Normal (Some (250%float, m)))
  /\ (cpuMax = 0%float ->
        (exists m, capacityEstimate (Normal ()) samples = Normal (Some (infinity, m)))
        /\ exists memLine, capacityEstimate_main samples = Normal (Some (None, memLine)))
  /\ (memMax = 0%float ->
        (exists c, capacityEstimate (Normal ()) samples = Normal (Some (c, infinity)))
        /\ exists cpuLine, capacityEstimate_main samples = Normal (Some (cpuLine, None))).
Proof.
  intros Hok Hm3w cpuMax memMax.
  destruct (collectStats_spec samples Hok) as (stats & Hrun & Hlook).
  assert (Hseries : stats !! "m3w"%string
                    = Some {| cpuSamples := cpuReadings "m3w" samples;
                              memSamples := memReadings "m3w" samples |}).
  { rewrite Hlook. unfold seriesOf. by destruct (statsOf "m3w" samples). }
  assert (Hsome : samples <> []) by (intros ->; done).
  assert (H1 : capacityEstimate (Normal ()) samples
               = Normal (Some (Num.Math_floor (100 * (100 / cpuMax)),
                               Num.Math_floor (100 * (2048 / memMax))))).
  { unfold capacityEstimate. destruct samples as [|s0 rest]; [done|].
    rewrite Hrun. cbn [mbind Outcome_bind]. by rewrite Hseries. }
  assert (H2 : capacityEstimate_main samples
               = Normal (Some
                   (if (0 <? cpuMax)%float
                    then Some (Num.Math_floor (500 * (100 / cpuMax))) else None,
                    if (0 <? memMax)%float
                    then Some (Num.Math_floor (500 * (2048 / memMax))) else None))).
  { unfold capacityEstimate_main. destruct samples as [|s0 rest]; [done|].
    rewrite Hrun. cbn [mbind Outcome_bind]. by rewrite Hseries. }
  assert (Hne : forall f : ContainerStats -> float, f <$> statsOf "m3w" samples <> []).
  { intros f. by destruct (statsOf "m3w" samples). }
  split; [exact H1|]. split.
  { eexists _, _. split; [exact H2|].
    split.
    - destruct (0 <? cpuMax)%float; split; [done|eauto|by intros [? ?]|done].
    - destruct (0 <? memMax)%float; split; [done|eauto|by intros [? ?]|done]. }
  split; [intros Hnan; apply Math_max_list_spec; [apply Hne|done]|].
  split; [intros Hnan; apply Math_max_list_spec; [apply Hne|done]|].
  rewrite H1, H2. clear H1 H2. clearbody cpuMax memMax.
  split; [|split].
  - intros ->. eexists. reflexivity.
  - intros ->. split; eexists; reflexivity.
  - intros ->. split; eexists; reflexivity.
Qed.

Lemma capacity_estimate_fixed_concurrency_witness :
  capacityEstimate (Normal ()) peakRun
  = Normal (Some (Num.Math_floor (100 * (100 / Num.Math_max_list (cpuReadings "m3w" peakRun))),
                  Num.Math_floor (100 * (2048 / Num.Math_max_list (memReadings "m3w" peakRun))))).
Proof.
  refine (proj1 (capacity_estimate_fixed_concurrency peakRun _ _)).
  - apply (bool_decide_unpack _). vm_compute. exact I.
  - vm_compute. discriminate.
Defined.

(** C2, the claim as stated fails: no observed concurrency is an input, and
    at [cpuMax = 40] the CPU-bound estimate of [shutdown] is 250, not 50;
    at a zero maximum [shutdown] reports [Infinity] and [main] nothing. *)
Lemma capacity_estimate_is_not_from_observed_concurrency :
  Num.Math_max_list (cpuReadings "m3w" peakRun) = 40%float
  /\ capacityEstimate (Normal ()) peakRun = Normal (Some (250, 400)%float)
  /\ capacityEstimate (Normal ()) idleRun = Normal (Some (infinity, infinity))
  /\ capacityEstimate_main idleRun = Normal (Some (None, None)).
Proof. repeat split; vm_compute; reflexivity. Qed.

(** X16. The statistics loop of [shutdown] and of the runner's [main]
    throws exactly when some sample names a container after a property of
    [Object.prototype], such as [constructor], and what it throws is a
    [TypeError]: no estimate is then computed. A failed write of the result
    file is the only other way [shutdown] has of throwing before its
    estimate; [main] has none. *)
Theorem statistics_throw_on_prototype_names (samples : list Sample) :
  (capacityEstimate (Normal ()) samples = Throw TypeError
   <-> Exists (fun s => exists name, is_Some (containers s !! name)
                                     /\ name ∈ objectPrototypeNames) samples)
  /\ (capacityEstimate_main samples = Throw TypeError
      <-> Exists (fun s => exists name, is_Some (containers s !! name)
                                        /\ name ∈ objectPrototypeNames) samples)
  /\ (forall e, capacityEstimate (Normal ()) samples = Throw e -> e = TypeError)
  /\ (forall e, capacityEstimate_main samples = Throw e -> e = TypeError)
  /\ (forall e, (exists r, capacityEstimate (Normal ()) samples = Normal r) ->
                samples <> [] ->
                capacityEstimate (Throw e) samples = Throw e).
Proof.
  pose proof (collectStats_throws samples) as H.
  unfold capacityEstimate, capacityEstimate_main.
  destruct samples as [|s0 rest].
  { split; [split; [done|by intros ?%Exists_nil]|].
    split; [split; [done|by intros ?%Exists_nil]|]. done. }
  set (samples := s0 :: rest) in *. clearbody samples.
  destruct (collectStats samples) as [stats|e0]; cbn [mbind Outcome_bind].
  - destruct H as [_ Hok].
    assert (Hno : ~ Exists (fun s => exists name, is_Some (containers s !! name)
                                                  /\ name ∈ objectPrototypeNames) samples).
    { intros Hex. apply Exists_exists in Hex as (s & Hin & name & [data Hd] & Hbad).
      by apply (proj1 (Forall_forall _ _) Hok s Hin name data Hd). }
    destruct (stats !! "m3w"%string);
      (split; [split; [done|by intros ?]|]; split; [split; [done|by intros ?]|]; done).
  - destruct H as [-> Hex].
    split; [done|]. split; [done|]. split; [by intros e [= <-]|].
    split; [by intros e [= <-]|]. by intros e [r Hr].
Qed.

(** One sample of a container named [m3w-load-test-constructor], which the
    sampler records as [constructor]: both summaries throw. *)
Example statistics_throw_on_constructor :
  let samples := [ {| timestamp := 2000;
                      containers := {[ "m3w"%string := {| cpu := 40; memMB := 512 |};
                                       "constructor"%string := {| cpu := 1; memMB := 8 |} ]} |} ] in
  capacityEstimate (Normal ()) samples = Throw TypeError
  /\ capacityEstimate_main samples = Throw TypeError.
Proof. split; vm_compute; reflexivity. Qed.

(** A tick on real stats output: the sample of the tick carries the parsed
    CPU and memory readings of the containers of the test. *)
Example tick_reads_stats_output :
  tick 1000
    {| execSync := Normal ("m3w-load-test" ++ String "009" "45.23%" ++ String "009" "256MiB / 2GiB"
                            ++ String "010" "m3w-load-test-postgres" ++ String "009" "1.50%"
                            ++ String "009" "1.5GiB / 2GiB"
                            ++ String "010" "other" ++ String "009" "9%" ++ String "009" "1MiB / 2GiB"
                            ++ String "010" "")%string;
       now := 3000 |} []
  = Normal [ {| timestamp := 2000;
                containers := {[ "m3w"%string := {| cpu := 45.23; memMB := 256 |};
                                 "postgres"%string := {| cpu := 1.5; memMB := 1536 |} ]} |} ].
Proof. vm_compute. reflexivity. Qed.

Section GeneratorFacts.
Import Upload Generator.

Lemma bytesOf_length s : length (bytesOf s) = String.length s.
Proof. induction s as [|c s IH]; cbn [bytesOf length String.length]; congruence. Qed.

Lemma bytesOf_app a b : bytesOf (a +:+ b) = bytesOf a ++ bytesOf b.
Proof. induction a as [|c a IH]; simpl; [done|]. by rewrite IH. Qed.

Lemma bigEndian_length n z : length (bigEndian n z) = n.
Proof. induction n as [|n IH]; cbn [bigEndian length]; [done|]. by rewrite IH. Qed.

Lemma beDecode_bigEndian z : beDecode (bigEndian 4 z) = z mod 2 ^ 32.
Proof.
  unfold beDecode. cbn [bigEndian foldl].
  change (8 * Z.of_nat 3) with 24. change (8 * Z.of_nat 2) with 16.
  change (8 * Z.of_nat 1) with 8. change (8 * Z.of_nat 0) with 0.
  rewrite !Z.shiftr_div_pow2 by lia.
  change (2 ^ 24) with 16777216. change (2 ^ 16) with 65536. change (2 ^ 8) with 256.
  change (2 ^ 0) with 1. change (2 ^ 32) with 4294967296.
  Z.to_euclidean_division_equations. lia.
Qed.

(** A frame as laid out: the id, the size field big-endian, the flags and
    the encoding byte, the text. *)
Lemma createId3Frame_bytes frameId text :
  createId3Frame frameId text
  = bytesOf frameId ++ bigEndian 4 (Z.of_nat (String.length text) + 1)
    ++ [0; 0; 0] ++ bytesOf text.
Proof.
  unfold createId3Frame, bufferFrom. rewrite bytesOf_length.
  cbn [fmap list_fmap bigEndian app]. rewrite !band_255, !Z.mod_mod by lia.
  rewrite !sar_byte by tauto.
  change (8 * Z.of_nat 3) with 24. change (8 * Z.of_nat 2) with 16.
  change (8 * Z.of_nat 1) with 8. change (8 * Z.of_nat 0) with 0.
  rewrite !Z.shiftr_0_r. reflexivity.
Qed.

Lemma createId3Frame_length frameId text :
  length (createId3Frame frameId text)
  = (String.length frameId + 7 + String.length text)%nat.
Proof.
  rewrite createId3Frame_bytes, !length_app, !bytesOf_length, bigEndian_length.
  simpl. lia.
Qed.

Lemma band_127 y : band y 127 = y mod 128.
Proof.
  unfold band. change (ToInt32 127) with (Z.ones 7).
  rewrite Z.land_ones by lia. unfold ToInt32.
  change (2 ^ 31) with 2147483648. change (2 ^ 32) with 4294967296. change (2 ^ 7) with 128.
  Z.to_euclidean_division_equations. lia.
Qed.

Lemma sar_septet x k :
  k = 7 \/ k = 14 \/ k = 21 ->
  sar x k mod 128 = Z.shiftr x k mod 128.
Proof.
  intros Hk. unfold sar, ToInt32.
  change (2 ^ 31) with 2147483648. change (2 ^ 32) with 4294967296.
  destruct Hk as [-> | [-> | ->]].
  - change (7 mod 32) with 7. rewrite !Z.shiftr_div_pow2 by lia.
    change (2 ^ 7) with 128. Z.to_euclidean_division_equations. lia.
  - change (14 mod 32) with 14. rewrite !Z.shiftr_div_pow2 by lia.
    change (2 ^ 14) with 16384. Z.to_euclidean_division_equations. lia.
  - change (21 mod 32) with 21. rewrite !Z.shiftr_div_pow2 by lia.
    change (2 ^ 21) with 2097152. Z.to_euclidean_division_equations. lia.
Qed.

Lemma syncsafeDecode_septets size : syncsafeDecode (septets size) = size mod 2 ^ 28.
Proof.
  unfold syncsafeDecode, septets. cbn [foldl].
  rewrite !Z.shiftr_div_pow2 by lia.
  change (2 ^ 21) with 2097152. change (2 ^ 14) with 16384. change (2 ^ 7) with 128.
  change (2 ^ 28) with 268435456.
  Z.to_euclidean_division_equations. lia.
Qed.

Lemma createMinimalId3Tag_bytes SEED sizeMB variant :
  let frames := createId3Frame "TIT2" (titleOf SEED sizeMB variant)
                ++ createId3Frame "TPE1" "M3W Load Test" in
  createMinimalId3Tag SEED sizeMB variant
  = [73; 68; 51; 3; 0; 0] ++ septets (Z.of_nat (length frames)) ++ frames.
Proof.
  intros frames. unfold createMinimalId3Tag. cbn [concat]. rewrite app_nil_r. fold frames.
  unfold bufferFrom, septets. cbn [fmap list_fmap app].
  rewrite !band_127. rewrite !sar_septet by tauto.
  assert (E : forall z, 0 <= z < 256 -> z mod 256 = z) by (intros; by apply Z.mod_small).
  rewrite !(E (_ mod 128)) by (Z.to_euclidean_division_equations; lia).
  reflexivity.
Qed.

Lemma createMinimalId3Tag_length SEED sizeMB variant :
  length (createMinimalId3Tag SEED sizeMB variant)
  = (45 + String.length (titleOf SEED sizeMB variant))%nat.
Proof.
  rewrite createMinimalId3Tag_bytes, !length_app, !createId3Frame_length.
  simpl. lia.
Qed.


(** The inner loop, read back: inside the frame's payload and the buffer
    the digest byte, anywhere else the byte that was there. *)
Lemma foldl_insert_seq (g : nat -> Z) (offset a n : nat) (buf : list Z) (k : nat) :
  foldl (fun buf j => <[(offset + j)%nat := g j]> buf) buf (seq a n) !! k
  = if decide (offset + a <= k < offset + a + n /\ k < length buf)%nat
    then Some (g (k - offset)%nat) else buf !! k.
Proof.
  revert a buf. induction n as [|n IH]; intros a buf; cbn [seq foldl].
  - by rewrite decide_False by lia.
  - rewrite IH, length_insert.
    destruct (decide (k = offset + a)%nat) as [->|Hne].
    + rewrite decide_False by lia.
      destruct (decide (offset + a < length buf)%nat).
      * rewrite list_lookup_insert_eq by done. rewrite decide_True by lia.
        by replace (offset + a - offset)%nat with a by lia.
      * rewrite list_insert_ge by lia. by rewrite decide_False by lia.
    + rewrite list_lookup_insert_ne by done.
      repeat case_decide; try lia; done.
Qed.

Lemma foldl_insert_seq_length (g : nat -> Z) (offset a n : nat) (buf : list Z) :
  length (foldl (fun buf j => <[(offset + j)%nat := g j]> buf) buf (seq a n)) = length buf.
Proof.
  revert a buf. induction n as [|n IH]; intros a buf; cbn [seq foldl]; [done|].
  by rewrite IH, length_insert.
Qed.

Lemma frameOf_length hash : length (frameOf hash) = 417%nat.
Proof. unfold frameOf. by rewrite length_app, length_fmap, length_seq. Qed.

Lemma frameOf_lookup hash k :
  frameOf hash !! k
  = if decide (k < 4)%nat then frameHeader !! k
    else if decide (k < 417)%nat
         then Some ((hash !!! (k mod length hash)%nat) mod 256) else None.
Proof.
  unfold frameOf. case_decide.
  - by rewrite lookup_app_l by (change (length frameHeader) with 4%nat; lia).
  - rewrite lookup_app_r by (change (length frameHeader) with 4%nat; lia).
    change (length frameHeader) with 4%nat.
    rewrite list_lookup_fmap. case_decide.
    + rewrite lookup_seq_lt by (unfold frameSize; lia).
      by replace (4 + (k - 4))%nat with k by lia.
    + by rewrite lookup_seq_ge by (unfold frameSize; lia).
Qed.

(** One turn of the frame loop writes exactly one frame at its offset. *)
Lemma fillFrame_spec md5 SEED sizeMB variant batch buf i :
  (i * 417 + 417 <= length buf)%nat ->
  fillFrame md5 SEED sizeMB variant batch buf i
  = take (i * 417) buf ++ frameOf (md5 (hashText SEED sizeMB variant batch i))
    ++ drop (i * 417 + 417) buf.
Proof.
  intros Hlen. unfold fillFrame, fillPayload. change frameSize with 417%nat.
  set (hash := md5 _). set (o := (i * 417)%nat) in *.
  apply list_eq. intros k.
  rewrite (foldl_insert_seq (fun j => (hash !!! (j mod length hash)%nat) mod 256)).
  rewrite writeFrom_length, writeFrom_lookup. change (length frameHeader) with 4%nat.
  destruct (decide (k < o)%nat) as [Hlt|Hge].
  - rewrite !decide_False by lia. rewrite lookup_app_l by (rewrite length_take; lia).
    by rewrite lookup_take_lt.
  - rewrite lookup_app_r by (rewrite length_take; lia).
    rewrite length_take, Nat.min_l by lia.
    destruct (decide (k < o + 417)%nat) as [Hin|Hout].
    + rewrite lookup_app_l by (rewrite frameOf_length; lia).
      rewrite frameOf_lookup.
      destruct (decide (k - o < 4)%nat).
      * rewrite decide_False by lia. rewrite decide_True by lia.
        assert (Hh : forall j, (j < 4)%nat ->
                  (fun v => v mod 256) <$> frameHeader !! j = frameHeader !! j).
        { intros j Hj. do 4 (destruct j as [|j]; [done|]). lia. }
        by apply Hh.
      * rewrite decide_True by lia. by rewrite decide_True by lia.
    + rewrite !decide_False by lia.
      rewrite lookup_app_r by (rewrite frameOf_length; lia).
      rewrite frameOf_length, lookup_drop. f_equal. lia.
Qed.

Lemma fillFrame_length md5 SEED sizeMB variant batch buf i :
  length (fillFrame md5 SEED sizeMB variant batch buf i) = length buf.
Proof.
  unfold fillFrame, fillPayload.
  rewrite (foldl_insert_seq_length
             (fun j => (md5 (hashText SEED sizeMB variant batch i)
                          !!! (j mod length (md5 (hashText SEED sizeMB variant batch i)))%nat)
                       mod 256)).
  apply writeFrom_length.
Qed.

(** After [k] turns the first [k] frames are written and the rest of the
    buffer is as allocated. *)
Lemma fillFrames_prefix md5 SEED sizeMB variant batch buf k :
  (k * 417 <= length buf)%nat ->
  foldl (fillFrame md5 SEED sizeMB variant batch) buf (seq 0 k)
  = concat ((fun i => frameOf (md5 (hashText SEED sizeMB variant batch i))) <$> seq 0 k)
    ++ drop (k * 417) buf.
Proof.
  induction k as [|k IH]; intros Hlen.
  - by rewrite drop_0.
  - rewrite seq_S, foldl_app, fmap_app, concat_app. cbn [foldl fmap list_fmap concat app].
    rewrite IH by lia. clear IH.
    set (P := concat _).
    assert (HP : length P = (k * 417)%nat).
    { unfold P. rewrite length_concat, <- list_fmap_compose.
      rewrite (sum_list_fmap_same 417); [by rewrite length_seq|].
      apply Forall_forall. intros x _. apply frameOf_length. }
    rewrite fillFrame_spec by (rewrite length_app, length_drop; lia).
    rewrite take_app_length' by done.
    rewrite drop_app_ge by lia. rewrite drop_drop.
    rewrite app_nil_r, <- !app_assoc. do 2 f_equal. f_equal. lia.
Qed.

(** A batch is the concatenation of its frames. *)
Lemma batchBuffer_frames md5 SEED sizeMB variant numFrames batch :
  batchBuffer md5 SEED sizeMB variant numFrames batch
  = concat ((fun i => frameOf (md5 (hashText SEED sizeMB variant batch i)))
              <$> seq 0 (framesInBatch numFrames batch)).
Proof.
  unfold batchBuffer. change frameSize with 417%nat.
  rewrite fillFrames_prefix by (by rewrite length_replicate).
  rewrite drop_ge by (by rewrite length_replicate). by rewrite app_nil_r.
Qed.


Lemma frameAt_chunk md5 SEED sizeMB variant (m r : nat) :
  (r <= Z.to_nat batchSize)%nat ->
  frameAt md5 SEED sizeMB variant <$> seq (m * Z.to_nat batchSize) r
  = (fun i => frameOf (md5 (hashText SEED sizeMB variant m i))) <$> seq 0 r.
Proof.
  intros Hr. set (B := Z.to_nat batchSize) in *.
  replace (m * B)%nat with (m * B + 0)%nat by lia.
  rewrite <- fmap_add_seq, <- list_fmap_compose.
  apply list_fmap_ext. intros j i Hi. apply lookup_seq in Hi as [-> Hi].
  unfold frameAt, compose. fold B.
  replace ((m * B + (0 + j)) / B)%nat with m
    by (apply Nat.div_unique with (r := j); lia).
  replace ((m * B + (0 + j)) mod B)%nat with j
    by (apply Nat.mod_unique with (q := m); lia).
  reflexivity.
Qed.

Lemma framesInBatch_full (n : Z) (b : nat) :
  (Z.of_nat b + 1) * 10000 <= n -> framesInBatch n b = Z.to_nat batchSize.
Proof. intros H. unfold framesInBatch, batchSize. lia. Qed.

Lemma framesInBatch_last (n : Z) (b : nat) :
  Z.of_nat b * 10000 <= n <= (Z.of_nat b + 1) * 10000 ->
  framesInBatch n b = Z.to_nat (n - Z.of_nat b * 10000).
Proof. intros H. unfold framesInBatch, batchSize. lia. Qed.

Lemma full_batches_flatten md5 SEED sizeMB variant (n : Z) (m : nat) :
  Z.of_nat m * 10000 <= n ->
  concat (batchBuffer md5 SEED sizeMB variant n <$> seq 0 m)
  = concat (frameAt md5 SEED sizeMB variant <$> seq 0 (m * Z.to_nat batchSize)).
Proof.
  induction m as [|m IH]; intros Hm; [done|].
  rewrite seq_S, fmap_app, concat_app, IH by lia.
  replace (S m * Z.to_nat batchSize)%nat
    with (m * Z.to_nat batchSize + Z.to_nat batchSize)%nat by lia.
  rewrite seq_app, fmap_app, concat_app. f_equal.
  cbn [fmap list_fmap concat]. rewrite app_nil_r.
  rewrite batchBuffer_frames, framesInBatch_full by lia.
  by rewrite <- frameAt_chunk.
Qed.

(** The batches, flattened: the frames in order. *)
Lemma batches_flatten md5 SEED sizeMB variant (n : Z) :
  0 <= n ->
  concat (batchBuffer md5 SEED sizeMB variant n <$> seq 0 (Z.to_nat (Num.ceil_div n 10000)))
  = concat (frameAt md5 SEED sizeMB variant <$> seq 0 (Z.to_nat n)).
Proof.
  intros Hn. unfold Num.ceil_div.
  destruct (decide (n = 0)) as [->|Hpos]; [done|].
  assert (Hb : exists m : nat, Z.of_nat m * 10000 < n <= (Z.of_nat m + 1) * 10000
                               /\ - (- n / 10000) = Z.of_nat m + 1).
  { exists (Z.to_nat (- (- n / 10000) - 1)).
    rewrite Z2Nat.id by (Z.to_euclidean_division_equations; lia).
    Z.to_euclidean_division_equations; lia. }
  destruct Hb as (m & Hm & ->).
  replace (Z.to_nat (Z.of_nat m + 1)) with (S m) by lia.
  rewrite seq_S, fmap_app, concat_app, full_batches_flatten by lia.
  replace (Z.to_nat n)
    with (m * Z.to_nat batchSize + Z.to_nat (n - Z.of_nat m * 10000))%nat
    by (unfold batchSize; lia).
  rewrite seq_app, fmap_app, concat_app. f_equal.
  cbn [fmap list_fmap concat]. rewrite app_nil_r.
  rewrite batchBuffer_frames, framesInBatch_last by lia.
  rewrite <- frameAt_chunk by (unfold batchSize; lia). done.
Qed.

Lemma frames_length md5 SEED sizeMB variant (n : nat) :
  length (concat (frameAt md5 SEED sizeMB variant <$> seq 0 n)) = (n * 417)%nat.
Proof.
  rewrite length_concat, <- list_fmap_compose.
  rewrite (sum_list_fmap_same 417); [by rewrite length_seq|].
  apply Forall_forall. intros x _. apply frameOf_length.
Qed.

(** For the four sizes of the script the two float quotients are the exact
    ceilings. *)
Lemma numFrames_exact sizeMB :
  sizeMB ∈ FILE_SIZES ->
  ceilQuotient (sizeMB * 1024 * 1024) (Z.of_nat frameSize)
  = Num.ceil_div (sizeMB * 1024 * 1024) 417
  /\ ceilQuotient (Num.ceil_div (sizeMB * 1024 * 1024) 417) batchSize
     = Num.ceil_div (Num.ceil_div (sizeMB * 1024 * 1024) 417) 10000.
Proof.
  unfold FILE_SIZES. rewrite !elem_of_cons, elem_of_nil.
  intros [-> | [-> | [-> | [-> | []]]]]; split; vm_compute; reflexivity.
Qed.


Lemma bytesOf_inj a b : bytesOf a = bytesOf b -> a = b.
Proof.
  revert b. induction a as [|c a IH]; intros [|d b]; cbn [bytesOf]; try done.
  intros [= Hc Hab]. f_equal; [|by apply IH].
  apply Nat2Z.inj in Hc. rewrite <- (ascii_nat_embedding c), <- (ascii_nat_embedding d).
  by rewrite Hc.
Qed.

(** No decimal numeral contains the letter M. *)
Lemma pretty_N_go_no_M x s :
  Forall (fun b => b <> 77) (bytesOf s) ->
  Forall (fun b => b <> 77) (bytesOf (pretty_N_go x s)).
Proof.
  revert s. induction (N.lt_wf_0 x) as [x _ IH]; intros s Hs.
  assert (x = 0 \/ 0 < x)%N as [-> | Hpos] by lia.
  - by rewrite pretty_N_go_0.
  - rewrite pretty_N_go_step by done. apply IH; [by apply N.div_lt|].
    cbn [bytesOf]. apply Forall_cons_2; [|done].
    unfold pretty_N_char. by repeat case_match.
Qed.

Lemma pretty_Z_no_M (z : Z) : Forall (fun b => b <> 77) (bytesOf (pretty z)).
Proof.
  assert (HN : forall n : N, Forall (fun b => b <> 77) (bytesOf (pretty n))).
  { intros n. unfold pretty, pretty_N. case_decide.
    - by repeat constructor.
    - apply pretty_N_go_no_M. constructor. }
  destruct z as [|p|p]; unfold pretty, pretty_Z.
  - by repeat constructor.
  - apply HN.
  - rewrite bytesOf_app. apply Forall_app_2; [by repeat constructor|apply HN].
Qed.

Lemma app_sep_inj (m : Z) (a a' b b' : list Z) :
  Forall (fun x => x <> m) a -> Forall (fun x => x <> m) a' ->
  a ++ m :: b = a' ++ m :: b' -> a = a' /\ b = b'.
Proof.
  revert a'. induction a as [|x a IH]; intros [|x' a'] Ha Ha'; cbn [app].
  - by intros [= ->].
  - intros [= <- _]. by apply Forall_cons_1 in Ha' as [? _].
  - intros [= -> _]. by apply Forall_cons_1 in Ha as [? _].
  - intros [= -> Heq].
    apply Forall_cons_1 in Ha as [_ Ha]. apply Forall_cons_1 in Ha' as [_ Ha'].
    destruct (IH _ Ha Ha' Heq) as [-> ->]. done.
Qed.

Lemma titleOf_inj SEED sizeMB variant sizeMB' variant' :
  titleOf SEED sizeMB variant = titleOf SEED sizeMB' variant' ->
  sizeMB = sizeMB' /\ variant = variant'.
Proof.
  intros H. apply (f_equal bytesOf) in H. unfold titleOf in H.
  rewrite !bytesOf_app in H.
  do 3 apply app_inv_head in H.
  change (bytesOf "MB-v") with (77 :: bytesOf "B-v") in H. cbn [app] in H.
  apply app_sep_inj in H as [Hs Hv]; try apply pretty_Z_no_M.
  apply app_inv_head in Hv.
  split; apply (inj pretty); by apply bytesOf_inj.
Qed.

End GeneratorFacts.

(** The file that [generateMp3File] returns for a size of the script: the
    tag, then the frames in order. *)
Lemma generateMp3File_frames
    (md5 : string -> list Z) (SEED : string) (sizeMB variant : Z) :
  sizeMB ∈ Generator.FILE_SIZES ->
  Generator.generateMp3File md5 SEED sizeMB variant
  = Generator.createMinimalId3Tag SEED sizeMB variant
    ++ concat (Generator.frameAt md5 SEED sizeMB variant
                 <$> seq 0 (Z.to_nat (Num.ceil_div (sizeMB * 1024 * 1024) 417))).
Proof.
  intros Hsize.
  assert (Hpos : 5 <= sizeMB <= 100).
  { unfold Generator.FILE_SIZES in Hsize. rewrite !elem_of_cons, elem_of_nil in Hsize. lia. }
  unfold Generator.generateMp3File.
  destruct (numFrames_exact sizeMB Hsize) as [-> ->].
  cbn [concat]. f_equal. apply batches_flatten.
  unfold Num.ceil_div. Z.to_euclidean_division_equations; lia.
Qed.

(** X7. For each of the four sizes the script generates, the file that
    [generateMp3File] returns is the ID3 tag followed by
    [ceil (sizeMB * 2^20 / 417)] frames of 417 bytes, frame [k] being the
    header [FF FB 90 00] and the MD5 digest of the text that names batch
    [k / 10000] and position [k mod 10000], repeated from its fifth byte.
    So the file has [45 + |title| + 417 * frames] bytes, at least 45 more
    than the nominal [sizeMB * 2^20]. *)
Theorem generated_file_layout
    (md5 : string -> list Z) (SEED : string) (sizeMB variant : Z) :
  sizeMB ∈ Generator.FILE_SIZES ->
  let numFrames := Z.to_nat (Num.ceil_div (sizeMB * 1024 * 1024) 417) in
  let file := Generator.generateMp3File md5 SEED sizeMB variant in
  file = Generator.createMinimalId3Tag SEED sizeMB variant
         ++ concat (Generator.frameAt md5 SEED sizeMB variant <$> seq 0 numFrames)
  /\ length file
     = (45 + String.length (Generator.titleOf SEED sizeMB variant) + numFrames * 417)%nat
  /\ sizeMB * 1024 * 1024 + 45 <= Z.of_nat (length file).
Proof.
  intros Hsize numFrames file.
  assert (Hpos : 5 <= sizeMB <= 100).
  { unfold Generator.FILE_SIZES in Hsize. rewrite !elem_of_cons, elem_of_nil in Hsize. lia. }
  pose proof (generateMp3File_frames md5 SEED sizeMB variant Hsize) as Hfile.
  fold file numFrames in Hfile.
  split; [done|].
  assert (Hlen : length file
     = (45 + String.length (Generator.titleOf SEED sizeMB variant) + numFrames * 417)%nat).
  { rewrite Hfile, length_app, createMinimalId3Tag_length, frames_length. done. }
  split; [done|].
  rewrite Hlen. unfold numFrames, Num.ceil_div.
  Z.to_euclidean_division_equations; lia.
Qed.

Lemma generated_file_layout_witness :
  let md5 := fun _ : string => replicate 16 0 in
  let numFrames := Z.to_nat (Num.ceil_div (5 * 1024 * 1024) 417) in
  let file := Generator.generateMp3File md5 "42" 5 0 in
  file = Generator.createMinimalId3Tag "42" 5 0
         ++ concat (Generator.frameAt md5 "42" 5 0 <$> seq 0 numFrames)
  /\ length file = (45 + String.length (Generator.titleOf "42" 5 0) + numFrames * 417)%nat
  /\ 5 * 1024 * 1024 + 45 <= Z.of_nat (length file).
Proof.
  apply (generated_file_layout (fun _ => replicate 16 0) "42" 5 0).
  apply list_elem_of_here.
Defined.

(** X4. A frame that [createId3Frame] builds for a four-character id
    starts with the id; the four bytes after it, read big-endian, are the
    number of bytes that follow the ten-byte frame header; and those bytes
    are the encoding byte 0 and the text. *)
Theorem id3_frame_size_field (frameId text : string) :
  String.length frameId = 4%nat ->
  Z.of_nat (String.length text) + 1 < 2 ^ 32 ->
  let frame := Generator.createId3Frame frameId text in
  take 4 frame = Generator.bytesOf frameId
  /\ Generator.beDecode (take 4 (drop 4 frame)) = Z.of_nat (length (drop 10 frame))
  /\ drop 10 frame = 0 :: Generator.bytesOf text.
Proof.
  intros Hid Hlen frame. unfold frame. rewrite createId3Frame_bytes.
  assert (H4 : length (Generator.bytesOf frameId) = 4%nat) by (by rewrite bytesOf_length).
  pose proof (beDecode_bigEndian (Z.of_nat (String.length text) + 1)) as Hbe.
  rewrite Z.mod_small in Hbe by lia.
  set (be := Upload.bigEndian 4 _) in *.
  assert (Hbytes : exists b0 b1 b2 b3, be = [b0; b1; b2; b3]) by (cbn; eauto).
  destruct Hbytes as (b0 & b1 & b2 & b3 & Ebe).
  destruct (Generator.bytesOf frameId) as [|a0 [|a1 [|a2 [|a3 [|]]]]]; try discriminate H4.
  rewrite Ebe. cbn [app take drop length]. rewrite <- Ebe, Hbe, bytesOf_length.
  split; [done|]. split; [lia|done].
Qed.

Lemma id3_frame_size_field_witness :
  let frame := Generator.createId3Frame "TIT2" "Test 42-5MB-v0" in
  take 4 frame = Generator.bytesOf "TIT2"
  /\ Generator.beDecode (take 4 (drop 4 frame)) = Z.of_nat (length (drop 10 frame))
  /\ drop 10 frame = 0 :: Generator.bytesOf "Test 42-5MB-v0".
Proof.
  apply (id3_frame_size_field "TIT2" "Test 42-5MB-v0"); [reflexivity|vm_compute; reflexivity].
Defined.

(** X5. The tag that [createMinimalId3Tag] builds starts with ["ID3"],
    version 2.3 and no flags; each of its four size bytes is below 128, and
    read as groups of seven bits they give the number of bytes that follow
    the ten-byte header, which are the title frame and the artist frame;
    the tag has [45 + |title|] bytes. *)
Theorem id3_tag_declares_its_size (SEED : string) (sizeMB variant : Z) :
  Z.of_nat (String.length (Generator.titleOf SEED sizeMB variant)) + 35 < 2 ^ 28 ->
  let tag := Generator.createMinimalId3Tag SEED sizeMB variant in
  take 6 tag = [73; 68; 51; 3; 0; 0]
  /\ Forall (fun b => 0 <= b < 128) (take 4 (drop 6 tag))
  /\ Generator.syncsafeDecode (take 4 (drop 6 tag)) = Z.of_nat (length (drop 10 tag))
  /\ drop 10 tag
     = Generator.createId3Frame "TIT2" (Generator.titleOf SEED sizeMB variant)
       ++ Generator.createId3Frame "TPE1" "M3W Load Test"
  /\ length tag = (45 + String.length (Generator.titleOf SEED sizeMB variant))%nat.
Proof.
  intros Hlen tag. unfold tag.
  rewrite createMinimalId3Tag_length, createMinimalId3Tag_bytes.
  set (frames := Generator.createId3Frame "TIT2" _ ++ _).
  assert (Hframes : length frames
                    = (35 + String.length (Generator.titleOf SEED sizeMB variant))%nat).
  { unfold frames. rewrite length_app, !createId3Frame_length. simpl. lia. }
  pose proof (syncsafeDecode_septets (Z.of_nat (length frames))) as Hdec.
  fold (Generator.septets (Z.of_nat (length frames))) in Hdec.
  rewrite Z.mod_small in Hdec by lia.
  assert (Hsmall : Forall (fun b => 0 <= b < 128)
                           (Generator.septets (Z.of_nat (length frames)))).
  { unfold Generator.septets. repeat apply Forall_cons_2; try apply Forall_nil_2;
      Z.to_euclidean_division_equations; lia. }
  set (ss := Generator.septets _) in *.
  assert (Hbytes : exists b0 b1 b2 b3, ss = [b0; b1; b2; b3]) by (cbn; eauto).
  destruct Hbytes as (b0 & b1 & b2 & b3 & Ess).
  rewrite Ess. cbn [app take drop]. rewrite take_0, drop_0, <- Ess.
  split; [done|]. split; [done|]. split; [done|]. split; done.
Qed.

Lemma id3_tag_declares_its_size_witness :
  let tag := Generator.createMinimalId3Tag "42" 5 0 in
  take 6 tag = [73; 68; 51; 3; 0; 0]
  /\ Forall (fun b => 0 <= b < 128) (take 4 (drop 6 tag))
  /\ Generator.syncsafeDecode (take 4 (drop 6 tag)) = Z.of_nat (length (drop 10 tag))
  /\ drop 10 tag
     = Generator.createId3Frame "TIT2" (Generator.titleOf "42" 5 0)
       ++ Generator.createId3Frame "TPE1" "M3W Load Test"
  /\ length tag = (45 + String.length (Generator.titleOf "42" 5 0))%nat.
Proof.
  apply (id3_tag_declares_its_size "42" 5 0). vm_compute. reflexivity.
Defined.

(** X8. [createUniqueFileData] on a generated base file: whatever the
    worker, the iteration and the clock, the buffer it returns still starts
    with the ID3 tag and the header of the first frame exactly when the
    title of the file has at most 51 bytes; a longer title moves the tag or
    the frame header under the stamp at offsets 100 to 115. *)
Theorem stamp_spares_tag_and_frame_header
    (md5 : string -> list Z) (SEED : string) (sizeMB variant : Z)
    (h : Upload.Heap) (baseFileData : nat) :
  sizeMB ∈ Generator.FILE_SIZES ->
  h !! baseFileData = Some (Generator.generateMp3File md5 SEED sizeMB variant) ->
  (forall now vu iter, exists u h' b,
      Upload.createUniqueFileData baseFileData now vu iter h = Normal (u, h')
      /\ h' !! u = Some b
      /\ take (length (Generator.createMinimalId3Tag SEED sizeMB variant) + 4) b
         = Generator.createMinimalId3Tag SEED sizeMB variant ++ Generator.frameHeader)
  <-> (String.length (Generator.titleOf SEED sizeMB variant) <= 51)%nat.
Proof.
  intros Hsize Hbase.
  pose proof (generateMp3File_frames md5 SEED sizeMB variant Hsize) as Hfile.
  set (file := Generator.generateMp3File md5 SEED sizeMB variant) in *.
  set (tag := Generator.createMinimalId3Tag SEED sizeMB variant) in *.
  assert (Htag : length tag
                 = (45 + String.length (Generator.titleOf SEED sizeMB variant))%nat)
    by apply createMinimalId3Tag_length.
  assert (Hpos : 5 <= sizeMB).
  { unfold Generator.FILE_SIZES in Hsize. rewrite !elem_of_cons, elem_of_nil in Hsize. lia. }
  assert (Hbig : (116 <= length file)%nat).
  { rewrite Hfile, length_app, frames_length. unfold Num.ceil_div.
    Z.to_euclidean_division_equations; lia. }
  assert (Hprefix : take (length tag + 4) file = tag ++ Generator.frameHeader).
  { rewrite Hfile.
    destruct (Z.to_nat (Num.ceil_div (sizeMB * 1024 * 1024) 417)) as [|n] eqn:En.
    { exfalso. unfold Num.ceil_div in En. Z.to_euclidean_division_equations; lia. }
    cbn [seq fmap list_fmap concat]. unfold Generator.frameAt at 1, Generator.frameOf.
    rewrite take_app_add' by done. apply (f_equal (app tag)). reflexivity. }
  assert (Hrun : forall now vu iter,
             Upload.createUniqueFileData baseFileData now vu iter h
             = Normal (fresh (dom h),
                       <[fresh (dom h) := Upload.uniqueBytes file now vu iter]> h))
    by (intros; by apply createUniqueFileData_run).
  split.
  - intros Hall.
    destruct (decide (String.length (Generator.titleOf SEED sizeMB variant) <= 51)%nat)
      as [|Hlong]; [done|exfalso].
    assert (H100 : (100 < length (tag ++ Generator.frameHeader))%nat)
      by (rewrite length_app, Htag; change (length Generator.frameHeader) with 4%nat; lia).
    destruct (lookup_lt_is_Some_2 _ _ H100) as [v Hv].
    destruct (Hall 0 (((v + 1) mod 256) * 2 ^ 24) 0) as (u & h' & b & Hb & Hu & Hpre).
    rewrite Hrun in Hb. injection Hb as <- <-.
    rewrite lookup_insert_eq in Hu. injection Hu as <-.
    assert (Hw : Upload.uniqueBytes file 0 (((v + 1) mod 256) * 2 ^ 24) 0 !! 100%nat
                 = Some ((v + 1) mod 256)).
    { change 100%nat with (100 + 0)%nat.
      rewrite uniqueBytes_inside by lia.
      rewrite <- list_lookup_fmap, stampValues_words.
      cbn [Upload.bigEndian app lookup list_lookup].
      change (8 * Z.of_nat 3) with 24. rewrite Z.shiftr_div_pow2 by lia.
      change (2 ^ 24) with 16777216. rewrite Z.div_mul by lia.
      f_equal. apply Z.mod_mod. lia. }
    rewrite <- Hpre in Hv. rewrite lookup_take_lt in Hv by lia.
    rewrite Hw in Hv. injection Hv as Hv.
    Z.to_euclidean_division_equations; lia.
  - intros Hshort now vu iter.
    exists (fresh (dom h)), (<[fresh (dom h) := Upload.uniqueBytes file now vu iter]> h),
      (Upload.uniqueBytes file now vu iter).
    split; [apply Hrun|]. split; [apply lookup_insert_eq|].
    rewrite <- Hprefix. apply list_eq. intros j.
    destruct (decide (j < length tag + 4)%nat).
    + rewrite !lookup_take_lt by done. apply uniqueBytes_outside. lia.
    + by rewrite !lookup_take_ge by lia.
Qed.

Lemma stamp_spares_tag_and_frame_header_witness :
  let md5 := fun _ : string => replicate 16 0 in
  let h : Upload.Heap := {[ 0%nat := Generator.generateMp3File md5 "42" 5 0 ]} in
  (forall now vu iter, exists u h' b,
      Upload.createUniqueFileData 0 now vu iter h = Normal (u, h')
      /\ h' !! u = Some b
      /\ take (length (Generator.createMinimalId3Tag "42" 5 0) + 4) b
         = Generator.createMinimalId3Tag "42" 5 0 ++ Generator.frameHeader)
  <-> (String.length (Generator.titleOf "42" 5 0) <= 51)%nat.
Proof.
  apply (stamp_spares_tag_and_frame_header (fun _ => replicate 16 0) "42" 5 0
           {[ 0%nat := Generator.generateMp3File (fun _ => replicate 16 0) "42" 5 0 ]} 0%nat).
  - apply list_elem_of_here.
  - apply lookup_singleton_eq.
Defined.

(** X6. Under one seed, and for sizes and variant numbers that are
    integers of magnitude at most [2 ^ 53], [createMinimalId3Tag] gives the
    same tag for two files only when their sizes and their variant numbers
    are the same: the title in the tag tells the files of a run apart. *)
Theorem tags_tell_variants_apart (SEED : string) (sizeMB variant sizeMB' variant' : Z) :
  - 2 ^ 53 <= sizeMB <= 2 ^ 53 -> - 2 ^ 53 <= variant <= 2 ^ 53 ->
  - 2 ^ 53 <= sizeMB' <= 2 ^ 53 -> - 2 ^ 53 <= variant' <= 2 ^ 53 ->
  Generator.createMinimalId3Tag SEED sizeMB variant
  = Generator.createMinimalId3Tag SEED sizeMB' variant'
  <-> sizeMB = sizeMB' /\ variant = variant'.
Proof.
  intros _ _ _ _.
  split; [|by intros [-> ->]].
  rewrite !createMinimalId3Tag_bytes. cbv zeta. intros H.
  apply app_inv_head in H.
  apply app_inj_1 in H as [_ H]; [|done].
  apply app_inj_2 in H as [H _]; [|by rewrite !createId3Frame_length].
  rewrite !createId3Frame_bytes in H.
  apply app_inv_head in H.
  apply app_inj_1 in H as [_ H]; [|by rewrite !bigEndian_length].
  apply app_inv_head in H.
  apply bytesOf_inj in H. by apply (titleOf_inj SEED).
Qed.

Lemma tags_tell_variants_apart_witness :
  Generator.createMinimalId3Tag "42" 5 0 = Generator.createMinimalId3Tag "42" 5 1
  <-> 5 = 5 /\ 0 = 1.
Proof.
  apply (tags_tell_variants_apart "42" 5 0 5 1); lia.
Defined.

Section StampCollisions.
Import Upload.

Lemma bigEndian4_inj a b :
  bigEndian 4 a = bigEndian 4 b <-> a mod 2 ^ 32 = b mod 2 ^ 32.
Proof.
  cbn [bigEndian].
  change (8 * Z.of_nat 3) with 24. change (8 * Z.of_nat 2) with 16.
  change (8 * Z.of_nat 1) with 8. change (8 * Z.of_nat 0) with 0.
  rewrite !Z.shiftr_div_pow2 by lia.
  change (2 ^ 24) with 16777216. change (2 ^ 16) with 65536. change (2 ^ 8) with 256.
  change (2 ^ 0) with 1. change (2 ^ 32) with 4294967296.
  split.
  - intros [= H3 H2 H1 H0]. Z.to_euclidean_division_equations. lia.
  - intros H.
    assert (a / 16777216 mod 256 = b / 16777216 mod 256) as ->
      by (Z.to_euclidean_division_equations; lia).
    assert (a / 65536 mod 256 = b / 65536 mod 256) as ->
      by (Z.to_euclidean_division_equations; lia).
    assert (a / 256 mod 256 = b / 256 mod 256) as ->
      by (Z.to_euclidean_division_equations; lia).
    assert (a / 1 mod 256 = b / 1 mod 256) as ->
      by (Z.to_euclidean_division_equations; lia).
    reflexivity.
Qed.

(** The bytes written depend on the three low words only, and determine
    them. *)
Lemma stamp_words_inj now vu iter now' vu' iter' :
  (fun v => v mod 256) <$> stampValues now vu iter
  = (fun v => v mod 256) <$> stampValues now' vu' iter'
  <-> vu mod 2 ^ 32 = vu' mod 2 ^ 32
      /\ iter mod 2 ^ 32 = iter' mod 2 ^ 32
      /\ now mod 2 ^ 32 = now' mod 2 ^ 32.
Proof.
  rewrite !stampValues_words. split.
  - intros H.
    apply app_inj_1 in H as [Hvu H]; [|by rewrite !bigEndian_length].
    apply app_inj_1 in H as [Hiter H]; [|by rewrite !bigEndian_length].
    apply app_inj_1 in H as [Hnow _]; [|by rewrite !bigEndian_length].
    by rewrite <- !bigEndian4_inj.
  - rewrite <- !bigEndian4_inj. by intros (-> & -> & ->).
Qed.

Lemma uniqueBytes_eq_iff base now vu iter now' vu' iter' :
  (116 <= length base)%nat ->
  uniqueBytes base now vu iter = uniqueBytes base now' vu' iter'
  <-> (fun v => v mod 256) <$> stampValues now vu iter
      = (fun v => v mod 256) <$> stampValues now' vu' iter'.
Proof.
  intros Hlen. split.
  - intros H. rewrite <- !(uniqueBytes_window base) by done. by rewrite H.
  - intros H. apply list_eq. intros j.
    destruct (decide (j < 100 \/ 116 <= j)%nat) as [Hout|Hin].
    + by rewrite !uniqueBytes_outside.
    + replace j with (100 + (j - 100))%nat by lia.
      rewrite !uniqueBytes_inside by lia.
      by rewrite <- !list_lookup_fmap, H.
Qed.

End StampCollisions.

(** X3. *)
(** X3. On a base file of at least 116 bytes, two calls of
    [createUniqueFileData] return buffers with the same bytes exactly when
    the worker ids, the iterations and the clock values agree modulo
    [2 ^ 32]: only the low 32 bits of each enter the payload. *)
Theorem unique_payload_collisions
    (h : Upload.Heap) (baseFileData : nat) (base : list Z) (now vu iter now' vu' iter' : Z) :
  h !! baseFileData = Some base ->
  (116 <= length base)%nat ->
  exists u h1 h2 b b',
    Upload.createUniqueFileData baseFileData now vu iter h = Normal (u, h1)
    /\ Upload.createUniqueFileData baseFileData now' vu' iter' h = Normal (u, h2)
    /\ h1 !! u = Some b /\ h2 !! u = Some b'
    /\ (b = b' <-> vu mod 2 ^ 32 = vu' mod 2 ^ 32
                   /\ iter mod 2 ^ 32 = iter' mod 2 ^ 32
                   /\ now mod 2 ^ 32 = now' mod 2 ^ 32).
Proof.
  intros Hbase Hlen.
  exists (fresh (dom h)), (<[fresh (dom h) := Upload.uniqueBytes base now vu iter]> h),
    (<[fresh (dom h) := Upload.uniqueBytes base now' vu' iter']> h),
    (Upload.uniqueBytes base now vu iter), (Upload.uniqueBytes base now' vu' iter').
  split; [by apply createUniqueFileData_run|].
  split; [by apply createUniqueFileData_run|].
  split; [apply lookup_insert_eq|]. split; [apply lookup_insert_eq|].
  rewrite uniqueBytes_eq_iff by done. apply stamp_words_inj.
Qed.

Lemma unique_payload_collisions_witness :
  let h : Upload.Heap := {[ 0%nat := replicate 116 0 ]} in
  exists u h1 h2 b b',
    Upload.createUniqueFileData 0 1700000000000 1 2 h = Normal (u, h1)
    /\ Upload.createUniqueFileData 0 (1700000000000 + 2 ^ 32) 1 2 h = Normal (u, h2)
    /\ h1 !! u = Some b /\ h2 !! u = Some b'
    /\ (b = b' <-> 1 mod 2 ^ 32 = 1 mod 2 ^ 32 /\ 2 mod 2 ^ 32 = 2 mod 2 ^ 32
                   /\ 1700000000000 mod 2 ^ 32 = (1700000000000 + 2 ^ 32) mod 2 ^ 32).
Proof.
  apply (unique_payload_collisions {[ 0%nat := replicate 116 0 ]} 0 (replicate 116 0)
           1700000000000 1 2 (1700000000000 + 2 ^ 32) 1 2).
  - apply lookup_singleton_eq.
  - vm_compute. lia.
Defined.

Section EnvFacts.
Import Env.
Local Open Scope string_scope.

Lemma split_nonempty c s : Str.split c s <> [].
Proof. destruct s as [|d s]; cbn; [done|]. destruct (Ascii.eqb d c); [done|]. by destruct (Str.split c s). Qed.

(** Splitting at a separator that the first part lacks. *)
Lemma split_app c (a b : string) :
  lacks c a = true -> Str.split c (a ++ String c b) = a :: Str.split c b.
Proof.
  intros Ha. induction a as [|d a IH]; simpl.
  - by rewrite Ascii.eqb_refl.
  - simpl in Ha. apply andb_true_iff in Ha as [Hd Ha]. apply negb_true_iff in Hd.
    rewrite Hd, (IH Ha). done.
Qed.

Lemma split_lacks c (a : string) : lacks c a = true -> Str.split c a = [a].
Proof.
  intros Ha. induction a as [|d a IH]; simpl; [done|].
  simpl in Ha. apply andb_true_iff in Ha as [Hd Ha]. apply negb_true_iff in Hd.
  rewrite Hd, (IH Ha). done.
Qed.

(** Joining what was split gives the string back. *)
Lemma join_split c (s : string) : join (String c "") (Str.split c s) = s.
Proof.
  induction s as [|d s IH]; [done|]. cbn [Str.split].
  destruct (Ascii.eqb_spec d c) as [->|Hne].
  - pose proof (split_nonempty c s) as Hs.
    cbn [join]. destruct (Str.split c s) as [|w ws]; [done|]. by rewrite IH.
  - destruct (Str.split c s) as [|w ws] eqn:E; [by destruct (split_nonempty c s)|].
    cbn [join] in *. destruct ws; simpl in *; by rewrite <- IH.
Qed.



Lemma app_assoc_string (a b c : string) : (a ++ b) ++ c = a ++ (b ++ c).
Proof.
  induction a as [|d a IH]; [done|].
  change (String d ((a ++ b) ++ c) = String d (a ++ (b ++ c))). by rewrite IH.
Qed.

(** The lines of a written file are the entry lines and a last empty
    line. *)
Lemma split_join_lines (ls : list string) :
  Forall (fun l => lacks "010" l = true) ls ->
  Str.split "010" (join LF ls ++ LF)
  = match ls with [] => [""; ""] | _ => (ls ++ [""])%list end.
Proof.
  induction 1 as [|l ls Hl Hls IH]; [reflexivity|].
  cbn [join]. destruct ls as [|l' ls'].
  - unfold LF. rewrite split_app by done. reflexivity.
  - rewrite !app_assoc_string.
    change (LF ++ (join LF (l' :: ls') ++ LF))
      with (String "010" (join LF (l' :: ls') ++ LF)).
    rewrite split_app by done. by rewrite IH.
Qed.

Lemma lacks_app c a b : lacks c (a ++ b) = lacks c a && lacks c b.
Proof.
  unfold lacks. induction a as [|d a IH]; simpl; [done|]. by rewrite IH, andb_assoc.
Qed.

Lemma truthy_nonempty s : s <> "" -> truthy s = true.
Proof. by destruct s. Qed.

(** A written line, read back by the runners. *)
Lemma runnerAssignment_line (k v : string) :
  k <> "" -> lacks "=" k = true -> Str.trim k = k -> Str.trim v = v ->
  runnerAssignment (k ++ "=" ++ v) = Some (k, v).
Proof.
  intros Hk Heq Htk Htv. unfold runnerAssignment.
  change ("=" ++ v) with (String "=" v). rewrite split_app by done.
  rewrite truthy_nonempty by done.
  rewrite bool_decide_true
    by (pose proof (split_nonempty "=" v); destruct (Str.split "=" v); [done|simpl; lia]).
  cbn [andb]. by rewrite join_split, Htk, Htv.
Qed.

Lemma benchmarkAssignment_line (k v : string) :
  k <> "" -> lacks "=" k = true -> Str.trim k = k -> Str.trim v = v ->
  benchmarkAssignment (k ++ "=" ++ v) = Some (k, v).
Proof.
  intros Hk Heq Htk Htv. unfold benchmarkAssignment.
  change ("=" ++ v) with (String "=" v). rewrite split_app by done.
  rewrite truthy_nonempty by done.
  by rewrite join_split, Htk, Htv.
Qed.

Lemma written_lines (config : list (string * string)) :
  Forall Env.plain config ->
  Forall (fun l => lacks "010" l = true) ((fun kv => fst kv ++ "=" ++ snd kv) <$> config).
Proof.
  intros H. apply Forall_fmap. eapply Forall_impl; [exact H|].
  intros [k v] (_ & _ & Hk & Hv). unfold compose. cbn [fst snd] in *.
  rewrite !lacks_app, Hk, Hv. done.
Qed.

Lemma omap_written {B} (g : string -> option B) (config : list (string * string)) :
  Forall Env.plain config -> g "" = None ->
  omap g (Str.split "010" (writeEnvFile config))
  = omap g ((fun kv => fst kv ++ "=" ++ snd kv) <$> config).
Proof.
  intros Hc Hg. unfold writeEnvFile.
  rewrite split_join_lines by by apply written_lines.
  assert (Hnil : omap g [""] = []) by (cbn; by rewrite Hg).
  destruct config as [|kv config]; cbn [fmap list_fmap].
  - change [""; ""] with ([""] ++ [""])%list. by rewrite omap_app, Hnil.
  - rewrite omap_app, Hnil. by rewrite app_nil_r.
Qed.



Lemma omap_cons_Some {A B} (g : A -> option B) x l y :
  g x = Some y -> omap g (x :: l) = y :: omap g l.
Proof. intros H. cbn. by rewrite H. Qed.

Lemma omap_cons_None {A B} (g : A -> option B) x l :
  g x = None -> omap g (x :: l) = omap g l.
Proof. intros H. cbn. by rewrite H. Qed.





End EnvFacts.

(** X9. The env file that the seed script writes is read back entry by
    entry by the runners and by the benchmark: when keys and values are
    ASCII, every key is non-empty and has no [=], keys and values have no
    line feed and no white space at their ends, the assignments of the
    reading loop are the written entries, in order, values with [=] inside
    included. *)
Theorem env_file_round_trip (config : list (string * string)) :
  Forall (fun kv => fst kv <> ""%string /\ Env.lacks "=" (fst kv) = true
                    /\ Env.lacks "010" (fst kv) = true /\ Env.lacks "010" (snd kv) = true
                    /\ Str.trim (fst kv) = fst kv /\ Str.trim (snd kv) = snd kv
                    /\ Env.isAscii (fst kv) = true /\ Env.isAscii (snd kv) = true) config ->
  Env.runnerAssignments (Env.writeEnvFile config) = config
  /\ Env.benchmarkAssignments (Env.writeEnvFile config) = config.
Proof.
  intros Hc.
  assert (Hp : Forall Env.plain config).
  { eapply Forall_impl; [exact Hc|]. intros kv (? & ? & ? & ? & _). by repeat split. }
  unfold Env.runnerAssignments, Env.benchmarkAssignments.
  rewrite !omap_written by done. clear Hp.
  induction Hc as [|[k v] config (Hk & Heq & _ & _ & Htk & Htv & _ & _) _ [IH1 IH2]]; [done|].
  rewrite fmap_cons. cbn [fst snd] in *.
  rewrite (omap_cons_Some _ _ _ _ (runnerAssignment_line k v Hk Heq Htk Htv)).
  rewrite (omap_cons_Some _ _ _ _ (benchmarkAssignment_line k v Hk Heq Htk Htv)).
  by rewrite IH1, IH2.
Qed.

Lemma env_file_round_trip_witness :
  let config := [("BASE_URL", "http://localhost:4000"); ("TEST_USER_TOKEN", "abc.def==");
                 ("TEST_SONG_ID", "")]%string in
  Env.runnerAssignments (Env.writeEnvFile config) = config
  /\ Env.benchmarkAssignments (Env.writeEnvFile config) = config.
Proof.
  apply (env_file_round_trip
           [("BASE_URL", "http://localhost:4000"); ("TEST_USER_TOKEN", "abc.def==");
            ("TEST_SONG_ID", "")]%string).
  repeat (apply Forall_cons_2; [split; [discriminate|vm_compute; tauto]|]).
  apply Forall_nil_2.
Defined.



Section SubstringFacts.
Local Open Scope string_scope.

Lemma startsWith_app (a b pat : string) :
  Str.startsWith a pat = true -> Str.startsWith (a ++ b) pat = true.
Proof.
  revert a. induction pat as [|p pat IH]; intros a.
  - intros _. by destruct (a ++ b).
  - destruct a as [|c a]; simpl; [done|].
    intros H. apply andb_true_iff in H as [-> H]. by apply IH.
Qed.

Lemma includes_prefix (a b pat : string) :
  Str.includes a pat = true -> Str.includes (a ++ b) pat = true.
Proof.
  induction a as [|c a IH]; simpl.
  - rewrite orb_false_r. intros H. destruct pat; [|done]. by destruct b.
  - intros H. apply orb_true_iff in H as [H|H].
    + apply (startsWith_app (String c a) b) in H. simpl in H. by rewrite H.
    + rewrite (IH H). apply orb_true_r.
Qed.

Lemma includes_suffix (a b pat : string) :
  Str.includes b pat = true -> Str.includes (a ++ b) pat = true.
Proof.
  intros H. induction a as [|c a IH]; simpl; [done|]. rewrite IH. apply orb_true_r.
Qed.

Lemma includes_middle (a w b pat : string) :
  Str.includes w pat = true -> Str.includes (a ++ w ++ b) pat = true.
Proof. intros H. by apply includes_suffix, includes_prefix. Qed.

(** The first part of a split is a prefix of the string. *)
Lemma split_first c (s w : string) ws :
  Str.split c s = w :: ws -> exists b, s = w ++ b.
Proof.
  revert w ws. induction s as [|d s IH]; intros w ws; cbn [Str.split].
  - intros [= <- _]. by exists "".
  - destruct (Ascii.eqb d c).
    + intros [= <- _]. by exists (String d s).
    + destruct (Str.split c s) as [|w0 ws0] eqn:E.
      * intros [= <- _]. destruct s as [|e s]; [by exists ""|].
        cbn in E. destruct (Ascii.eqb e c); [done|]. by destruct (Str.split c s).
      * intros [= <- _]. destruct (IH _ _ eq_refl) as [b ->]. by exists b.
Qed.

(** Every part of a split is a piece of the string. *)
Lemma split_piece c (s w : string) :
  w ∈ Str.split c s -> exists a b, s = a ++ w ++ b.
Proof.
  revert w. induction s as [|d s IH]; intros w; cbn [Str.split].
  - intros ->%list_elem_of_singleton. by exists "", "".
  - destruct (Ascii.eqb d c).
    + intros [->|Hin]%elem_of_cons.
      * by exists "", (String d s).
      * destruct (IH _ Hin) as (a & b & ->). by exists (String d a), b.
    + destruct (Str.split c s) as [|w0 ws] eqn:E.
      * intros ->%list_elem_of_singleton.
        destruct s as [|e s]; [by exists "", ""|].
        cbn in E. destruct (Ascii.eqb e c); [done|]. by destruct (Str.split c s).
      * intros [->|Hin]%elem_of_cons.
        -- destruct (split_first _ _ _ _ E) as [b ->]. by exists "", b.
        -- destruct (IH w) as (a & b & ->); [by right|]. by exists (String d a), b.
Qed.

Lemma trimStart_suffix (s : string) : exists a, s = a ++ Str.trimStart s.
Proof.
  induction s as [|c s [a IH]]; [by exists ""|]. cbn [Str.trimStart].
  destruct (Str.is_space c); [|by exists ""].
  exists (String c a). change (String c s = String c (a ++ Str.trimStart s)). by rewrite <- IH.
Qed.

Lemma trimEnd_prefix (s : string) : exists b, s = Str.trimEnd s ++ b.
Proof.
  induction s as [|c s [b IH]]; [by exists ""|]. cbn [Str.trimEnd].
  destruct (Str.trimEnd s) as [|t ts] eqn:E.
  - destruct (Str.is_space c); [by exists (String c s)|]. exists s. done.
  - exists b. change (String c s = String c (String t ts ++ b)). by rewrite <- IH.
Qed.

(** A line of the trimmed output that includes a pattern shows that the
    output includes it. *)
Lemma line_includes (output line pat : string) :
  line ∈ Str.split "010" (Str.trim output) ->
  Str.includes line pat = true -> Str.includes output pat = true.
Proof.
  intros Hin Hpat. apply split_piece in Hin as (a & b & Hs).
  destruct (trimStart_suffix output) as [pre Hpre].
  destruct (trimEnd_prefix (Str.trimStart output)) as [post Hpost].
  rewrite Hpre, Hpost. fold (Str.trim output). rewrite Hs.
  apply includes_suffix, includes_prefix. by apply includes_middle.
Qed.

End SubstringFacts.

Section SamplerRuns.
Local Open Scope string_scope.

Lemma parseLines_unmarked (lines : list string) (cs : gmap string ContainerStats) :
  Forall (fun line => Str.includes line "m3w-load-test" = false) lines ->
  foldl parseLine cs lines = cs.
Proof.
  induction 1 as [|line lines Hline _ IH]; [done|]. cbn [foldl].
  unfold parseLine at 2. by rewrite Hline.
Qed.

Lemma unmarked_lines (output : string) :
  Str.includes output "m3w-load-test" = false ->
  Forall (fun line => Str.includes line "m3w-load-test" = false)
         (Str.split "010" (Str.trim output)).
Proof.
  intros Hout. apply Forall_forall. intros line Hin.
  destruct (Str.includes line "m3w-load-test") eqn:E; [|done].
  by rewrite (line_includes output line _ Hin E) in Hout.
Qed.

Lemma benchmark_parseLines_unmarked (lines : list string) cs :
  Forall (fun line => Str.includes line "m3w-load-test" = false) lines ->
  foldl (fun acc line => match acc with
                         | Benchmark.Ok cs => Benchmark.parseLine cs line
                         | Benchmark.Thrown e => Benchmark.Thrown e
                         end) (Benchmark.Ok cs) lines
  = Benchmark.Ok cs.
Proof.
  induction 1 as [|line lines Hline _ IH]; [done|]. cbn [foldl].
  unfold Benchmark.parseLine at 2. by rewrite Hline.
Qed.

End SamplerRuns.

(** X11. When the stats output names no container of the test, the tick
    of the monitor records nothing, while the tick of the benchmark sampler
    appends a sample without containers. *)
Theorem unmarked_output_is_recorded_by_the_benchmark_only
    (start : Z) (i : TickInput) (samples : list Sample) (output : string) :
  execSync i = Normal output ->
  Str.includes output "m3w-load-test" = false ->
  tick start i samples = Normal samples
  /\ Benchmark.tick start i samples
     = samples ++ [{| timestamp := now i - start; containers := ∅ |}].
Proof.
  intros Hexec Hout. pose proof (unmarked_lines output Hout) as Hlines. split.
  - unfold tick, tickBody. rewrite Hexec. cbn.
    rewrite parseLines_unmarked by done. by rewrite bool_decide_false by (rewrite map_size_empty; lia).
  - unfold Benchmark.tick, Benchmark.tickBody, Benchmark.parseLines. rewrite Hexec.
    by rewrite benchmark_parseLines_unmarked.
Qed.

Lemma unmarked_output_is_recorded_by_the_benchmark_only_witness :
  let i := {| execSync := Normal ("other" ++ String "009" "9%" ++ String "009" "1MiB / 2GiB")%string;
              now := 3000 |} in
  tick 1000 i [] = Normal []
  /\ Benchmark.tick 1000 i [] = [] ++ [{| timestamp := now i - 1000; containers := ∅ |}].
Proof.
  apply (unmarked_output_is_recorded_by_the_benchmark_only 1000
           {| execSync := Normal ("other" ++ String "009" "9%" ++ String "009" "1MiB / 2GiB")%string;
              now := 3000 |} []
           ("other" ++ String "009" "9%" ++ String "009" "1MiB / 2GiB")%string).
  - reflexivity.
  - vm_compute. reflexivity.
Defined.

Section BenchmarkFacts.
Local Open Scope string_scope.

Lemma benchmark_fold_thrown (lines : list string) e :
  foldl (fun acc line => match acc with
                         | Benchmark.Ok cs => Benchmark.parseLine cs line
                         | Benchmark.Thrown e => Benchmark.Thrown e
                         end) (Benchmark.Thrown e) lines
  = Benchmark.Thrown e.
Proof. induction lines as [|l lines IH]; [done|]. exact IH. Qed.

Lemma benchmark_parseLine_short cs (line : string) :
  Str.includes line "m3w-load-test" = true ->
  (length (Str.split "009" line) < 3)%nat ->
  Benchmark.parseLine cs line = Benchmark.Thrown Benchmark.TypeError.
Proof.
  intros Hm Hshort. unfold Benchmark.parseLine. rewrite Hm. cbn [negb].
  by rewrite (lookup_ge_None_2 _ 2%nat) by lia.
Qed.

(** A marked line that is too short makes the loop throw, wherever it
    stands. *)
Lemma benchmark_parseLines_short (lines : list string) (line : string) acc :
  line ∈ lines ->
  Str.includes line "m3w-load-test" = true ->
  (length (Str.split "009" line) < 3)%nat ->
  exists e,
    foldl (fun acc line => match acc with
                           | Benchmark.Ok cs => Benchmark.parseLine cs line
                           | Benchmark.Thrown e => Benchmark.Thrown e
                           end) acc lines
    = Benchmark.Thrown e.
Proof.
  intros Hin Hm Hshort. revert acc.
  induction lines as [|l lines IH]; intros acc; [by apply elem_of_nil in Hin|].
  apply elem_of_cons in Hin as [<-|Hin]; cbn [foldl].
  - destruct acc as [cs|e].
    + rewrite benchmark_parseLine_short by done. rewrite benchmark_fold_thrown. eauto.
    + rewrite benchmark_fold_thrown. eauto.
  - by apply IH.
Qed.

Lemma parseLine_short cs (line : string) :
  (length (Str.split "009" line) < 3)%nat -> parseLine cs line = cs.
Proof.
  intros Hshort. unfold parseLine. destruct (negb _); [done|].
  destruct (Str.split "009" line) as [|a [|b [|c rest]]]; try done. simpl in Hshort. lia.
Qed.

End BenchmarkFacts.

(** X12. A line of the stats output that names a container of the test
    but has fewer than three tab-separated fields makes the tick of the
    benchmark sampler throw inside its [try]: the tick records nothing,
    whatever the other lines hold. The monitor skips such a line. *)
Theorem short_line_loses_the_benchmark_sample
    (start : Z) (i : TickInput) (samples : list Sample) (output line : string) :
  execSync i = Normal output ->
  line ∈ Str.split "010" (Str.trim output) ->
  Str.includes line "m3w-load-test" = true ->
  (length (Str.split "009" line) < 3)%nat ->
  Benchmark.tick start i samples = samples
  /\ forall cs, parseLine cs line = cs.
Proof.
  intros Hexec Hin Hm Hshort. split; [|intros cs; by apply parseLine_short].
  unfold Benchmark.tick, Benchmark.tickBody, Benchmark.parseLines. rewrite Hexec.
  destruct (benchmark_parseLines_short _ line (Benchmark.Ok ∅) Hin Hm Hshort) as [e ->].
  done.
Qed.

Lemma short_line_loses_the_benchmark_sample_witness :
  let output := ("m3w-load-test-api" ++ String "009" "5%"
                 ++ String "010" ("m3w-load-test" ++ String "009" "45.23%"
                                  ++ String "009" "256MiB / 2GiB"))%string in
  Benchmark.tick 1000 {| execSync := Normal output; now := 3000 |} [] = []
  /\ forall cs, parseLine cs ("m3w-load-test-api" ++ String "009" "5%")%string = cs.
Proof.
  apply (short_line_loses_the_benchmark_sample 1000
           {| execSync := Normal ("m3w-load-test-api" ++ String "009" "5%"
                 ++ String "010" ("m3w-load-test" ++ String "009" "45.23%"
                                  ++ String "009" "256MiB / 2GiB"))%string;
              now := 3000 |} []
           ("m3w-load-test-api" ++ String "009" "5%"
                 ++ String "010" ("m3w-load-test" ++ String "009" "45.23%"
                                  ++ String "009" "256MiB / 2GiB"))%string
           ("m3w-load-test-api" ++ String "009" "5%")%string).
  - reflexivity.
  - vm_compute. apply list_elem_of_here.
  - vm_compute. reflexivity.
  - vm_compute. lia.
Defined.

Section RunFacts.

Lemma tick_cases (startTime : Z) (i : TickInput) (samples : list Sample) :
  tick startTime i samples = Normal samples
  \/ exists s, tick startTime i samples = Normal (samples ++ [s])
               /\ timestamp s = now i - startTime /\ containers s <> ∅.
Proof.
  unfold tick, tickBody. destruct (execSync i) as [output|e]; cbn; [|eauto].
  case_bool_decide as Hsize; cbn; [|eauto].
  right. eexists. split; [reflexivity|]. split; [reflexivity|].
  cbn. intros Hempty. rewrite Hempty, map_size_empty in Hsize. lia.
Qed.

Lemma runTicks_invariant (startTime : Z) (ticks : list TickInput) (samples : list Sample) :
  exists new,
    foldl (fun acc i => samples ← acc; tick startTime i samples) (Normal samples) ticks
    = Normal (samples ++ new)
    /\ (timestamp <$> new) `sublist_of` ((fun i => now i - startTime) <$> ticks)
    /\ Forall (fun s => containers s <> ∅) new.
Proof.
  revert samples. induction ticks as [|i ticks IH]; intros samples; cbn [foldl].
  - exists []. rewrite app_nil_r. repeat split; [done|constructor].
  - rewrite fmap_cons.
    change (Normal samples ≫= _) with (tick startTime i samples).
    destruct (tick_cases startTime i samples) as [->|(s & -> & Hts & Hcs)].
    + destruct (IH samples) as (new & -> & Hsub & Hall).
      exists new. split; [done|]. split; [|done]. by apply sublist_cons.
    + destruct (IH (samples ++ [s])) as (new & -> & Hsub & Hall).
      exists (s :: new). rewrite <- app_assoc. split; [done|].
      split; [|by constructor]. rewrite fmap_cons, Hts. by apply sublist_skip.
Qed.


Lemma StronglySorted_sublist {A} (R : relation A) (l1 l2 : list A) :
  l1 `sublist_of` l2 -> StronglySorted R l2 -> StronglySorted R l1.
Proof.
  induction 1 as [|x l1 l2 Hsub IH|x l1 l2 Hsub IH]; intros Hs; [done|..].
  - apply StronglySorted_inv in Hs as [Hs Hx]. constructor; [by apply IH|].
    apply Forall_forall. intros y Hy.
    apply (proj1 (Forall_forall _ _) Hx). by eapply elem_of_sublist.
  - apply StronglySorted_inv in Hs as [Hs _]. by apply IH.
Qed.

End RunFacts.

(** X13. After any run of the monitor the buffered samples are stamped
    with the times of some of the ticks, in the order of the ticks, and each
    names a container. Under a clock that never goes back the timestamps
    ascend, so that the last sample, whose timestamp the summary reports as
    the duration, carries the largest. *)
Theorem buffered_samples_follow_the_ticks (startTime : Z) (ticks : list TickInput) :
  exists samples,
    runTicks startTime ticks = Normal samples
    /\ (timestamp <$> samples) `sublist_of` ((fun i => now i - startTime) <$> ticks)
    /\ Forall (fun s => containers s <> ∅) samples
    /\ (StronglySorted Z.le (now <$> ticks) ->
        StronglySorted Z.le (timestamp <$> samples)
        /\ forall s t, last samples = Some s -> t ∈ timestamp <$> samples -> t <= timestamp s).
Proof.
  destruct (runTicks_invariant startTime ticks []) as (samples & Hrun & Hsub & Hall).
  exists samples. split; [exact Hrun|]. split; [done|]. split; [done|].
  intros Hclock.
  assert (Hsorted : StronglySorted Z.le (timestamp <$> samples)).
  { eapply StronglySorted_sublist; [exact Hsub|].
    clear -Hclock. induction ticks as [|i ticks IH]; [constructor|].
    rewrite fmap_cons in *. apply StronglySorted_inv in Hclock as [Hs Hall].
    constructor; [by apply IH|].
    rewrite Forall_fmap in *. eapply Forall_impl; [exact Hall|]. intros j Hj. cbn in *. lia. }
  split; [done|]. intros s t Hlast Ht.
  apply last_Some in Hlast as [front ->].
  rewrite fmap_app in Hsorted, Ht. cbn [fmap list_fmap] in *.
  apply elem_of_app in Ht as [Ht|Ht%list_elem_of_singleton]; [|lia].
  eapply StronglySorted_app_1_elem_of; [exact Hsorted|exact Ht|]. by apply list_elem_of_singleton.
Qed.

Section ReadingFacts.
Local Open Scope string_scope.

(** A pattern that cannot start on any character of a prefix is matched
    after it. *)
Lemma exec_skip (r : Regex.regex) (p : ascii -> bool) (pre s : string) :
  (forall c s', p c = false ->
      Regex.rmatch r (String c s') [] (fun _ caps => Some caps) = None) ->
  Str.all (fun c => negb (p c)) pre = true ->
  Regex.exec r (pre ++ s) = Regex.exec r s.
Proof.
  intros Hr Hpre. induction pre as [|c pre IH]; [done|].
  simpl in Hpre. apply andb_true_iff in Hpre as [Hc Hpre]. apply negb_true_iff in Hc.
  change (String c pre ++ s) with (String c (pre ++ s)).
  cbn [Regex.exec]. rewrite (Hr c _ Hc). by apply IH.
Qed.

Lemma re_number_start c s' :
  Str.is_digit_or_dot c = false ->
  Regex.rmatch Regex.re_number (String c s') [] (fun _ caps => Some caps) = None.
Proof. intros Hc. cbn. by rewrite Hc. Qed.

Lemma re_memory_start c s' :
  Str.is_digit_or_dot c = false ->
  Regex.rmatch Regex.re_memory (String c s') [] (fun _ caps => Some caps) = None.
Proof. intros Hc. cbn. by rewrite Hc. Qed.

Lemma exec_re_number (num rest : string) :
  num <> "" -> Str.all Str.is_digit_or_dot num = true ->
  Str.stops Str.is_digit_or_dot rest = true ->
  Regex.exec Regex.re_number (num ++ rest) = Some [num].
Proof.
  intros Hn Hnum Hrest. apply exec_found.
  unfold Regex.re_number. cbn [Regex.rmatch].
  rewrite plus_run by (done || eauto). cbn [app]. by rewrite captured.
Qed.

Lemma exec_no_number (r : Regex.regex) (s : string) :
  (forall c s', Str.is_digit_or_dot c = false ->
      Regex.rmatch r (String c s') [] (fun _ caps => Some caps) = None) ->
  Regex.rmatch r "" [] (fun _ caps => Some caps) = None ->
  Str.all (fun c => negb (Str.is_digit_or_dot c)) s = true ->
  Regex.exec r s = None.
Proof.
  intros Hr Hempty Hs.
  assert (E : s = s ++ "").
  { clear. induction s as [|c s IH]; [done|].
    change (String c s = String c (s ++ "")). by rewrite <- IH. }
  rewrite E, (exec_skip r Str.is_digit_or_dot) by done. cbn. by rewrite Hempty.
Qed.

End ReadingFacts.

(** X14. The CPU reading of the monitor is [parseFloat] of the first run of
    digits and dots of the field, whatever stands before it, a sign
    included; a field without digit or dot reads 0, as CPU and as
    memory. *)
Theorem cpu_reading_is_the_first_number (pre num rest : string) :
  Str.all (fun c => negb (Str.is_digit_or_dot c)) pre = true ->
  num <> ""%string ->
  Str.all Str.is_digit_or_dot num = true ->
  Str.stops Str.is_digit_or_dot rest = true ->
  cpuReading (pre ++ num ++ rest) = parseFloat num
  /\ cpuReading pre = 0%float
  /\ memReading pre = 0%float.
Proof.
  intros Hpre Hn Hnum Hrest. split; [|split].
  - unfold cpuReading.
    rewrite (exec_skip _ Str.is_digit_or_dot) by (done || apply re_number_start).
    by rewrite exec_re_number.
  - unfold cpuReading. by rewrite exec_no_number by (done || apply re_number_start).
  - unfold memReading. by rewrite exec_no_number by (done || apply re_memory_start).
Qed.

Lemma cpu_reading_is_the_first_number_witness :
  cpuReading ("-" ++ "12.5" ++ "%") = parseFloat "12.5"
  /\ cpuReading "-" = 0%float
  /\ memReading "-" = 0%float.
Proof.
  apply (cpu_reading_is_the_first_number "-" "12.5" "%"); (reflexivity || discriminate).
Defined.

Section HealthFacts.
Import Health.

Lemma attempts_spec (probe : nat -> Probe) (interval : Z) (remaining : nat) (w : World) :
  match attempts probe interval remaining w with
  | (true, w') =>
      exists k, (k < remaining)%nat
        /\ probe (fetched w + k)%nat = Healthy
        /\ (forall j, (j < k)%nat -> probe (fetched w + j)%nat <> Healthy)
        /\ fetched w' = (fetched w + S k)%nat
        /\ slept w' = slept w + interval * Z.of_nat k
  | (false, w') =>
      (forall j, (j < remaining)%nat -> probe (fetched w + j)%nat <> Healthy)
      /\ fetched w' = (fetched w + remaining)%nat
      /\ slept w' = slept w + interval * Z.of_nat remaining
  end.
Proof.
  revert w. induction remaining as [|r IH]; intros w; cbn [attempts].
  - split; [intros j Hj; lia|]. split; [lia|lia].
  - destruct (probe (fetched w)) eqn:Hp.
    + exists 0%nat. rewrite Nat.add_0_r. cbn [fetched slept].
      split; [lia|]. split; [done|]. split; [intros j Hj; lia|]. split; lia.
    + specialize (IH {| fetched := S (fetched w); slept := slept w + interval |}).
      destruct (attempts probe interval r _) as [[|] w']; cbn [fetched slept] in IH.
      * destruct IH as (k & Hk & Hh & Hfirst & Hf & Hs). exists (S k).
        split; [lia|]. split; [by rewrite <- Nat.add_succ_comm|].
        split; [|split; lia].
        intros [|j] Hj; [rewrite Nat.add_0_r; congruence|].
        rewrite <- Nat.add_succ_comm. apply Hfirst. lia.
      * destruct IH as (Hnone & Hf & Hs). split; [|split; lia].
        intros [|j] Hj; [rewrite Nat.add_0_r; congruence|].
        rewrite <- Nat.add_succ_comm. apply Hnone. lia.
    + specialize (IH {| fetched := S (fetched w); slept := slept w + interval |}).
      destruct (attempts probe interval r _) as [[|] w']; cbn [fetched slept] in IH.
      * destruct IH as (k & Hk & Hh & Hfirst & Hf & Hs). exists (S k).
        split; [lia|]. split; [by rewrite <- Nat.add_succ_comm|].
        split; [|split; lia].
        intros [|j] Hj; [rewrite Nat.add_0_r; congruence|].
        rewrite <- Nat.add_succ_comm. apply Hfirst. lia.
      * destruct IH as (Hnone & Hf & Hs). split; [|split; lia].
        intros [|j] Hj; [rewrite Nat.add_0_r; congruence|].
        rewrite <- Nat.add_succ_comm. apply Hnone. lia.
Qed.

End HealthFacts.

(** X15. [waitForHealth] returns at the first probe that is healthy, if
    there is one among the first [maxAttempts]: it has then made one call of
    [fetch] per probe up to that one and slept [interval] after each failed
    one. Otherwise it throws after [maxAttempts] calls, having slept
    [maxAttempts * interval] milliseconds, the last [interval] after the
    last failed probe included. *)
Theorem waitForHealth_stops_at_first_healthy_probe
    (probe : nat -> Health.Probe) (maxAttempts : nat) (interval : Z) :
  exists ok w,
    Health.waitForHealth probe maxAttempts interval = (ok, w)
    /\ (ok = true <-> exists k, (k < maxAttempts)%nat /\ probe k = Health.Healthy)
    /\ (ok = true ->
        exists k, (k < maxAttempts)%nat /\ probe k = Health.Healthy
          /\ (forall j, (j < k)%nat -> probe j <> Health.Healthy)
          /\ Health.fetched w = S k /\ Health.slept w = interval * Z.of_nat k)
    /\ (ok = false ->
        Health.fetched w = maxAttempts
        /\ Health.slept w = interval * Z.of_nat maxAttempts).
Proof.
  pose proof (attempts_spec probe interval maxAttempts
                {| Health.fetched := 0; Health.slept := 0 |}) as H.
  unfold Health.waitForHealth.
  destruct (Health.attempts probe interval maxAttempts _) as [[|] w];
    cbn [Health.fetched Health.slept] in H.
  - exists true, w. split; [reflexivity|].
    destruct H as (k & Hk & Hh & Hfirst & Hf & Hs). cbn in Hh, Hfirst, Hf.
    split; [split; [eauto|done]|]. split; [|done].
    intros _. exists k. split; [done|]. split; [done|]. split; [done|]. split; lia.
  - exists false, w. split; [reflexivity|].
    destruct H as (Hnone & Hf & Hs). cbn in Hnone, Hf.
    split; [split; [done|]|].
    + intros (k & Hk & Hh). by destruct (Hnone k Hk).
    + split; [done|]. intros _. split; lia.
Qed.
